(** * RiskDash: risk classification, display tiers and fleet aggregation

    A shallow embedding of [src/riskCalculator.js] ([calculateRisk]),
    [src/colorClassification.js], [src/aggregation.js],
    [src/thresholds.js] and the factories of [src/dataModels.js], together
    with the fragment of the JavaScript semantics these files rely on
    (truthiness, [||], [&&], [??], [===], the relational operators, [+],
    template literals, property lookup, exceptions), and the properties of
    the specification proved or refuted against that embedding.

    Values: [undefined], [null], booleans, numbers, strings and plain
    objects such as [{}]; arrays, [Date] objects, symbols and objects with
    their own [valueOf] or [toString] are outside the model.

    Numbers: a JavaScript number is NaN, an infinity, or a finite double; a
    finite double is modelled by the rational it denotes, so comparisons are
    exact.  A sum or a quotient is the exact one rounded to the nearest
    double, ties to the even significand, as IEEE 754 has it
    ([round_double]: overflow to an infinity, gradual underflow), and a
    decimal literal of the source that is no double (96.04, 1.2) is the
    double nearest to it.  There is no negative zero, and a rational that
    is no double stands for no JavaScript number: the theorems hold for it
    as well, the examples use doubles only.

    Objects: an entity record and a threshold configuration are finite maps
    from property names to values, read through their own properties;
    reading a property that is not there yields [undefined].  Where the
    caller chooses the name of the property ([groupBoatsBy],
    [formatLegendText]), the properties that every object inherits from
    [Object.prototype] are read as well.

    Strings are sequences of bytes; they are compared and searched as
    JavaScript compares and searches sequences of code units.

    The conversions between numbers and text, the parsing of dates and the
    clock belong to the engine: they are the fields of the class [Host], and
    every theorem is proved for every host.

    The last part covers the rest of the code: [calculateAllRisks],
    [normalizeBoatName], [parseNumber], [parsePercent] and [fmtPct] of
    [src/utils.js], [getCustomFields] of [src/dataModels.js],
    [src/encoding.js] and [src/dynamicLegend.js].  The methods of strings
    ([trim], [toLowerCase], [toUpperCase], [parseFloat]) are the fields of
    the class [Text], [JSON] and Base64 those of the class [Codec]; the
    instances [example_text] and [example_codec] serve the examples
    only. *)

From Stdlib Require Import ZArith QArith Qabs Qminmax Lqa Bool Ascii String List.
From stdpp Require Import gmap strings list.

Local Open Scope Z_scope.

(** ** Numbers and values *)

Inductive num : Type :=
| NaN
| PosInf
| NegInf
| Fin (q : Q).

(** The values an entity field or a threshold can hold.  [VObj] is a plain
    object such as [{}]: truthy, and turned into the string
    "[object Object]" by ToPrimitive. *)
Inductive value : Type :=
| VUndef
| VNull
| VBool (b : bool)
| VNum (n : num)
| VStr (s : string)
| VObj.

Definition Qltb (a b : Q) : bool := negb (Qle_bool b a).

Definition num_of_Z (z : Z) : num := Fin (inject_Z z).
Definition vnum (q : Q) : value := VNum (Fin q).
Definition vint (z : Z) : value := VNum (num_of_Z z).

(** Number::lessThan: [None] is the "undefined" answer given when an operand
    is NaN. *)
Definition num_lt (x y : num) : option bool :=
  match x, y with
  | NaN, _ | _, NaN => None
  | PosInf, _ => Some false
  | _, PosInf => Some true
  | _, NegInf => Some false
  | NegInf, _ => Some true
  | Fin a, Fin b => Some (Qltb a b)
  end.

(** ** Rounding to a double (IEEE 754 binary64, round to nearest, ties to
    even)

    [n / d] rounded to an integer, a tie going to the even one. *)
Definition round_half_even (n d : Z) : Z :=
  let t := n / d in
  match 2 * (n mod d) ?= d with
  | Lt => t
  | Gt => t + 1
  | Eq => if Z.even t then t else t + 1
  end.

(** The double nearest to [a / d], for positive [a] and [d]: with [E] the
    exponent of [a / d] ([2 ^ E <= a / d < 2 ^ (E + 1)]), the significand
    is [a / d] counted in units of [2 ^ e], [e] being [E - 52] or, for a
    subnormal number, [-1074], and rounded to an integer; [None] is the
    overflow, from [2 ^ 1024] on. *)
Definition round_magnitude (a d : Z) : option Q :=
  let E := Z.log2 a - Z.log2 d
           - (if a * 2 ^ Z.log2 d <? d * 2 ^ Z.log2 a then 1 else 0) in
  let e := Z.max (E - 52) (-1074) in
  if 0 <=? e
  then let m := round_half_even a (d * 2 ^ e) in
       if 2 ^ 1024 <=? m * 2 ^ e then None else Some (inject_Z (m * 2 ^ e))
  else Some (round_half_even (a * 2 ^ (- e)) d # Z.to_pos (2 ^ (- e))).

Definition round_double (q : Q) : num :=
  let q := Qred q in
  match Qnum q with
  | 0 => Fin 0
  | Zpos a =>
      match round_magnitude (Zpos a) (Zpos (Qden q)) with
      | Some r => Fin (Qred r)
      | None => PosInf
      end
  | Zneg a =>
      match round_magnitude (Zpos a) (Zpos (Qden q)) with
      | Some r => Fin (Qred (- r))
      | None => NegInf
      end
  end.

(** A decimal literal of the source. *)
Definition double (q : Q) : value := VNum (round_double q).

(** [x + y] and, for a positive count [n], [x / n]: the exact result
    rounded, with the IEEE rules for NaN and the infinities. *)
Definition num_add (x y : num) : num :=
  match x, y with
  | NaN, _ | _, NaN => NaN
  | PosInf, NegInf | NegInf, PosInf => NaN
  | PosInf, _ | _, PosInf => PosInf
  | NegInf, _ | _, NegInf => NegInf
  | Fin a, Fin b => round_double (a + b)
  end.

Definition num_div_count (x : num) (n : nat) : num :=
  match x with
  | Fin a => round_double (a / inject_Z (Z.of_nat n))
  | other => other
  end.

(** [Math.min(100, x)] *)
Definition Math_min_100 (x : num) : num :=
  match x with
  | NaN => NaN
  | PosInf => Fin 100
  | NegInf => NegInf
  | Fin a => if Qle_bool 100 a then Fin 100 else Fin a
  end.

Definition truthy (v : value) : bool :=
  match v with
  | VUndef | VNull => false
  | VBool b => b
  | VNum NaN => false
  | VNum (Fin q) => negb (Qeq_bool q 0)
  | VNum _ => true
  | VStr s => negb (String.eqb s "")
  | VObj => true
  end.

(** [a || b], [a && b] and [a ?? b] on values. *)
Definition js_or (a b : value) : value := if truthy a then a else b.
Definition js_and (a b : value) : value := if truthy a then b else a.
Definition js_nullish (a b : value) : value :=
  match a with
  | VUndef | VNull => b
  | _ => a
  end.

(** [v !== null], [v === true], [v === 1], [v === 'text'],
    [v === null || v === undefined]. *)
Definition not_null (v : value) : bool :=
  match v with VNull => false | _ => true end.
Definition is_true (v : value) : bool :=
  match v with VBool true => true | _ => false end.
Definition is_one (v : value) : bool :=
  match v with VNum (Fin q) => Qeq_bool q 1 | _ => false end.
Definition is_text (s : string) (v : value) : bool :=
  match v with VStr s' => String.eqb s' s | _ => false end.
Definition null_or_undefined (v : value) : bool :=
  match v with VNull | VUndef => true | _ => false end.

(** ** The host: conversions between text and numbers, dates, the clock

    What the embedding takes from the JavaScript engine rather than from the
    repository.  The three laws are facts of ECMAScript: a number is printed
    with digits, a sign, a point, an exponent mark, or as [NaN] or
    [Infinity]; a string that converts to a number is a numeric literal,
    possibly padded with white space. *)

Definition is_digit (c : ascii) : bool :=
  let n := nat_of_ascii c in (48 <=? n)%nat && (n <=? 57)%nat.

(** Characters of a printed number: digits, [+], [-], [.], [e] and the
    letters of [NaN] and [Infinity]. *)
Definition number_char (c : ascii) : bool :=
  is_digit c ||
  existsb (Ascii.eqb c) (list_ascii_of_string "+-.eNaInfity").

(** Characters of a numeric string: digits, signs, point, exponent marks,
    radix prefixes, hexadecimal digits, [Infinity], white space (the bytes
    of the non-ASCII space characters are all above 127). *)
Definition literal_char (c : ascii) : bool :=
  let n := nat_of_ascii c in
  is_digit c || (128 <=? n)%nat || (n =? 32)%nat ||
  ((9 <=? n)%nat && (n <=? 13)%nat) ||
  existsb (Ascii.eqb c) (list_ascii_of_string "+-.eEInfityxXoObBaAcCdDfF").

Definition all_chars (p : ascii -> bool) (s : string) : bool :=
  forallb p (list_ascii_of_string s).

Class Host : Type := {
  (** StringToNumber *)
  StringToNumber : string -> num;
  (** Number::toString *)
  NumberToString : num -> string;
  (** Number.prototype.toFixed *)
  toFixed : num -> nat -> string;
  (** Date.parse: a time value in milliseconds, [None] for an invalid date *)
  DateParse : string -> option Z;
  (** the time value of [new Date()] during the call *)
  now : Z;
  NumberToString_chars : forall x, all_chars number_char (NumberToString x) = true;
  toFixed_chars : forall x d, all_chars number_char (toFixed x d) = true;
  StringToNumber_chars :
    forall s, StringToNumber s <> NaN -> all_chars literal_char s = true
}.

(** The methods of strings, and the text of what an object inherits from
    [Object.prototype] (a function, or the prototype itself), also taken
    from the engine. *)
Class Text : Type := {
  trim : string -> string;
  toLowerCase : string -> string;
  toUpperCase : string -> string;
  parseFloat : string -> num;
  (** [String(Object.prototype[k])] for a name [k] that objects inherit *)
  inherited_text : string -> string
}.

Section JavaScript.
Context `{Host}.

Definition ToPrimitive (v : value) : value :=
  match v with
  | VObj => VStr "[object Object]"
  | _ => v
  end.

Definition ToNumber (v : value) : num :=
  match v with
  | VUndef => NaN
  | VNull => Fin 0
  | VBool true => Fin 1
  | VBool false => Fin 0
  | VNum n => n
  | VStr s => StringToNumber s
  | VObj => NaN
  end.

Definition ToString (v : value) : string :=
  match v with
  | VUndef => "undefined"
  | VNull => "null"
  | VBool true => "true"
  | VBool false => "false"
  | VNum n => NumberToString n
  | VStr s => s
  | VObj => "[object Object]"
  end.

(** IsLessThan: two strings are compared as strings, anything else as
    numbers. *)
Definition js_lt (a b : value) : option bool :=
  match ToPrimitive a, ToPrimitive b with
  | VStr s1, VStr s2 => Some (String.ltb s1 s2)
  | pa, pb => num_lt (ToNumber pa) (ToNumber pb)
  end.

(** [a < b], [a > b], [a <= b], [a >= b] *)
Definition lt (a b : value) : bool :=
  match js_lt a b with Some true => true | _ => false end.
Definition gt (a b : value) : bool := lt b a.
Definition le (a b : value) : bool :=
  match js_lt b a with Some false => true | _ => false end.
Definition ge (a b : value) : bool := le b a.

(** [a + b]: concatenation as soon as one operand is a string (or an
    object), numeric addition otherwise. *)
Definition js_add (a b : value) : value :=
  match ToPrimitive a, ToPrimitive b with
  | VStr s, pb => VStr (s +:+ ToString pb)
  | pa, VStr s => VStr (ToString pa +:+ s)
  | pa, pb => VNum (num_add (ToNumber pa) (ToNumber pb))
  end.

End JavaScript.

(** ** Exceptions

    A call either returns or throws (here always a TypeError: a method such
    as [toFixed], [slice] or [push] looked up on a value that has none). *)

Inductive result (A : Type) : Type :=
| Ok (a : A)
| Throw.
Arguments Ok {A} a.
Arguments Throw {A}.

#[global] Instance result_ret : MRet result := fun A a => Ok a.
#[global] Instance result_bind : MBind result := fun A B f m =>
  match m with
  | Ok a => f a
  | Throw => Throw
  end.

(** A loop over an array whose body may throw. *)
Fixpoint for_each {S A : Type} (body : S -> A -> result S) (xs : list A) (s : S)
  : result S :=
  match xs with
  | [] => Ok s
  | x :: xs' => s' ← body s x; for_each body xs' s'
  end.

(** ** Objects as records *)

(** [o.k] *)
Definition prop (o : gmap string value) (k : string) : value :=
  default VUndef (o !! k).

(** What a caller passes for the [thresholds] parameter. *)
Inductive config_arg : Type :=
| CUndef
| CNull
| CObj (t : gmap string value).

(** ** thresholds.js *)

Definition defaultThresholds : gmap string value :=
  list_to_map [
    ("low_vph", vnum (5#2));
    ("low_scan_age_days", vnum 14);
    ("low_product_compliance", vnum 95);
    ("low_true_policy_compliance", vnum 95);
    ("low_raw_policy_compliance", vnum 95);
    ("low_tam_past_due", vnum 5);
    ("med_ra_vph", vnum (7#2));
    ("med_ess_compliance", vnum 95);
    ("med_scan_age_days", vnum 14);
    ("med_tam_past_due", vnum 10);
    ("med_true_policy_compliance", vnum 95);
    ("med_raw_policy_compliance", vnum 0);
    ("auto_high_ra_vph", vnum 999);
    ("auto_high_scan_age_days", vnum 999);
    ("high_ess_compliance", vnum 90);
    ("high_raw_policy_compliance", vnum 0);
    ("high_product_compliance", vnum 0);
    ("high_tam_past_due", vnum 20);
    ("color_product_green", vnum 95); ("color_product_red", vnum 90);
    ("color_policy_green", vnum 95); ("color_policy_red", vnum 90);
    ("color_policy_raw_green", vnum 95); ("color_policy_raw_red", vnum 90);
    ("color_vph_green", vnum (5#2)); ("color_vph_red", vnum (7#2));
    ("color_scan_green", vnum 14); ("color_scan_red", vnum 14);
    ("hq_color_product_green", vnum 95); ("hq_color_product_red", vnum 90);
    ("hq_color_policy_green", vnum 95); ("hq_color_policy_red", vnum 90);
    ("hq_color_policy_raw_green", vnum 95); ("hq_color_policy_raw_red", vnum 90);
    ("low_product_compliance_enabled", vnum 1);
    ("low_true_policy_compliance_enabled", vnum 0);
    ("low_raw_policy_compliance_enabled", vnum 0);
    ("low_tam_past_due_enabled", vnum 0)
  ].

(** ** riskCalculator.js *)

Inductive tier : Type := LOW | MED | HIGH.

Record outcome : Type := { level : tier; reasons : list string }.

(** One guarded statement of [calculateRisk]: the condition of an [if], and
    the reason string its body builds (building it may throw). *)
Definition check : Type := bool * result string.

(** [String.prototype.includes] *)
Fixpoint includes (needle s : string) : bool :=
  String.prefix needle s ||
  match s with
  | EmptyString => false
  | String _ s' => includes needle s'
  end.

Section RiskCalculator.
Context `{Host}.

(** [TimeClip] and the time value of [new Date(d)]. *)
Definition TimeClip (x : num) : option Z :=
  match x with
  | Fin q =>
      if Qle_bool (Qabs q) 8640000000000000
      then Some (Z.quot (Qnum q) (Zpos (Qden q)))
      else None
  | _ => None
  end.

Definition date_value (d : value) : option Z :=
  match ToPrimitive d with
  | VStr s => DateParse s
  | p => TimeClip (ToNumber p)
  end.

Definition scanAge (d : value) : option Z :=
  if negb (truthy d) then None
  else match date_value d with
       | None => None
       | Some date =>
           let age := (now - date) / 86400000 in
           if 0 <=? age then Some age else None
       end.

(** [`${v.toFixed(d)}`] *)
Definition fixed (v : value) (d : nat) : result string :=
  match v with
  | VNum n => Ok (toFixed n d)
  | _ => Throw
  end.

(** [`${label}${v.toFixed(1)}%`] and [`${label}${v.toFixed(2)}`] *)
Definition percent (label : string) (v : value) : result string :=
  s ← fixed v 1; Ok (label +:+ s +:+ "%").
Definition ratio (label : string) (v : value) : result string :=
  s ← fixed v 2; Ok (label +:+ s).
(** [`${label}${v}`] *)
Definition plain (label : string) (v : value) : result string :=
  Ok (label +:+ ToString v).
(** [`${label}${age}d`] for a scan age that is not [null] *)
Definition days (label : string) (age : option Z) : result string :=
  match age with
  | Some a => Ok (label +:+ NumberToString (num_of_Z a) +:+ "d")
  | None => Ok (label +:+ "nulld")
  end.

(** [v !== null && v < thr], [v !== null && v > thr], [v !== null && v >= thr] *)
Definition below (v thr : value) : bool := not_null v && lt v thr.
Definition above (v thr : value) : bool := not_null v && gt v thr.
Definition at_least (v thr : value) : bool := not_null v && ge v thr.
(** [age !== null && age > thr] *)
Definition older (age : option Z) (thr : value) : bool :=
  match age with
  | Some a => gt (vint a) thr
  | None => false
  end.

(** The locals computed at the top of [calculateRisk]. *)
Record locals : Type := {
  isNmci : bool;
  nAge : option Z;
  sAge : option Z;
  hasNiprVramData : bool;
  hasSiprVramData : bool
}.

Definition read_locals (boat : gmap string value) : locals :=
  let isNmci := is_true (prop boat "isNmci") in
  {| isNmci := isNmci;
     nAge := if isNmci then None else scanAge (prop boat "vramNiprScanDate");
     sAge := scanAge (prop boat "vramSiprScanDate");
     hasNiprVramData :=
       if isNmci then true
       else not_null (prop boat "vramNiprScanDate")
            || not_null (prop boat "vramNiprRaVph")
            || not_null (prop boat "vramNiprAssets");
     hasSiprVramData :=
       not_null (prop boat "vramSiprScanDate")
       || not_null (prop boat "vramSiprRaVph")
       || not_null (prop boat "vramSiprAssets") |}.

(** [highDueToNoScans] is set by the "No VRAM data" trigger and by nothing
    else. *)
Definition noVramData (l : locals) : bool :=
  negb (hasNiprVramData l || hasSiprVramData l)
  || (isNmci l && negb (hasSiprVramData l)).

(** The HIGH triggers, in the order of the source. *)
Definition highChecks (boat t : gmap string value) (l : locals) : list check :=
  let nmci := isNmci l in
  let highProductComplianceThreshold := js_or (prop t "high_product_compliance") (vnum 50) in
  let autoHighVphThreshold := js_or (prop t "auto_high_ra_vph") (vnum 5) in
  let autoHighScanAgeThreshold := js_or (prop t "auto_high_scan_age_days") (vnum 30) in
  let highEssComplianceThreshold := js_or (prop t "high_ess_compliance") (vnum 0) in
  let highRawPolicyThreshold := js_or (prop t "high_raw_policy_compliance") (vnum 0) in
  let highTamThreshold := js_or (prop t "high_tam_past_due") (vnum 20) in
  [ (negb nmci && gt (js_or (prop boat "essNiprBreakfix") (vnum 0)) (vnum 0),
     plain "NIPR Breakfix: " (prop boat "essNiprBreakfix"));
    (gt (js_or (prop boat "essSiprBreakfix") (vnum 0)) (vnum 0),
     plain "SIPR Breakfix: " (prop boat "essSiprBreakfix"));
    (noVramData l, Ok "No VRAM data");
    (gt highProductComplianceThreshold (vnum 0) && negb nmci
       && below (prop boat "essNiprProductCompliance") highProductComplianceThreshold,
     percent "NIPR Prod: " (prop boat "essNiprProductCompliance"));
    (gt highProductComplianceThreshold (vnum 0)
       && below (prop boat "essSiprProductCompliance") highProductComplianceThreshold,
     percent "SIPR Prod: " (prop boat "essSiprProductCompliance"));
    (negb nmci && above (prop boat "vramNiprRaVph") autoHighVphThreshold,
     ratio "NIPR VPH: " (prop boat "vramNiprRaVph"));
    (above (prop boat "vramSiprRaVph") autoHighVphThreshold,
     ratio "SIPR VPH: " (prop boat "vramSiprRaVph"));
    (negb nmci && older (nAge l) autoHighScanAgeThreshold,
     days "NIPR Scan: " (nAge l));
    (older (sAge l) autoHighScanAgeThreshold,
     days "SIPR Scan: " (sAge l));
    (gt highEssComplianceThreshold (vnum 0) && negb nmci
       && below (prop boat "essNiprTruePolicy") highEssComplianceThreshold,
     percent "NIPR True Policy: " (prop boat "essNiprTruePolicy"));
    (gt highEssComplianceThreshold (vnum 0)
       && below (prop boat "essSiprTruePolicy") highEssComplianceThreshold,
     percent "SIPR True Policy: " (prop boat "essSiprTruePolicy"));
    (gt highRawPolicyThreshold (vnum 0) && negb nmci
       && below (prop boat "essNiprPolicyEnforced") highRawPolicyThreshold,
     percent "NIPR Raw Policy: " (prop boat "essNiprPolicyEnforced"));
    (gt highRawPolicyThreshold (vnum 0)
       && below (prop boat "essSiprPolicyEnforced") highRawPolicyThreshold,
     percent "SIPR Raw Policy: " (prop boat "essSiprPolicyEnforced"));
    (gt (js_or (prop boat "tamPastDue") (vnum 0)) highTamThreshold,
     plain "TAMs: " (prop boat "tamPastDue")) ].

(** The counted MED conditions, in the order of the source. *)
Definition medChecks (boat t : gmap string value) (l : locals) : list check :=
  let nmci := isNmci l in
  let vphThreshold := js_or (prop t "med_ra_vph") (vnum (7#2)) in
  let complianceThreshold := js_or (prop t "med_ess_compliance") (vnum 95) in
  let truePolicyThreshold := js_or (prop t "med_true_policy_compliance") (vnum 0) in
  let rawPolicyThreshold := js_or (prop t "med_raw_policy_compliance") (vnum 0) in
  let scanThreshold := js_or (prop t "med_scan_age_days") (vnum 14) in
  let tamThreshold := js_or (prop t "med_tam_past_due") (vnum 10) in
  [ (negb nmci && above (prop boat "vramNiprRaVph") vphThreshold,
     ratio "NIPR VPH: " (prop boat "vramNiprRaVph"));
    (above (prop boat "vramSiprRaVph") vphThreshold,
     ratio "SIPR VPH: " (prop boat "vramSiprRaVph"));
    (negb nmci && below (prop boat "essNiprProductCompliance") complianceThreshold,
     percent "NIPR Prod: " (prop boat "essNiprProductCompliance"));
    (below (prop boat "essSiprProductCompliance") complianceThreshold,
     percent "SIPR Prod: " (prop boat "essSiprProductCompliance"));
    (gt truePolicyThreshold (vnum 0) && negb nmci
       && below (prop boat "essNiprTruePolicy") truePolicyThreshold,
     percent "NIPR True Policy: " (prop boat "essNiprTruePolicy"));
    (gt truePolicyThreshold (vnum 0)
       && below (prop boat "essSiprTruePolicy") truePolicyThreshold,
     percent "SIPR True Policy: " (prop boat "essSiprTruePolicy"));
    (gt rawPolicyThreshold (vnum 0) && negb nmci
       && below (prop boat "essNiprPolicyEnforced") rawPolicyThreshold,
     percent "NIPR Raw Policy: " (prop boat "essNiprPolicyEnforced"));
    (gt rawPolicyThreshold (vnum 0)
       && below (prop boat "essSiprPolicyEnforced") rawPolicyThreshold,
     percent "SIPR Raw Policy: " (prop boat "essSiprPolicyEnforced"));
    (negb nmci && older (nAge l) scanThreshold, days "NIPR Scan: " (nAge l));
    (older (sAge l) scanThreshold, days "SIPR Scan: " (sAge l));
    (gt (js_or (prop boat "tamPastDue") (vnum 0)) tamThreshold,
     plain "TAMs: " (prop boat "tamPastDue")) ].

(** The LOW requirements: each entry is the condition under which a
    requirement fails, and the reason pushed for it. *)
Definition lowChecks (boat t : gmap string value) (l : locals) : list check :=
  let nmci := isNmci l in
  let lowVphThreshold := js_or (prop t "low_vph") (vnum (5#2)) in
  let lowProductThreshold := js_or (prop t "low_product_compliance") (vnum 95) in
  let lowTruePolicyThreshold := js_or (prop t "low_true_policy_compliance") (vnum 95) in
  let lowRawPolicyThreshold := js_or (prop t "low_raw_policy_compliance") (vnum 95) in
  let lowScanThreshold := js_or (prop t "low_scan_age_days") (vnum 14) in
  let lowTamThreshold := js_or (prop t "low_tam_past_due") (vnum 5) in
  let productCompEnabled := true in
  let truePolicyEnabled :=
    is_one (js_nullish (prop t "low_true_policy_compliance_enabled") (vnum 0)) in
  let rawPolicyEnabled :=
    is_one (js_nullish (prop t "low_raw_policy_compliance_enabled") (vnum 0)) in
  let tamEnabled :=
    is_one (js_nullish (prop t "low_tam_past_due_enabled") (vnum 0)) in
  [ (negb nmci && at_least (prop boat "vramNiprRaVph") lowVphThreshold,
     ratio "NIPR VPH: " (prop boat "vramNiprRaVph"));
    (at_least (prop boat "vramSiprRaVph") lowVphThreshold,
     ratio "SIPR VPH: " (prop boat "vramSiprRaVph"));
    (productCompEnabled && negb nmci
       && below (prop boat "essNiprProductCompliance") lowProductThreshold,
     percent "NIPR Prod: " (prop boat "essNiprProductCompliance"));
    (productCompEnabled
       && below (prop boat "essSiprProductCompliance") lowProductThreshold,
     percent "SIPR Prod: " (prop boat "essSiprProductCompliance"));
    (truePolicyEnabled && negb nmci
       && below (prop boat "essNiprTruePolicy") lowTruePolicyThreshold,
     percent "NIPR TruePolicy: " (prop boat "essNiprTruePolicy"));
    (truePolicyEnabled
       && below (prop boat "essSiprTruePolicy") lowTruePolicyThreshold,
     percent "SIPR TruePolicy: " (prop boat "essSiprTruePolicy"));
    (rawPolicyEnabled && negb nmci
       && below (prop boat "essNiprPolicyEnforced") lowRawPolicyThreshold,
     percent "NIPR RawPolicy: " (prop boat "essNiprPolicyEnforced"));
    (rawPolicyEnabled
       && below (prop boat "essSiprPolicyEnforced") lowRawPolicyThreshold,
     percent "SIPR RawPolicy: " (prop boat "essSiprPolicyEnforced"));
    (negb nmci && older (nAge l) lowScanThreshold, days "NIPR Scan: " (nAge l));
    (older (sAge l) lowScanThreshold, days "SIPR Scan: " (sAge l));
    (tamEnabled && gt (js_or (prop boat "tamPastDue") (vnum 0)) lowTamThreshold,
     plain "TAMs: " (prop boat "tamPastDue")) ].

(** [if (c) { level = 'HIGH'; reasons.push(r); }] *)
Definition escalate (s : outcome) (c : check) : result outcome :=
  if c.1 then r ← c.2; Ok {| level := HIGH; reasons := reasons s ++ [r] |}
  else Ok s.

(** [if (c) { medConditionCount++; medReasons.push(r); }] *)
Definition tally (s : nat * list string) (c : check) : result (nat * list string) :=
  if c.1 then r ← c.2; Ok (S s.1, s.2 ++ [r]) else Ok s.

(** [if (c) reasons.push(r);] *)
Definition push (rs : list string) (c : check) : result (list string) :=
  if c.1 then r ← c.2; Ok (rs ++ [r]) else Ok rs.

(** [if (c) meetsLowCriteria = false;] over all the requirements *)
Definition meetsLowCriteria (cs : list check) : bool :=
  forallb (fun c : check => negb c.1) cs.

Definition medStage (boat t : gmap string value) (l : locals) (s : outcome)
  : result outcome :=
  match level s with
  | HIGH => Ok s
  | _ =>
      m ← for_each tally (medChecks boat t l) (0%nat, []);
      if (2 <=? m.1)%nat
      then Ok {| level := MED; reasons := reasons s ++ m.2 |}
      else Ok s
  end.

Definition lowStage (boat t : gmap string value) (l : locals) (s : outcome)
  : result outcome :=
  match level s with
  | LOW =>
      if meetsLowCriteria (lowChecks boat t l) then Ok s
      else rs ← for_each push (lowChecks boat t l) (reasons s);
           Ok {| level := MED; reasons := rs |}
  | _ => Ok s
  end.

(** The scan-exemption downgrade. *)
Definition isScanExempt (boat : gmap string value) : value :=
  if truthy (prop boat "isNmci")
  then js_and (prop boat "vramNiprScanExempt") (prop boat "vramSiprScanExempt")
  else js_or (prop boat "vramNiprScanExempt") (prop boat "vramSiprScanExempt").

Definition exemptStage (boat : gmap string value) (l : locals) (s : outcome)
  : outcome :=
  match level s with
  | HIGH =>
      if truthy (isScanExempt boat) && noVramData l
         && forallb (includes "VRAM data") (reasons s)
      then {| level := MED; reasons := reasons s ++ ["Scan Exempt"] |}
      else s
  | _ => s
  end.

Definition calculateRisk (boat : gmap string value) (thresholds : config_arg)
  : result outcome :=
  (* the default parameter, then [thresholds || defaultThresholds] *)
  let t := match thresholds with
           | CObj t => t
           | CUndef | CNull => defaultThresholds
           end in
  let l := read_locals boat in
  s1 ← for_each escalate (highChecks boat t l) {| level := LOW; reasons := [] |};
  s2 ← medStage boat t l s1;
  s3 ← lowStage boat t l s2;
  Ok (exemptStage boat l s3).

End RiskCalculator.

(** ** colorClassification.js *)

Section ColorClassification.
Context `{Host}.

(** Reading [thresholds.k] in a function whose parameter only has a default
    value: [undefined] selects the defaults, [null] has no properties. *)
Definition config_of (thresholds : config_arg) : result (gmap string value) :=
  match thresholds with
  | CUndef => Ok defaultThresholds
  | CNull => Throw
  | CObj t => Ok t
  end.

(** The body shared by [prodCompClass], [policyCompClass], [policyRawClass],
    [hqProdClass], [hqPolicyClass] and [hqPolicyRawClass] (higher is
    better); they differ in the two keys they read. *)
Definition complianceClass (green red : string) (v : value) (thresholds : config_arg)
  : result string :=
  if null_or_undefined v then Ok ""
  else
    t ← config_of thresholds;
    let greenThreshold := js_or (prop t green) (vnum 95) in
    let redThreshold := js_or (prop t red) (vnum 90) in
    Ok (if ge v greenThreshold then "risk-low"
        else if lt v redThreshold then "risk-high" else "risk-med").

Definition prodCompClass := complianceClass "color_product_green" "color_product_red".
Definition policyCompClass := complianceClass "color_policy_green" "color_policy_red".
Definition policyRawClass := complianceClass "color_policy_raw_green" "color_policy_raw_red".
Definition hqProdClass := complianceClass "hq_color_product_green" "hq_color_product_red".
Definition hqPolicyClass := complianceClass "hq_color_policy_green" "hq_color_policy_red".
Definition hqPolicyRawClass :=
  complianceClass "hq_color_policy_raw_green" "hq_color_policy_raw_red".

(** Lower is better. *)
Definition vphClass (v : value) (thresholds : config_arg) : result string :=
  if null_or_undefined v then Ok ""
  else
    t ← config_of thresholds;
    let greenThreshold := js_or (prop t "color_vph_green") (vnum (5#2)) in
    let redThreshold := js_or (prop t "color_vph_red") (vnum (7#2)) in
    Ok (if le v greenThreshold then "risk-low"
        else if gt v redThreshold then "risk-high" else "risk-med").

Definition scanAgeClass (d : value) (thresholds : config_arg) : result string :=
  if negb (truthy d) then Ok "risk-high"
  else match date_value d with
       | None => Ok "risk-high"
       | Some date =>
           let age := vint ((now - date) / 86400000) in
           t ← config_of thresholds;
           let greenThreshold := js_or (prop t "color_scan_green") (vnum 14) in
           let redThreshold := js_or (prop t "color_scan_red") (vnum 14) in
           Ok (if le age greenThreshold then "risk-low"
               else if gt age redThreshold then "risk-high" else "risk-med")
       end.

Definition breakfixClass (v : value) : string :=
  if null_or_undefined v then ""
  else if gt v (vnum 0) then "risk-high" else "".

End ColorClassification.

(** ** aggregation.js *)

(** [a === b].  NaN differs from itself, and two objects met in the data are
    never the same object. *)
Definition strict_eq (a b : value) : bool :=
  match a, b with
  | VUndef, VUndef | VNull, VNull => true
  | VBool x, VBool y => Bool.eqb x y
  | VNum (Fin x), VNum (Fin y) => Qeq_bool x y
  | VNum PosInf, VNum PosInf | VNum NegInf, VNum NegInf => true
  | VStr x, VStr y => String.eqb x y
  | _, _ => false
  end.

(** The properties an object literal [{}] inherits from [Object.prototype]:
    for these names [groups[k]] is never [undefined]. *)
Definition Object_prototype : list string :=
  [ "constructor"; "hasOwnProperty"; "isPrototypeOf"; "propertyIsEnumerable";
    "toLocaleString"; "toString"; "valueOf"; "__proto__";
    "__defineGetter__"; "__defineSetter__"; "__lookupGetter__"; "__lookupSetter__" ].

Definition inherited (k : string) : bool :=
  existsb (String.eqb k) Object_prototype.

(** The own properties of an object built by assignments [o[k] = x], in the
    order of their creation. *)
Fixpoint own {A : Type} (k : string) (o : list (string * A)) : option A :=
  match o with
  | [] => None
  | (k', x) :: o' => if String.eqb k' k then Some x else own k o'
  end.

Fixpoint assign {A : Type} (k : string) (x : A) (o : list (string * A))
  : list (string * A) :=
  match o with
  | [] => [(k, x)]
  | (k', y) :: o' =>
      if String.eqb k' k then (k', x) :: o' else (k', y) :: assign k x o'
  end.

(** [Object.values]: the properties named by an array index come first, in
    ascending order, then the others in the order of their creation. *)
Definition decimal_value (s : string) : N :=
  fold_left (fun n c => (10 * n + (N_of_ascii c - 48))%N) (list_ascii_of_string s) 0%N.

Definition array_index (k : string) : option N :=
  if all_chars is_digit k && negb (String.eqb k "")
     && (String.eqb k "0" || negb (String.prefix "0" k))
     && (decimal_value k <? 4294967295)%N
  then Some (decimal_value k) else None.

Fixpoint insert_sorted {A : Type} (i : N) (x : A) (l : list (N * A)) : list (N * A) :=
  match l with
  | [] => [(i, x)]
  | (j, y) :: l' =>
      if (i <? j)%N then (i, x) :: l else (j, y) :: insert_sorted i x l'
  end.

Definition Object_values {A : Type} (o : list (string * A)) : list A :=
  let indexed :=
    fold_right (fun kx acc =>
                  match array_index kx.1 with
                  | Some i => insert_sorted i kx.2 acc
                  | None => acc
                  end) [] o in
  let named :=
    filter (fun kx : string * A => array_index kx.1 = None) o in
  indexed.*2 ++ named.*2.

Record group : Type := {
  info : gmap string value;
  boats : list (gmap string value)
}.

(** The running sums and counts of one group. *)
Record sums : Type := {
  niprBreakfix : value;  siprBreakfix : value;
  high : nat;  med : nat;  low : nat;  exempt : nat;
  nProd : value * nat;  nPol : value * nat;  nPolRaw : value * nat;
  sProd : value * nat;  sPol : value * nat;  sPolRaw : value * nat
}.

Record aggregate : Type := {
  isicName : value;
  isicShort : value;
  tycom : value;
  boatCount : nat;
  niprBreakfixSum : value;
  siprBreakfixSum : value;
  highRiskCount : nat;
  medRiskCount : nat;
  lowRiskCount : nat;
  scanExemptCount : nat;
  niprProdCompAvg : num;
  niprPolEnfAvg : num;
  niprPolRawAvg : num;
  siprProdCompAvg : num;
  siprPolEnfAvg : num;
  siprPolRawAvg : num
}.

Record stats : Type := {
  totalBoats : nat;
  stats_highRiskCount : nat;
  stats_medRiskCount : nat;
  stats_lowRiskCount : nat;
  totalBreakfix : value;
  stats_scanExemptCount : nat;
  avgVph : num;
  avgCompliance : num
}.

Section Aggregation.
Context `{Host} `{Text}.

(** [b.isic.slice(0, 6)] *)
Definition slice_0_6 (v : value) : result string :=
  match v with
  | VStr s => Ok (substring 0 6 s)
  | _ => Throw
  end.

(** [settings.isics.find(i => i.isic_name === b.isic) || { ... }] *)
Definition group_info (isics : list (gmap string value)) (b : gmap string value)
  : result (gmap string value) :=
  match find (fun i => strict_eq (prop i "isic_name") (prop b "isic")) isics with
  | Some i => Ok i
  | None =>
      short ← slice_0_6 (prop b "isic");
      Ok (list_to_map [ ("isic_name", prop b "isic");
                        ("isic_short", VStr short);
                        ("tycom", prop b "tycom") ])
  end.

(** The body of the grouping loop. *)
Definition group_boat (isics : list (gmap string value))
    (groups : list (string * group)) (b : gmap string value)
  : result (list (string * group)) :=
  let key := ToString (prop b "isic") in
  match own key groups with
  | Some g => Ok (assign key {| info := info g; boats := boats g ++ [b] |} groups)
  | None =>
      if inherited key then Throw
      else
        i ← group_info isics b;
        Ok (assign key {| info := i; boats := [b] |} groups)
  end.

(** [if (v !== null) { sum += v; cnt++; }] *)
Definition count_in (acc : value * nat) (v : value) : value * nat :=
  if not_null v then (js_add acc.1 v, S acc.2) else acc.

(** [cnt > 0 ? Math.min(100, sum / cnt) : 0] *)
Definition average (acc : value * nat) : num :=
  if (0 <? acc.2)%nat then Math_min_100 (num_div_count (ToNumber acc.1) acc.2)
  else Fin 0.

Definition tick (c : bool) (n : nat) : nat := if c then S n else n.

Definition no_sums : sums :=
  {| niprBreakfix := vnum 0; siprBreakfix := vnum 0;
     high := 0; med := 0; low := 0; exempt := 0;
     nProd := (vnum 0, O); nPol := (vnum 0, O); nPolRaw := (vnum 0, O);
     sProd := (vnum 0, O); sPol := (vnum 0, O); sPolRaw := (vnum 0, O) |}.

(** The body of the loop over the boats of a group. *)
Definition add_boat (a : sums) (b : gmap string value) : sums :=
  let nipr := negb (truthy (prop b "isNmci")) in
  let risk := prop b "riskLevel" in
  {| niprBreakfix :=
       if nipr then js_add (niprBreakfix a) (js_or (prop b "essNiprBreakfix") (vnum 0))
       else niprBreakfix a;
     siprBreakfix := js_add (siprBreakfix a) (js_or (prop b "essSiprBreakfix") (vnum 0));
     high := tick (is_text "HIGH" risk) (high a);
     med := tick (negb (is_text "HIGH" risk) && is_text "MED" risk) (med a);
     low := tick (negb (is_text "HIGH" risk) && negb (is_text "MED" risk)
                  && is_text "LOW" risk) (low a);
     exempt := tick (truthy (js_or (prop b "vramNiprScanExempt")
                                   (prop b "vramSiprScanExempt"))) (exempt a);
     nProd := if nipr then count_in (nProd a) (prop b "essNiprProductCompliance")
              else nProd a;
     nPol := if nipr then count_in (nPol a) (prop b "essNiprTruePolicy") else nPol a;
     nPolRaw := if nipr then count_in (nPolRaw a) (prop b "essNiprPolicyEnforced")
                else nPolRaw a;
     sProd := count_in (sProd a) (prop b "essSiprProductCompliance");
     sPol := count_in (sPol a) (prop b "essSiprTruePolicy");
     sPolRaw := count_in (sPolRaw a) (prop b "essSiprPolicyEnforced") |}.

Definition aggregate_group (g : group) : aggregate :=
  let a := fold_left add_boat (boats g) no_sums in
  {| isicName := prop (info g) "isic_name";
     isicShort := prop (info g) "isic_short";
     tycom := prop (info g) "tycom";
     boatCount := length (boats g);
     niprBreakfixSum := niprBreakfix a;
     siprBreakfixSum := siprBreakfix a;
     highRiskCount := high a;
     medRiskCount := med a;
     lowRiskCount := low a;
     scanExemptCount := exempt a;
     niprProdCompAvg := average (nProd a);
     niprPolEnfAvg := average (nPol a);
     niprPolRawAvg := average (nPolRaw a);
     siprProdCompAvg := average (sProd a);
     siprPolEnfAvg := average (sPol a);
     siprPolRawAvg := average (sPolRaw a) |}.

(** [aggregateByISIC(boats, settings)]; [isics] is [settings.isics], empty
    when the argument is left out.  The result is the pair [(csl, csp)]. *)
Definition aggregateByISIC (boats : list (gmap string value))
    (isics : list (gmap string value))
  : result (list aggregate * list aggregate) :=
  groups ← for_each (group_boat isics) boats [];
  let aggs := aggregate_group <$> Object_values groups in
  Ok (filter (fun a => is_text "CSL" (tycom a) = true) aggs,
      filter (fun a => is_text "CSP" (tycom a) = true) aggs).

(** [values.reduce((s, v) => s + v, 0)] *)
Definition total (values : list value) : value :=
  fold_left js_add values (vnum 0).

Definition calculateStats (boats : list (gmap string value)) : stats :=
  let risk b := prop b "riskLevel" in
  let nipr b := negb (truthy (prop b "isNmci")) in
  let vphValues :=
    boats ≫= fun b =>
      (if nipr b && not_null (prop b "vramNiprRaVph") then [prop b "vramNiprRaVph"] else [])
      ++ (if not_null (prop b "vramSiprRaVph") then [prop b "vramSiprRaVph"] else []) in
  let compValues :=
    boats ≫= fun b =>
      (if nipr b && not_null (prop b "essNiprProductCompliance")
       then [prop b "essNiprProductCompliance"] else [])
      ++ (if not_null (prop b "essSiprProductCompliance")
          then [prop b "essSiprProductCompliance"] else []) in
  {| totalBoats := length boats;
     stats_highRiskCount := fold_left (fun n b => tick (is_text "HIGH" (risk b)) n) boats O;
     stats_medRiskCount :=
       fold_left (fun n b => tick (negb (is_text "HIGH" (risk b))
                                   && is_text "MED" (risk b)) n) boats O;
     stats_lowRiskCount :=
       fold_left (fun n b => tick (negb (is_text "HIGH" (risk b))
                                   && negb (is_text "MED" (risk b))
                                   && is_text "LOW" (risk b)) n) boats O;
     totalBreakfix :=
       fold_left (fun s b =>
                    js_add s (js_add (if nipr b
                                      then js_or (prop b "essNiprBreakfix") (vnum 0)
                                      else vnum 0)
                                     (js_or (prop b "essSiprBreakfix") (vnum 0))))
                 boats (vnum 0);
     stats_scanExemptCount :=
       fold_left (fun n b => tick (truthy (js_or (prop b "vramNiprScanExempt")
                                                 (prop b "vramSiprScanExempt"))) n) boats O;
     avgVph :=
       if (0 <? length vphValues)%nat
       then num_div_count (ToNumber (total vphValues)) (length vphValues)
       else Fin 0;
     avgCompliance :=
       if (0 <? length compValues)%nat
       then Math_min_100 (num_div_count (ToNumber (total compValues)) (length compValues))
       else Fin 0 |}.

(** [b[field]] for a name chosen by the caller: an own property of the
    boat, or what the boat inherits from [Object.prototype] under that name
    (a function, or the prototype itself for [__proto__]), which is no
    [value]; [undefined] otherwise. *)
Inductive member : Type :=
| Own (v : value)
| Inherited (k : string).

Definition read (b : gmap string value) (field : string) : member :=
  match b !! field with
  | Some v => Own v
  | None => if inherited field then Inherited field else Own VUndef
  end.

Definition member_truthy (m : member) : bool :=
  match m with
  | Own v => truthy v
  | Inherited _ => true
  end.

(** [b[field] || 'Unknown'] as a property key: what is inherited is truthy,
    and its key is the text the engine gives it. *)
Definition bucket_key (field : string) (b : gmap string value) : string :=
  match read b field with
  | Own v => ToString (js_or v (VStr "Unknown"))
  | Inherited k => inherited_text k
  end.

(** The body of the loop of [groupBoatsBy]: [groups[key]] is an own array,
    an inherited method (which has no [push]), or [undefined]. *)
Definition bucket (field : string) (groups : gmap string (list (gmap string value)))
    (b : gmap string value) : result (gmap string (list (gmap string value))) :=
  let key := bucket_key field b in
  match groups !! key with
  | Some bs => Ok (<[key := bs ++ [b]]> groups)
  | None => if inherited key then Throw else Ok (<[key := [b]]> groups)
  end.

Definition groupBoatsBy (boats : list (gmap string value)) (field : string)
  : result (gmap string (list (gmap string value))) :=
  for_each (bucket field) boats ∅.

End Aggregation.

(** ** A concrete host for worked examples

    A small engine that agrees with JavaScript on the inputs the examples
    use: integers and doubles with a short decimal expansion (2.5, 3.5) are
    printed as JavaScript prints them, [toFixed] rounds the exact value
    half up, plain decimal numerals convert to the nearest double and
    [Infinity] to the infinity, and dates are read in the [YYYY-MM-DD] form
    (midnight UTC).  The theorems below hold for every host; the examples
    are evaluated on this one. *)

Module Engine.

Definition digit_chars : list ascii :=
  list_ascii_of_string "0123456789".

Definition digit_char (n : N) : ascii :=
  nth (N.to_nat (n mod 10)) digit_chars "0"%char.

Fixpoint digits_go (fuel : nat) (n : N) (acc : string) : string :=
  match fuel with
  | O => acc
  | S fuel' =>
      let acc' := String (digit_char n) acc in
      if (n <? 10)%N then acc' else digits_go fuel' (n / 10)%N acc'
  end.

(** The decimal digits of a natural number. *)
Definition digits (n : N) : string :=
  digits_go (S (N.to_nat (N.log2 n))) n "".

Fixpoint zeros (k : nat) : string :=
  match k with
  | O => ""
  | S k' => String "0" (zeros k')
  end.

(** [n / 10^d] written with exactly [d] digits after the point. *)
Definition point (n : N) (d : nat) : string :=
  let s := digits n in
  let s := zeros (S d - String.length s) +:+ s in
  let k := (String.length s - d)%nat in
  match d with
  | O => s
  | _ => substring 0 k s +:+ "." +:+ substring k d s
  end.

Fixpoint drop_trailing_zeros (s : string) : string :=
  match s with
  | EmptyString => EmptyString
  | String c s' =>
      match drop_trailing_zeros s' with
      | EmptyString => if Ascii.eqb c "0" then EmptyString else String c EmptyString
      | t => String c t
      end
  end.

Definition sign_of (q : Q) : string :=
  if Qltb q 0 then "-" else "".

(** The nearest integer to [|q| * 10^d], the larger one on a tie. *)
Definition scaled (q : Q) (d : nat) : N :=
  let p := 10 ^ Z.of_nat d in
  Z.to_N ((2 * Z.abs (Qnum q) * p + Zpos (Qden q)) / (2 * Zpos (Qden q))).

Definition toFixed (x : num) (d : nat) : string :=
  match x with
  | NaN => "NaN"
  | PosInf => "Infinity"
  | NegInf => "-Infinity"
  | Fin q => sign_of q +:+ point (scaled q d) d
  end.

Definition NumberToString (x : num) : string :=
  match x with
  | NaN => "NaN"
  | PosInf => "Infinity"
  | NegInf => "-Infinity"
  | Fin q =>
      let whole := Z.to_N (Z.abs (Qnum q) / Zpos (Qden q)) in
      let frac := Z.to_N (Z.abs (Qnum q) mod Zpos (Qden q)) in
      let fd := (Z.of_N frac * 10 ^ 20) / Zpos (Qden q) in
      let fs := digits (Z.to_N fd) in
      let fs := drop_trailing_zeros (zeros (20 - String.length fs) +:+ fs) in
      sign_of q +:+ digits whole +:+
      match fs with
      | EmptyString => ""
      | _ => "." +:+ fs
      end
  end.

(** Plain decimal numerals. *)
Definition decimal_char (c : ascii) : bool :=
  is_digit c || Ascii.eqb c "." || Ascii.eqb c "-" || Ascii.eqb c "+".

Definition digit_value (c : ascii) : Z := Z.of_nat (nat_of_ascii c) - 48.

(** Reads [digits] or [digits.digits]; [seen] counts the digits after the
    point once the point has been met. *)
Fixpoint read_decimal (s : string) (acc : Z) (seen : option nat) : option Q :=
  match s with
  | EmptyString =>
      Some (inject_Z acc / inject_Z (10 ^ Z.of_nat (default O seen)))%Q
  | String c s' =>
      if is_digit c
      then read_decimal s' (10 * acc + digit_value c) (S <$> seen)
      else if Ascii.eqb c "."
           then match seen with
                | None => read_decimal s' acc (Some O)
                | Some _ => None
                end
           else None
  end.

Definition read_signed (s : string) : option Q :=
  match s with
  | String "-" s' => Qopp <$> read_decimal s' 0 None
  | String "+" s' => read_decimal s' 0 None
  | _ => read_decimal s 0 None
  end.

Definition StringToNumber (s : string) : num :=
  if String.eqb s "Infinity" || String.eqb s "+Infinity" then PosInf
  else if String.eqb s "-Infinity" then NegInf
  else if all_chars decimal_char s && existsb is_digit (list_ascii_of_string s)
       then match read_signed s with
            | Some q => round_double q
            | None => NaN
            end
       else if String.eqb s "" then Fin 0 else NaN.

(** Days from 1970-01-01 to a date of the proleptic Gregorian calendar. *)
Definition days_from_civil (y m d : Z) : Z :=
  let y := if m <=? 2 then y - 1 else y in
  let era := y / 400 in
  let yoe := y - era * 400 in
  let doy := (153 * (if 2 <? m then m - 3 else m + 9) + 2) / 5 + d - 1 in
  let doe := yoe * 365 + yoe / 4 - yoe / 100 + doy in
  era * 146097 + doe - 719468.

Definition number_of (s : string) : option Z :=
  if all_chars is_digit s && negb (String.eqb s "")
  then Qnum <$> read_decimal s 0 None
  else None.

(** [YYYY-MM-DD] *)
Definition DateParse (s : string) : option Z :=
  if (String.length s =? 10)%nat
     && String.eqb (substring 4 1 s) "-" && String.eqb (substring 7 1 s) "-"
  then
    y ← number_of (substring 0 4 s);
    m ← number_of (substring 5 2 s);
    d ← number_of (substring 8 2 s);
    if (1 <=? m) && (m <=? 12) && (1 <=? d) && (d <=? 31)
    then Some (days_from_civil y m d * 86400000)
    else None
  else None.

(** The clock of the examples: 2024-06-15, 12:00 UTC. *)
Definition now : Z := days_from_civil 2024 6 15 * 86400000 + 43200000.

End Engine.

(** *** The example engine is a host *)

Lemma all_chars_app p a b :
  all_chars p (a +:+ b) = all_chars p a && all_chars p b.
Proof.
  unfold all_chars. induction a as [|c a IH]; simpl; [done|].
  rewrite IH. by rewrite andb_assoc.
Qed.

Lemma all_chars_substring p s : forall i n,
  all_chars p s = true -> all_chars p (substring i n s) = true.
Proof.
  unfold all_chars. induction s as [|c s IH]; intros i n Hs.
  - by destruct i, n.
  - simpl in Hs. apply andb_prop in Hs as [Hc Hs].
    destruct i as [|i]; destruct n as [|n]; simpl; auto.
    rewrite Hc. simpl. by apply IH.
Qed.

Lemma all_chars_weaken (p q : ascii -> bool) s :
  (forall c, p c = true -> q c = true) ->
  all_chars p s = true -> all_chars q s = true.
Proof.
  intros Hpq. unfold all_chars. rewrite !forallb_forall. auto.
Qed.

Module EngineFacts.
Import Engine.

Lemma digit_char_ok n : is_digit (digit_char n) = true.
Proof.
  unfold digit_char.
  destruct (nth_in_or_default (N.to_nat (n mod 10)) digit_chars "0"%char) as [Hin | ->];
    [|reflexivity].
  revert Hin. generalize (nth (N.to_nat (n mod 10)) digit_chars "0"%char).
  intros c Hc. simpl in Hc. by repeat destruct Hc as [<- | Hc].
Qed.

Lemma digits_go_chars fuel : forall n acc,
  all_chars is_digit acc = true -> all_chars is_digit (digits_go fuel n acc) = true.
Proof.
  induction fuel as [|fuel IH]; intros n acc Hacc; simpl; [done|].
  assert (all_chars is_digit (String (digit_char n) acc) = true) as Hacc'.
  { unfold all_chars. simpl. rewrite digit_char_ok. exact Hacc. }
  destruct (n <? 10)%N; auto.
Qed.

Lemma digits_chars n : all_chars is_digit (digits n) = true.
Proof. apply digits_go_chars. reflexivity. Qed.

Lemma zeros_chars k : all_chars is_digit (zeros k) = true.
Proof. induction k; [done|]. exact IHk. Qed.

Lemma drop_trailing_zeros_chars s :
  all_chars is_digit s = true -> all_chars is_digit (drop_trailing_zeros s) = true.
Proof.
  unfold all_chars. induction s as [|c s IH]; [done|]. simpl.
  intros [Hc Hs]%andb_prop. specialize (IH Hs).
  destruct (drop_trailing_zeros s) as [|c' t].
  - destruct (Ascii.eqb c "0"); simpl; [done|]. by rewrite Hc.
  - simpl in *. by rewrite Hc, IH.
Qed.

Lemma digit_number_char c : is_digit c = true -> number_char c = true.
Proof. unfold number_char. by intros ->. Qed.

Lemma sign_of_chars q : all_chars number_char (sign_of q) = true.
Proof. unfold sign_of. by destruct (Qltb q 0). Qed.

Lemma point_chars n d : all_chars number_char (point n d) = true.
Proof.
  unfold point.
  assert (all_chars number_char
            (zeros (S d - String.length (digits n)) +:+ digits n) = true) as Hs.
  { rewrite all_chars_app.
    rewrite (all_chars_weaken _ _ _ digit_number_char (zeros_chars _)).
    by rewrite (all_chars_weaken _ _ _ digit_number_char (digits_chars _)). }
  destruct d; [done|].
  rewrite !all_chars_app, !all_chars_substring by done. done.
Qed.

Lemma toFixed_chars x d : all_chars number_char (toFixed x d) = true.
Proof.
  destruct x; try reflexivity. simpl.
  by rewrite all_chars_app, sign_of_chars, point_chars.
Qed.

Lemma NumberToString_chars x : all_chars number_char (NumberToString x) = true.
Proof.
  destruct x as [| | |q]; try reflexivity. simpl.
  rewrite !all_chars_app, sign_of_chars.
  rewrite (all_chars_weaken _ _ _ digit_number_char (digits_chars _)). simpl.
  match goal with |- context [drop_trailing_zeros ?s] =>
    assert (all_chars is_digit (drop_trailing_zeros s) = true) as Hd
  end.
  { apply drop_trailing_zeros_chars.
    by rewrite all_chars_app, zeros_chars, digits_chars. }
  destruct (drop_trailing_zeros _); [done|].
  rewrite all_chars_app. simpl.
  by rewrite (all_chars_weaken _ _ _ digit_number_char Hd).
Qed.

Lemma decimal_literal_char c : decimal_char c = true -> literal_char c = true.
Proof.
  unfold decimal_char, literal_char.
  destruct (is_digit c); [done|]. simpl.
  intros [[->%Ascii.eqb_eq | ->%Ascii.eqb_eq]%orb_prop | ->%Ascii.eqb_eq]%orb_prop;
    reflexivity.
Qed.

Lemma StringToNumber_chars s :
  StringToNumber s <> NaN -> all_chars literal_char s = true.
Proof.
  unfold StringToNumber.
  destruct (String.eqb s "Infinity" || String.eqb s "+Infinity") eqn:Hinf.
  { intros _. apply orb_prop in Hinf as [->%String.eqb_eq | ->%String.eqb_eq];
      reflexivity. }
  destruct (String.eqb s "-Infinity") eqn:Hneg.
  { intros _. apply String.eqb_eq in Hneg as ->. reflexivity. }
  destruct (all_chars decimal_char s) eqn:Hdec; simpl.
  - intros _. eapply all_chars_weaken; [apply decimal_literal_char | done].
  - destruct (String.eqb s "") eqn:He; [|done].
    apply String.eqb_eq in He as ->. done.
Qed.

End EngineFacts.

#[global] Instance engine : Host := {|
  StringToNumber := Engine.StringToNumber;
  NumberToString := Engine.NumberToString;
  toFixed := Engine.toFixed;
  DateParse := Engine.DateParse;
  now := Engine.now;
  NumberToString_chars := EngineFacts.NumberToString_chars;
  toFixed_chars := EngineFacts.toFixed_chars;
  StringToNumber_chars := EngineFacts.StringToNumber_chars
|}.

(** ** dataModels.js: the factories used by the examples

    The array- and object-valued properties ([riskReasons], [overrides],
    [customFields]), which none of the functions above reads, are left out.
    [overrides ∪ base] is the object spread [{ ...base, ...overrides }]. *)

Definition createBoatData (name fullName isic tycom : string) (isNmci : bool)
  : gmap string value :=
  list_to_map [
    ("boatName", VStr name); ("boatFullName", VStr fullName);
    ("isic", VStr isic); ("tycom", VStr tycom); ("isNmci", VBool isNmci);
    ("essNiprAssets", VNull); ("essNiprBreakfix", VNull);
    ("essNiprProductCompliance", VNull); ("essNiprPolicyEnforced", VNull);
    ("essNiprTruePolicy", VNull);
    ("essSiprAssets", VNull); ("essSiprBreakfix", VNull);
    ("essSiprProductCompliance", VNull); ("essSiprPolicyEnforced", VNull);
    ("essSiprTruePolicy", VNull);
    ("vramNiprAssets", VNull); ("vramNiprScanDate", VNull); ("vramNiprRaVph", VNull);
    ("vramNiprRaCrit", VNull); ("vramNiprScanIntegrity", VNull);
    ("vramNiprScanPercent", VNull); ("vramNiprRaHigh", VNull);
    ("vramNiprScanExempt", VBool false);
    ("vramSiprAssets", VNull); ("vramSiprScanDate", VNull); ("vramSiprRaVph", VNull);
    ("vramSiprRaCrit", VNull); ("vramSiprScanIntegrity", VNull);
    ("vramSiprScanPercent", VNull); ("vramSiprRaHigh", VNull);
    ("vramSiprScanExempt", VBool false);
    ("tamPastDue", VNull); ("tamExtensions", VNull);
    ("riskLevel", VStr "LOW"); ("notes", VStr "")
  ].

(** [recentDate] is five days before the clock of the example engine. *)
Definition createHealthyBoat (overrides : gmap string value) : gmap string value :=
  let recentDate := VStr "2024-06-10" in
  overrides ∪
  list_to_map [
    ("essNiprAssets", vnum 100); ("essNiprBreakfix", vnum 0);
    ("essNiprProductCompliance", vnum 98); ("essNiprPolicyEnforced", vnum 98);
    ("essNiprTruePolicy", double (9604#100));
    ("essSiprAssets", vnum 50); ("essSiprBreakfix", vnum 0);
    ("essSiprProductCompliance", vnum 99); ("essSiprPolicyEnforced", vnum 99);
    ("essSiprTruePolicy", double (9801#100));
    ("vramNiprAssets", vnum 100); ("vramNiprScanDate", recentDate);
    ("vramNiprRaVph", vnum (3#2)); ("vramNiprRaCrit", vnum 0);
    ("vramNiprScanIntegrity", vnum 95); ("vramNiprScanPercent", vnum 98);
    ("vramNiprRaHigh", vnum 2); ("vramNiprScanExempt", VBool false);
    ("vramSiprAssets", vnum 50); ("vramSiprScanDate", recentDate);
    ("vramSiprRaVph", double (6#5)); ("vramSiprRaCrit", vnum 0);
    ("vramSiprScanIntegrity", vnum 97); ("vramSiprScanPercent", vnum 99);
    ("vramSiprRaHigh", vnum 1); ("vramSiprScanExempt", VBool false);
    ("tamPastDue", vnum 2); ("tamExtensions", vnum 1)
  ] ∪ createBoatData "SSN-001" "Healthy Boat" "COMSUBRON 1" "CSL" false.

Definition createNoVramBoat (overrides : gmap string value) : gmap string value :=
  overrides ∪
  list_to_map [
    ("essNiprAssets", vnum 100); ("essNiprBreakfix", vnum 0);
    ("essNiprProductCompliance", vnum 98); ("essNiprPolicyEnforced", vnum 98);
    ("essNiprTruePolicy", double (9604#100));
    ("essSiprAssets", vnum 50); ("essSiprBreakfix", vnum 0);
    ("essSiprProductCompliance", vnum 99); ("essSiprPolicyEnforced", vnum 99);
    ("essSiprTruePolicy", double (9801#100));
    ("vramNiprAssets", VNull); ("vramNiprScanDate", VNull); ("vramNiprRaVph", VNull);
    ("vramSiprAssets", VNull); ("vramSiprScanDate", VNull); ("vramSiprRaVph", VNull)
  ] ∪ createBoatData "SSN-003" "No VRAM Boat" "COMSUBRON 1" "CSL" false.

Definition createNmciBoat (overrides : gmap string value) : gmap string value :=
  createHealthyBoat
    (overrides ∪
     list_to_map [ ("boatName", VStr "SSN-010"); ("boatFullName", VStr "NMCI Boat");
                   ("isNmci", VBool true) ]).

(** Healthy boats with a SIPR product compliance of their own, or with
    none. *)
Definition complying (q : Q) : gmap string value :=
  createHealthyBoat {[ "essSiprProductCompliance" := vnum q ]}.

Definition silent : gmap string value :=
  delete "essSiprProductCompliance" (createHealthyBoat ∅).

(** Boats whose property [k] is falsy in every possible way, and one whose
    [k] is the string "0"; the buckets [groupBoatsBy] makes of them. *)
Definition boatsWithFalsyKeys : list (gmap string value) :=
  [ {[ "id" := vint 1; "k" := vnum 0 ]};
    {[ "id" := vint 2; "k" := VStr "" ]};
    {[ "id" := vint 3; "k" := VBool false ]};
    {[ "id" := vint 4; "k" := VNum NaN ]};
    {[ "id" := vint 5; "k" := VNull ]};
    {[ "id" := vint 6 ]};
    {[ "id" := vint 7; "k" := VStr "0" ]} ].

Definition bucketsOfFalsyKeys : gmap string (list (gmap string value)) :=
  list_to_map
    [ ("Unknown", [ {[ "id" := vint 1; "k" := vnum 0 ]};
                    {[ "id" := vint 2; "k" := VStr "" ]};
                    {[ "id" := vint 3; "k" := VBool false ]};
                    {[ "id" := vint 4; "k" := VNum NaN ]};
                    {[ "id" := vint 5; "k" := VNull ]};
                    {[ "id" := vint 6 ]} ]);
      ("0", [ {[ "id" := vint 7; "k" := VStr "0" ]} ]) ].

(** ** Notions used in the statements *)

(** The reasons of the checks that fire, in order: what a loop over the
    checks collects. *)
Fixpoint fired (cs : list check) : result (list string) :=
  match cs with
  | [] => Ok []
  | c :: cs' =>
      if c.1 then r ← c.2; rs ← fired cs'; Ok (r :: rs) else fired cs'
  end.

(** Whether some check of the list fires. *)
Definition any_fires (cs : list check) : bool := existsb fst cs.

(** The configuration [calculateRisk] reads its thresholds from. *)
Definition config (thresholds : config_arg) : gmap string value :=
  match thresholds with
  | CObj t => t
  | CUndef | CNull => defaultThresholds
  end.

Definition tier_rank (x : tier) : nat :=
  match x with LOW => 0 | MED => 1 | HIGH => 2 end.

(** A character other than [c]. *)
Definition other_than (c : ascii) : ascii -> bool :=
  fun x => negb (Ascii.eqb x c).

Definition is_number (v : value) : bool :=
  match v with VNum _ => true | _ => false end.

(** Every threshold that the configuration holds is a number. *)
Definition numeric_config (t : gmap string value) : bool :=
  forallb (fun kv : string * value => is_number kv.2) (map_to_list t).

(** The position of the "No VRAM data" trigger among the HIGH triggers. *)
Definition telemetry_trigger : nat := 2.

(** The properties of the network that is left out for an NMCI boat, the
    scan-exemption flag apart: [essNipr...] and [vramNipr...]. *)
Definition nipr_field (k : string) : bool :=
  (String.prefix "essNipr" k || String.prefix "vramNipr" k)
  && negb (String.eqb k "vramNiprScanExempt").

(** Two checks that fire together, and then with the same reason. *)
Definition same_check (c c' : check) : Prop :=
  c.1 = c'.1 /\ (c.1 = true -> c.2 = c'.2).

(** An NMCI boat with no SIPR VRAM data. *)
Definition nmciWithoutSiprVram : gmap string value :=
  createNmciBoat (list_to_map [ ("vramSiprAssets", VNull);
                                ("vramSiprScanDate", VNull);
                                ("vramSiprRaVph", VNull) ]).

(** [c'] fires only if [c] does, and with the same reason. *)
Definition weaker (c' c : check) : Prop :=
  (c'.1 = true -> c.1 = true) /\ c'.2 = c.2.

(** The threshold knobs of [calculateRisk]: upper bounds (a value above the
    bound is a fault), lower bounds (a value below it is a fault), the
    lower bounds that 0 switches off, and the toggles of the LOW stage. *)
Definition upper_knobs : list string :=
  [ "auto_high_ra_vph"; "auto_high_scan_age_days"; "high_tam_past_due";
    "med_ra_vph"; "med_scan_age_days"; "med_tam_past_due";
    "low_vph"; "low_scan_age_days"; "low_tam_past_due" ].

Definition lower_knobs : list string :=
  [ "high_product_compliance"; "high_ess_compliance"; "high_raw_policy_compliance";
    "med_ess_compliance"; "med_true_policy_compliance"; "med_raw_policy_compliance";
    "low_product_compliance"; "low_true_policy_compliance";
    "low_raw_policy_compliance" ].

Definition zero_disables : list string :=
  [ "high_ess_compliance"; "high_raw_policy_compliance";
    "med_true_policy_compliance"; "med_raw_policy_compliance" ].

Definition toggles : list string :=
  [ "low_true_policy_compliance_enabled"; "low_raw_policy_compliance_enabled";
    "low_tam_past_due_enabled" ].

Definition mem (k : string) (l : list string) : bool :=
  existsb (String.eqb k) l.

(** A knob value that the lookup [t.k || fallback] keeps: a number other
    than 0 and NaN. *)
Definition in_use (v : value) : bool := is_number v && truthy v.

Definition is_zero (v : value) : bool :=
  match v with VNum (Fin q) => Qeq_bool q 0 | _ => false end.

(** [a <= b] on numbers. *)
Definition number_le (a b : value) : bool :=
  match a, b with
  | VNum x, VNum y =>
      match num_lt y x with Some false => true | _ => false end
  | _, _ => false
  end.

(** Changing knob [k] from [old] to [new] relaxes it: an upper bound in use
    is raised, a lower bound in use is lowered, a lower bound that 0
    switches off is set to 0, a toggle is set to 0. *)
Definition relaxes (k : string) (old new : value) : bool :=
  (mem k upper_knobs && in_use old && in_use new && number_le old new)
  || (mem k lower_knobs && in_use old && in_use new && number_le new old)
  || (mem k zero_disables && is_zero new)
  || (mem k toggles && is_zero new).

(** The six compliance-style properties of a boat, and the data model of
    the specification for them: a percentage is absent ([null]) or a finite
    number. *)
Definition compliance_fields : list string :=
  [ "essNiprProductCompliance"; "essNiprTruePolicy"; "essNiprPolicyEnforced";
    "essSiprProductCompliance"; "essSiprTruePolicy"; "essSiprPolicyEnforced" ].

Definition percentage (v : value) : bool :=
  match v with
  | VNull | VNum (Fin _) => true
  | _ => false
  end.

Definition typed_percentages (b : gmap string value) : bool :=
  forallb (fun f => percentage (prop b f)) compliance_fields.

(** The specification's words: the values that the boats of a group report
    for a metric, leaving out the boats for which the network of the metric
    is excluded; their arithmetic mean. *)
Definition reported (field : string) (excludable : bool)
    (bs : list (gmap string value)) : list Q :=
  bs ≫= fun b =>
    if excludable && truthy (prop b "isNmci") then []
    else match prop b field with
         | VNum (Fin q) => [q]
         | _ => []
         end.

Definition arithmetic_mean (qs : list Q) : Q :=
  (fold_right Qplus 0 qs / inject_Z (Z.of_nat (length qs)))%Q.

(** The mean as the code computes it: the sum of the values, from the
    left, and its quotient by their number, each of them rounded to a
    double; 0 when there is no value.  [aggregateByISIC] caps it at 100. *)
Definition double_sum (qs : list Q) : num :=
  fold_left (fun s q => num_add s (Fin q)) qs (Fin 0).

Definition double_mean (qs : list Q) : num :=
  match qs with
  | [] => Fin 0
  | _ => num_div_count (double_sum qs) (length qs)
  end.

Definition capped_double_mean (qs : list Q) : num :=
  Math_min_100 (double_mean qs).

(** No sum met on the way is rounded: each is a double. *)
Definition is_double (q : Q) : bool :=
  match round_double q with
  | Fin q' => Qeq_bool q' q
  | _ => false
  end.

Fixpoint exact_sums_from (s : Q) (qs : list Q) : bool :=
  match qs with
  | [] => true
  | q :: qs' => is_double (s + q) && exact_sums_from (s + q) qs'
  end.

Definition exact_sums (qs : list Q) : bool := exact_sums_from 0 qs.

(** A whole number from 0 to 100. *)
Definition whole_percentage (q : Q) : bool :=
  (Qden (Qred q) =? 1)%positive && (0 <=? Qnum (Qred q)) && (Qnum (Qred q) <=? 100).

(** The properties that [calculateRisk] prints with [toFixed], and the
    values of them that have the method or never reach it: numbers (NaN and
    the infinities included), [null], [undefined]. *)
Definition fixed_fields : list string :=
  [ "essNiprProductCompliance"; "essSiprProductCompliance";
    "vramNiprRaVph"; "vramSiprRaVph";
    "essNiprTruePolicy"; "essSiprTruePolicy";
    "essNiprPolicyEnforced"; "essSiprPolicyEnforced" ].

Definition number_or_absent (v : value) : bool :=
  match v with
  | VUndef | VNull | VNum _ => true
  | _ => false
  end.

Definition numeric_fields (b : gmap string value) : bool :=
  forallb (fun f => number_or_absent (prop b f)) fixed_fields.

(** The properties for which a value that is not reported only switches
    checks off: the percentages and the breakfix counts. *)
Definition skippable_fields : list string :=
  [ "essNiprBreakfix"; "essSiprBreakfix";
    "essNiprProductCompliance"; "essSiprProductCompliance";
    "essNiprTruePolicy"; "essSiprTruePolicy";
    "essNiprPolicyEnforced"; "essSiprPolicyEnforced" ].

(** [undefined] (a property that is absent) or NaN. *)
Definition absent_or_nan (v : value) : bool :=
  match v with
  | VUndef | VNum NaN => true
  | _ => false
  end.

(** A group key that is a string, and not the name of a property inherited
    from [Object.prototype]. *)
Definition plain_isic (b : gmap string value) : bool :=
  match prop b "isic" with
  | VStr s => negb (inherited s)
  | _ => false
  end.

Section Notions.
Context `{Host} `{Text}.

(** [calculateRisk] in four cases: a HIGH trigger fired; two counted
    conditions hold; a LOW requirement fails; none of these. *)
Definition stages (boat : gmap string value) (t : gmap string value) : result outcome :=
  let l := read_locals boat in
  hs ← fired (highChecks boat t l);
  if any_fires (highChecks boat t l)
  then Ok (exemptStage boat l {| level := HIGH; reasons := hs |})
  else
    ms ← fired (medChecks boat t l);
    if (2 <=? length ms)%nat then Ok {| level := MED; reasons := ms |}
    else if any_fires (lowChecks boat t l)
         then ls ← fired (lowChecks boat t l); Ok {| level := MED; reasons := ls |}
         else Ok {| level := LOW; reasons := [] |}.

(** The key [aggregateByISIC] groups a boat under. *)
Definition isic_key (b : gmap string value) : string :=
  ToString (prop b "isic").

(** The number a value is compared as, when the other side is a number. *)
Definition as_number (v : value) : num := ToNumber (ToPrimitive v).

(** Every boat of a bucket has the key of the bucket. *)
Definition sorted_out (field : string)
    (groups : gmap string (list (gmap string value))) : Prop :=
  forall k bs b, groups !! k = Some bs -> b ∈ bs -> bucket_key field b = k.

Definition placed (field : string)
    (groups : gmap string (list (gmap string value))) (b : gmap string value) : Prop :=
  exists bs, groups !! bucket_key field b = Some bs /\ b ∈ bs.

(** The groups after the boats [seen] have been added: one group for each
    key met, holding the boats of that key in their order. *)
Definition grouped (seen : list (gmap string value))
    (groups : list (string * group)) : Prop :=
  NoDup groups.*1
  /\ (forall k g, (k, g) ∈ groups ->
        boats g = filter (fun b => isic_key b = k) seen /\ boats g <> [])
  /\ (forall b, b ∈ seen -> isic_key b ∈ groups.*1).

(** What one boat adds to a running sum and count. *)
Definition count_boat (field : string) (excludable : bool)
    (acc : value * nat) (b : gmap string value) : value * nat :=
  if excludable && truthy (prop b "isNmci") then acc
  else count_in acc (prop b field).

(** The six averages of an aggregate are those of the boats [bs]. *)
Definition averages_of (a : aggregate) (bs : list (gmap string value)) : Prop :=
  niprProdCompAvg a = capped_double_mean (reported "essNiprProductCompliance" true bs)
  /\ niprPolEnfAvg a = capped_double_mean (reported "essNiprTruePolicy" true bs)
  /\ niprPolRawAvg a = capped_double_mean (reported "essNiprPolicyEnforced" true bs)
  /\ siprProdCompAvg a = capped_double_mean (reported "essSiprProductCompliance" false bs)
  /\ siprPolEnfAvg a = capped_double_mean (reported "essSiprTruePolicy" false bs)
  /\ siprPolRawAvg a = capped_double_mean (reported "essSiprPolicyEnforced" false bs).

End Notions.

(** * The rest of the code

    What the properties of the specification leave out: the other functions
    of [utils.js], [getCustomFields] of [dataModels.js], [encoding.js] and
    [dynamicLegend.js], and the notions used to state what they do. *)

(** ** [calculateRisk]: knobs and reasons *)

(** The thresholds read by the HIGH stage of [calculateRisk]. *)
Definition high_knobs : list string :=
  [ "high_product_compliance"; "auto_high_ra_vph"; "auto_high_scan_age_days";
    "high_ess_compliance"; "high_raw_policy_compliance"; "high_tam_past_due" ].

(** All the thresholds [calculateRisk] reads. *)
Definition risk_knobs : list string := upper_knobs ++ lower_knobs ++ toggles.

(** The reason of a check on a field starts with the label of a network or
    of the TAMs. *)
Definition labelled (s : string) : bool :=
  String.prefix "NIPR " s || String.prefix "SIPR " s || String.prefix "TAMs: " s.

(** [calculateAllRisks] (riskCalculator.js).  The tier is stored in the
    boat as the string [calculateRisk] returns; the array of reasons, which
    a [value] cannot hold, is kept beside the other properties.  The boats
    are updated in place: [calculateRisk] reads neither of the two
    properties, so that a boat listed twice is given the same values
    twice. *)
Definition tier_text (x : tier) : string :=
  match x with LOW => "LOW" | MED => "MED" | HIGH => "HIGH" end.

#[global] Instance tier_eq_dec : EqDecision tier.
Proof. solve_decision. Defined.

Record scored : Type := {
  fields : gmap string value;
  riskReasons : list string
}.

Section AllRisks.
Context `{Host}.

(** The body of the loop: [b.riskLevel = level; b.riskReasons = reasons]. *)
Definition score (thresholds : config_arg) (acc : list scored)
    (b : gmap string value) : result (list scored) :=
  r ← calculateRisk b thresholds;
  Ok (acc ++ [ {| fields := <["riskLevel" := VStr (tier_text (level r))]> b;
                   riskReasons := reasons r |} ]).

Definition calculateAllRisks (boats : list (gmap string value))
    (thresholds : config_arg) : result (list scored) :=
  let thresholds := match thresholds with
                    | CUndef => CObj defaultThresholds
                    | given => given
                    end in
  for_each (score thresholds) boats [].

(** What [calculateAllRisks] leaves in a boat. *)
Definition scored_as (thresholds : config_arg) (b : gmap string value) (s : scored)
  : Prop :=
  exists r, calculateRisk b thresholds = Ok r
            /\ fields s = <["riskLevel" := VStr (tier_text (level r))]> b
            /\ riskReasons s = reasons r.

End AllRisks.

(** A boat whose [riskLevel] is one of the three tiers. *)
Definition rated (b : gmap string value) : bool :=
  is_text "HIGH" (prop b "riskLevel") || is_text "MED" (prop b "riskLevel")
  || is_text "LOW" (prop b "riskLevel").

(** A boat or a registry entry of one of the two TYCOMs [aggregateByISIC]
    returns. *)
Definition fleet_tycom (o : gmap string value) : bool :=
  is_text "CSL" (prop o "tycom") || is_text "CSP" (prop o "tycom").

(** The values the boats report for a metric on the two networks, the NIPR
    value of an NMCI boat being left out. *)
Definition readings (nipr sipr : string) (bs : list (gmap string value)) : list Q :=
  bs ≫= fun b => reported nipr true [b] ++ reported sipr false [b].

(** The VPH and product-compliance values of a boat are [null] or finite
    numbers. *)
Definition typed_readings (b : gmap string value) : bool :=
  forallb (fun f => percentage (prop b f))
    [ "vramNiprRaVph"; "vramSiprRaVph";
      "essNiprProductCompliance"; "essSiprProductCompliance" ].

(** The number of boats held by the groups. *)
Definition held (groups : list (string * group)) : nat :=
  sum_list_with (fun kg : string * group => length (boats kg.2)) groups.

(** The tier [calculateRisk] gives a boat, if it returns. *)
Definition tier_of `{Host} (thresholds : config_arg) (b : gmap string value)
  : option tier :=
  match calculateRisk b thresholds with
  | Ok r => Some (level r)
  | Throw => None
  end.

(** The bucket of key [k] after the boats [bs] have been added to a bucket
    that held [old]. *)
Definition filled `{Host} `{Text} (field k : string) (old : option (list (gmap string value)))
    (bs : list (gmap string value)) : option (list (gmap string value)) :=
  match old, filter (fun b => bucket_key field b = k) bs with
  | None, [] => None
  | None, new => Some new
  | Some seen, new => Some (seen ++ new)
  end.

(** ** dataModels.js: [standardFields] and [getCustomFields] *)

Definition standardFields : list (string * list string) :=
  [ ("vram", [ "siteName"; "scanDate"; "assets"; "raVph"; "raCrit"; "raHigh";
               "scanIntegrity"; "scanPercent"; "scanExempt" ]);
    ("ess", [ "shipName"; "isic"; "productCompliance"; "policyEnforced";
              "truePolicy"; "breakfix"; "assets" ]);
    ("tam", [ "boatName"; "pastDue"; "extensions" ]) ].

(** [names.includes(v)] for an array of strings. *)
Definition Array_includes (names : list string) (v : value) : bool :=
  match v with
  | VStr s => existsb (String.eqb s) names
  | _ => false
  end.

(** The callback of the filter:
    [!standardFields[type].includes(s.field) && s.visible !== false].
    [standardFields[type]] is one of the three arrays, or a value that has
    no [includes] ([undefined], or what [Object.prototype] holds under that
    name). *)
Definition is_custom (type : string) (s : gmap string value) : result bool :=
  match own type standardFields with
  | Some names =>
      Ok (negb (Array_includes names (prop s "field"))
          && negb (strict_eq (prop s "visible") (VBool false)))
  | None => Throw
  end.

Definition keep_custom (type : string) (kept : list (gmap string value))
    (s : gmap string value) : result (list (gmap string value)) :=
  c ← is_custom type s; Ok (if c : bool then kept ++ [s] else kept).

(** [schemaArr] is [None] for [null] and [undefined], an array of objects
    otherwise. *)
Definition getCustomFields (schemaArr : option (list (gmap string value)))
    (type : string) : result (list (gmap string value)) :=
  match schemaArr with
  | None => Ok []
  | Some schema => for_each (keep_custom type) schema []
  end.

(** ** utils.js: [normalizeBoatName], [parseNumber], [parsePercent], [fmtPct]

    [String.prototype.trim], [toLowerCase], [toUpperCase] and [parseFloat]
    are those of the class [Text].  Where a text is read character by
    character (the regular expression of [normalizeBoatName]), a character
    stands for one code unit, a code unit above 255 being outside the
    model. *)

(** [\w], [\s] (among the code units below 256) and [\d] is [is_digit]. *)
Definition word_char (c : ascii) : bool :=
  let n := nat_of_ascii c in
  is_digit c || ((65 <=? n)%nat && (n <=? 90)%nat)
  || ((97 <=? n)%nat && (n <=? 122)%nat) || (n =? 95)%nat.

Definition space_char (c : ascii) : bool :=
  let n := nat_of_ascii c in
  ((9 <=? n)%nat && (n <=? 13)%nat) || (n =? 32)%nat || (n =? 160)%nat.

(** What follows the prefix [p] of [s], if [s] starts with [p]. *)
Fixpoint strip (p s : string) : option string :=
  match p, s with
  | EmptyString, _ => Some s
  | String a p', String b s' => if Ascii.eqb a b then strip p' s' else None
  | String _ _, EmptyString => None
  end.

(** [\s*] and [\d+]: the longest run of spaces is dropped, the longest run
    of digits is split off. *)
Fixpoint skip_spaces (s : string) : string :=
  match s with
  | String c s' => if space_char c then skip_spaces s' else s
  | EmptyString => EmptyString
  end.

Fixpoint digits_of (s : string) : string * string :=
  match s with
  | String c s' =>
      if is_digit c then let (d, rest) := digits_of s' in (String c d, rest)
      else (EmptyString, s)
  | EmptyString => (EmptyString, EmptyString)
  end.

(** A match of [/\b(SSN|SSBN|SSGN)\s*[-]?\s*(\d+)\b/] that starts at the
    head of [s], which follows a word character or not: the two groups.
    The three types exclude one another, the spaces, the dash and the
    digits are disjoint classes, and a run of digits cut short is followed
    by a digit, so that the greedy reading is the only one that can
    match. *)
Definition hull_at (after_word : bool) (s : string) : option (string * string) :=
  if after_word then None
  else
    let type :=
      match strip "SSN" s with
      | Some rest => Some ("SSN", rest)
      | None =>
          match strip "SSBN" s with
          | Some rest => Some ("SSBN", rest)
          | None =>
              match strip "SSGN" s with
              | Some rest => Some ("SSGN", rest)
              | None => None
              end
          end
      end in
    match type with
    | None => None
    | Some (type, rest) =>
        let rest := skip_spaces rest in
        let rest := match rest with
                    | String "-" rest' => rest'
                    | _ => rest
                    end in
        let (digits, rest) := digits_of (skip_spaces rest) in
        let at_boundary := match rest with
                           | String c _ => negb (word_char c)
                           | EmptyString => true
                           end in
        if negb (String.eqb digits "") && at_boundary then Some (type, digits)
        else None
    end.

(** [upper.match(...)]: the leftmost match. *)
Fixpoint find_hull (after_word : bool) (s : string) : option (string * string) :=
  match hull_at after_word s with
  | Some groups => Some groups
  | None =>
      match s with
      | String c s' => find_hull (word_char c) s'
      | EmptyString => None
      end
  end.

(** [s.replace(/[%,]/g, '')] and [s.replace('%', '')] *)
Fixpoint remove_percents_and_commas (s : string) : string :=
  match s with
  | EmptyString => EmptyString
  | String c s' =>
      if Ascii.eqb c "%" || Ascii.eqb c ","
      then remove_percents_and_commas s'
      else String c (remove_percents_and_commas s')
  end.

Fixpoint remove_first_percent (s : string) : string :=
  match s with
  | EmptyString => EmptyString
  | String c s' =>
      if Ascii.eqb c "%" then s' else String c (remove_first_percent s')
  end.

(** [isNaN(num) ? null : num] *)
Definition null_if_NaN (n : num) : value :=
  match n with
  | NaN => VNull
  | _ => VNum n
  end.

Section Utils.
Context `{Host} `{Text}.

Definition normalizeBoatName (name : value) : string :=
  if null_or_undefined name || is_text "" name then ""
  else
    let strName := ToString name in
    if String.eqb strName "" || String.eqb (trim strName) "" then ""
    else
      let upper := trim (toUpperCase strName) in
      match find_hull false upper with
      | Some (type, digits) => type +:+ "-" +:+ digits
      | None => upper
      end.

Definition parseNumber (val : value) : value :=
  if null_or_undefined val || is_text "" val then VNull
  else match val with
       | VNum n => null_if_NaN n
       | _ =>
           let strVal := toLowerCase (trim (ToString val)) in
           if String.eqb strVal "none" then vnum 0
           else null_if_NaN (parseFloat (remove_percents_and_commas strVal))
       end.

Definition parsePercent (val : value) : value :=
  if null_or_undefined val || is_text "" val then VNull
  else
    let strVal := toLowerCase (trim (ToString val)) in
    if String.eqb strVal "none" then vnum 0
    else null_if_NaN (parseFloat (remove_first_percent strVal)).

(** [v == null ? '-' : Math.min(100, v).toFixed(1) + '%'] *)
Definition fmtPct (v : value) : string :=
  if null_or_undefined v then "-"
  else toFixed (Math_min_100 (ToNumber v)) 1 +:+ "%".

End Utils.

(** ** encoding.js

    In this module a character of a string stands for one code unit: the
    strings are JSON texts, hashes and Base64 texts (a code unit above 255
    is outside the model). *)

(** The 32-bit integer a number is turned into by a bitwise operator. *)
Definition ToInt32 (x : Z) : Z := (x + 2 ^ 31) mod 2 ^ 32 - 2 ^ 31.

(** [a << n] and [a & b] *)
Definition shl32 (a n : Z) : Z := ToInt32 (Z.shiftl (ToInt32 a) n).
Definition and32 (a b : Z) : Z := ToInt32 (Z.land (ToInt32 a) (ToInt32 b)).

Definition charCode (c : ascii) : Z := Z.of_N (N_of_ascii c).

(** The body of the loop: [h = ((h << 5) - h) + c; h &= h]. *)
Definition hash_step (h : Z) (c : ascii) : Z :=
  let h := (shl32 h 5 - h) + charCode c in
  and32 h h.

Definition hash_of (str : string) : Z :=
  fold_left hash_step (list_ascii_of_string str) 0.

(** [n.toString(16)] for an integer [n >= 0]. *)
Definition hex_digit (d : Z) : ascii :=
  nth (Z.to_nat d) (list_ascii_of_string "0123456789abcdef") "0"%char.

Fixpoint hex_go (fuel : nat) (n : Z) (acc : string) : string :=
  match fuel with
  | O => acc
  | S fuel' =>
      let acc' := String (hex_digit (n mod 16)) acc in
      if n / 16 =? 0 then acc' else hex_go fuel' (n / 16) acc'
  end.

Definition toString16 (n : Z) : string :=
  hex_go (S (Z.to_nat (Z.log2 n))) n "".

(** [Math.abs(h).toString(16)] after the loop *)
Definition calculateHash (str : string) : string :=
  toString16 (Z.abs (hash_of str)).

(** [str.split(':')] *)
Fixpoint split_colon (s : string) : list string :=
  match s with
  | EmptyString => [EmptyString]
  | String c s' =>
      if Ascii.eqb c ":" then EmptyString :: split_colon s'
      else match split_colon s' with
           | p :: ps => String c p :: ps
           | [] => [String c EmptyString]
           end
  end.

(** What the module takes from the engine: [JSON.stringify] ([None] is the
    answer [undefined]) and [JSON.parse], and the two conversions between a
    text and the Base64 form of its UTF-8 encoding (written with [btoa] and
    [atob], or with [Buffer], as the engine has them); each may throw. *)
Class Codec (data : Type) : Type := {
  JSON_stringify : data -> result (option string);
  JSON_parse : string -> result data;
  base64_of_text : string -> result string;
  text_of_base64 : string -> result string
}.

Record decoded (data : Type) : Type := {
  decoded_data : data;
  valid : bool
}.
Arguments decoded_data {data} _.
Arguments valid {data} _.

Section Encoding.
Context {data : Type} `{Codec data}.

(** With [json] undefined, [json.length] throws (and so does [Buffer.from]). *)
Definition compressAndEncode (d : data) : result string :=
  text ← JSON_stringify d;
  match text with
  | None => Throw
  | Some json =>
      b64 ← base64_of_text json;
      Ok (calculateHash json +:+ ":" +:+ b64)
  end.

(** [const [hash, b64] = str.split(':')]: the first two pieces; with no
    second piece [b64] is undefined, which [atob] and [Buffer.from] refuse. *)
Definition decodeAndDecompress (str : string) : result (decoded data) :=
  match split_colon str with
  | hash :: b64 :: _ =>
      json ← text_of_base64 b64;
      d ← JSON_parse json;
      Ok {| decoded_data := d; valid := String.eqb (calculateHash json) hash |}
  | _ => Throw
  end.

End Encoding.

(** ** dynamicLegend.js

    The legends are texts in which the characters outside ASCII (the signs
    for "at least" and "at most") are held as their UTF-8 bytes; the texts
    are only joined and searched for ASCII characters. *)

(** [parts.join(sep)] *)
Fixpoint join (sep : string) (parts : list string) : string :=
  match parts with
  | [] => ""
  | [p] => p
  | p :: rest => p +:+ sep +:+ join sep rest
  end.

Record legend : Type := {
  legend_high : string;
  legend_med : string;
  legend_low : string
}.

Section DynamicLegend.
Context `{Host}.

(** [cond ? [text] : []]: a part that is pushed under a condition. *)
Definition part_if (c : bool) (text : string) : list string :=
  if c then [text] else [].

Definition highParts (t : gmap string value) : list string :=
  [ "Breakfix &gt; 0"; "No VRAM Scan" ]
  ++ part_if (lt (js_or (prop t "high_tam_past_due") (vnum 999)) (vnum 999))
       ("TAM &gt;" +:+ ToString (prop t "high_tam_past_due"))
  ++ part_if (lt (js_or (prop t "auto_high_ra_vph") (vnum 999)) (vnum 999))
       ("VPH &gt;" +:+ ToString (prop t "auto_high_ra_vph"))
  ++ part_if (lt (js_or (prop t "auto_high_scan_age_days") (vnum 999)) (vnum 999))
       ("Scan &gt;" +:+ ToString (prop t "auto_high_scan_age_days") +:+ "d")
  ++ part_if (gt (js_or (prop t "high_ess_compliance") (vnum 0)) (vnum 0))
       ("TruePolicy &lt;" +:+ ToString (prop t "high_ess_compliance") +:+ "%")
  ++ part_if (gt (js_or (prop t "high_raw_policy_compliance") (vnum 0)) (vnum 0))
       ("RawPolicy &lt;" +:+ ToString (prop t "high_raw_policy_compliance") +:+ "%")
  ++ part_if (gt (js_or (prop t "high_product_compliance") (vnum 0)) (vnum 0))
       ("Product &lt;" +:+ ToString (prop t "high_product_compliance") +:+ "%").

Definition medParts (t : gmap string value) : list string :=
  [ "VPH &gt;" +:+ ToString (js_or (prop t "med_ra_vph") (vnum (7#2)));
    "Product &lt;" +:+ ToString (js_or (prop t "med_ess_compliance") (vnum 95)) +:+ "%" ]
  ++ part_if (gt (js_or (prop t "med_true_policy_compliance") (vnum 0)) (vnum 0))
       ("TruePolicy &lt;" +:+ ToString (prop t "med_true_policy_compliance") +:+ "%")
  ++ part_if (gt (js_or (prop t "med_raw_policy_compliance") (vnum 0)) (vnum 0))
       ("RawPolicy &lt;" +:+ ToString (prop t "med_raw_policy_compliance") +:+ "%")
  ++ [ "Scan &gt;" +:+ ToString (js_or (prop t "med_scan_age_days") (vnum 14)) +:+ "d";
       "TAM &gt;" +:+ ToString (js_or (prop t "med_tam_past_due") (vnum 10)) ].

Definition lowParts (t : gmap string value) : list string :=
  [ "VPH &lt;" +:+ ToString (js_or (prop t "low_vph") (vnum (5#2)));
    "Product ≥" +:+ ToString (js_or (prop t "low_product_compliance") (vnum 95)) +:+ "%" ]
  ++ part_if (is_one (js_nullish (prop t "low_true_policy_compliance_enabled") (vnum 0)))
       ("TruePolicy ≥"
        +:+ ToString (js_or (prop t "low_true_policy_compliance") (vnum 95)) +:+ "%")
  ++ part_if (is_one (js_nullish (prop t "low_raw_policy_compliance_enabled") (vnum 0)))
       ("RawPolicy ≥"
        +:+ ToString (js_or (prop t "low_raw_policy_compliance") (vnum 95)) +:+ "%")
  ++ [ "Scan ≤" +:+ ToString (js_or (prop t "low_scan_age_days") (vnum 14)) +:+ "d" ]
  ++ part_if (is_one (js_nullish (prop t "low_tam_past_due_enabled") (vnum 0)))
       ("TAM ≤" +:+ ToString (js_or (prop t "low_tam_past_due") (vnum 5))).

Definition generateDynamicLegend (thresholds : config_arg) : legend :=
  let t := match thresholds with
           | CObj t => t
           | CUndef | CNull => defaultThresholds
           end in
  {| legend_high := join " OR " (highParts t);
     legend_med := "2+ of: " +:+ join ", " (medParts t);
     legend_low := join ", " (lowParts t) |}.

End DynamicLegend.

(** [text.replace(/\{(\w+)\}/g, f)].  The text is read from left to right;
    [key] holds the word characters read since an opening brace.  A brace
    followed by one word character at least and a closing brace is a match,
    replaced by the text [f] returns for the key.  When the match fails the
    brace and the characters read are kept: none of them is a brace, so that
    no match starts among them. *)
Fixpoint replace_placeholders (f : string -> result string) (text : string)
    (key : option string) : result string :=
  match text with
  | EmptyString =>
      Ok (match key with
          | Some k => "{" +:+ k
          | None => ""
          end)
  | String c rest =>
      let afresh :=
        if Ascii.eqb c "{" then replace_placeholders f rest (Some "")
        else r ← replace_placeholders f rest None; Ok (String c r) in
      match key with
      | None => afresh
      | Some k =>
          if word_char c then replace_placeholders f rest (Some (k +:+ String c ""))
          else if Ascii.eqb c "}" && negb (String.eqb k "")
               then v ← f k; r ← replace_placeholders f rest None; Ok (v +:+ r)
               else r ← afresh; Ok ("{" +:+ k +:+ r)
      end
  end.

(** The keys of the matches, in order. *)
Fixpoint placeholders (text : string) (key : option string) : list string :=
  match text with
  | EmptyString => []
  | String c rest =>
      let afresh :=
        if Ascii.eqb c "{" then placeholders rest (Some "")
        else placeholders rest None in
      match key with
      | None => afresh
      | Some k =>
          if word_char c then placeholders rest (Some (k +:+ String c ""))
          else if Ascii.eqb c "}" && negb (String.eqb k "")
               then k :: placeholders rest None
               else afresh
      end
  end.

Section LegendText.
Context `{Host} `{Text}.

(** The callback: [thresholds[key] !== undefined ? thresholds[key] : match],
    turned into a string by [replace]. *)
Definition placeholder_text (thresholds : config_arg) (key : string) : result string :=
  match thresholds with
  | CUndef | CNull => Throw
  | CObj t =>
      match t !! key with
      | Some VUndef => Ok ("{" +:+ key +:+ "}")
      | Some v => Ok (ToString v)
      | None =>
          if inherited key then Ok (inherited_text key)
          else Ok ("{" +:+ key +:+ "}")
      end
  end.

(** A text that is truthy and not a string has no [replace]. *)
Definition formatLegendText (text : value) (thresholds : config_arg) : result string :=
  if negb (truthy text) then Ok ""
  else match text with
       | VStr s => replace_placeholders (placeholder_text thresholds) s None
       | _ => Throw
       end.

End LegendText.

(** The types of hull [normalizeBoatName] knows. *)
Definition hull_types : list string := ["SSN"; "SSBN"; "SSGN"].

(** The text read since the last brace that may open a match. *)
Definition pending (key : option string) : string :=
  match key with
  | Some k => "{" +:+ k
  | None => ""
  end.

(** The polynomial [c0 * 31^(n-1) + ... + c(n-1)] of the code units. *)
Definition poly31 (str : string) : Z :=
  fold_left (fun h c => 31 * h + charCode c) (list_ascii_of_string str) 0.

(** The number a text of hexadecimal digits denotes. *)
Definition hex_digit_value (c : ascii) : Z :=
  let n := Z.of_nat (nat_of_ascii c) in
  if (48 <=? n) && (n <=? 57) then n - 48 else n - 87.

Definition hex_value (s : string) : Z :=
  fold_left (fun v c => 16 * v + hex_digit_value c) (list_ascii_of_string s) 0.

Definition hex_char (c : ascii) : bool :=
  is_digit c || existsb (Ascii.eqb c) (list_ascii_of_string "abcdef").

(** ** A concrete text engine for worked examples

    [trim], [toLowerCase] and [toUpperCase] for ASCII texts, [parseFloat] for plain
    decimal numerals (a sign, digits, a fraction), and the text that the
    usual engines give for the functions of [Object.prototype]. *)

Module ExampleText.

Definition is_space (c : ascii) : bool :=
  let n := nat_of_ascii c in (n =? 32)%nat || ((9 <=? n)%nat && (n <=? 13)%nat).

Fixpoint trim_start (s : string) : string :=
  match s with
  | String c s' => if is_space c then trim_start s' else s
  | EmptyString => EmptyString
  end.

Fixpoint trim_end (s : string) : string :=
  match s with
  | EmptyString => EmptyString
  | String c s' =>
      match trim_end s' with
      | EmptyString => if is_space c then EmptyString else String c EmptyString
      | rest => String c rest
      end
  end.

Definition trim (s : string) : string := trim_end (trim_start s).

Definition lower (c : ascii) : ascii :=
  let n := nat_of_ascii c in
  if (65 <=? n)%nat && (n <=? 90)%nat then ascii_of_nat (n + 32) else c.

Fixpoint toLowerCase (s : string) : string :=
  match s with
  | EmptyString => EmptyString
  | String c s' => String (lower c) (toLowerCase s')
  end.

Definition upper (c : ascii) : ascii :=
  let n := nat_of_ascii c in
  if (97 <=? n)%nat && (n <=? 122)%nat then ascii_of_nat (n - 32) else c.

Fixpoint toUpperCase (s : string) : string :=
  match s with
  | EmptyString => EmptyString
  | String c s' => String (upper c) (toUpperCase s')
  end.

Definition parseFloat (s : string) : num :=
  let s := trim_start s in
  let (sign, s) :=
    match s with
    | String "-" s' => ("-", s')
    | String "+" s' => ("", s')
    | _ => ("", s)
    end in
  let (whole, rest) := digits_of s in
  let fraction :=
    match rest with
    | String "." rest' => fst (digits_of rest')
    | _ => EmptyString
    end in
  if String.eqb whole "" && String.eqb fraction "" then NaN
  else Engine.StringToNumber
         (sign +:+ (if String.eqb whole "" then "0" else whole)
          +:+ (if String.eqb fraction "" then "" else "." +:+ fraction)).

Definition inherited_text (k : string) : string :=
  if String.eqb k "__proto__" then "[object Object]"
  else if String.eqb k "constructor" then "function Object() { [native code] }"
  else "function " +:+ k +:+ "() { [native code] }".

End ExampleText.

#[global] Instance example_text : Text := {|
  trim := ExampleText.trim;
  toLowerCase := ExampleText.toLowerCase;
  toUpperCase := ExampleText.toUpperCase;
  parseFloat := ExampleText.parseFloat;
  inherited_text := ExampleText.inherited_text
|}.

(** ** A concrete codec for worked examples

    Base64 and UTF-8 as every engine has them, for texts of code units
    below 256, and the JSON texts of the values that need no escaping:
    [null], the booleans, the empty object and the strings of letters,
    digits and spaces.  The theorems hold for every codec; the examples are
    evaluated on this one. *)

Module ExampleCodec.

Definition alphabet : list ascii :=
  list_ascii_of_string
    "ABCDEFGHIJKLMNOPQRSTUVWXYZabcdefghijklmnopqrstuvwxyz0123456789+/".

Definition sextet (n : N) : ascii := nth (N.to_nat n) alphabet "A"%char.

Fixpoint encode (bytes : list N) : string :=
  match bytes with
  | [] => ""
  | [a] => String (sextet (a / 4)) (String (sextet (a mod 4 * 16)) "==")
  | [a; b] =>
      String (sextet (a / 4))
        (String (sextet (a mod 4 * 16 + b / 16))
           (String (sextet (b mod 16 * 4)) "="))
  | a :: b :: c :: rest =>
      String (sextet (a / 4))
        (String (sextet (a mod 4 * 16 + b / 16))
           (String (sextet (b mod 16 * 4 + c / 64))
              (String (sextet (c mod 64)) (encode rest))))
  end%N.

Fixpoint position (c : ascii) (l : list ascii) (i : N) : option N :=
  match l with
  | [] => None
  | x :: l' => if Ascii.eqb x c then Some i else position c l' (i + 1)%N
  end.

Definition value_of (c : ascii) : option N := position c alphabet 0%N.

Fixpoint decode (s : string) : option (list N) :=
  match s with
  | EmptyString => Some []
  | String a (String b (String c (String d rest))) =>
      x ← value_of a; y ← value_of b;
      if Ascii.eqb c "=" then
        if Ascii.eqb d "=" && String.eqb rest "" then Some [x * 4 + y / 16]%N else None
      else
        z ← value_of c;
        if Ascii.eqb d "=" then
          if String.eqb rest ""
          then Some [x * 4 + y / 16; y mod 16 * 16 + z / 4]%N else None
        else
          w ← value_of d; bytes ← decode rest;
          Some ([x * 4 + y / 16; y mod 16 * 16 + z / 4; z mod 4 * 64 + w]%N ++ bytes)
  | _ => None
  end.

Definition utf8 (s : string) : list N :=
  flat_map (fun c => let n := N_of_ascii c in
                     if (n <? 128)%N then [n] else [192 + n / 64; 128 + n mod 64]%N)
           (list_ascii_of_string s).

Fixpoint unutf8 (bytes : list N) : option string :=
  match bytes with
  | [] => Some ""
  | a :: rest =>
      if (a <? 128)%N then String (ascii_of_N a) <$> unutf8 rest
      else match rest with
           | b :: rest' =>
               if (192 <=? a)%N && (a <? 196)%N && (128 <=? b)%N && (b <? 192)%N
               then String (ascii_of_N ((a - 192) * 64 + (b - 128))) <$> unutf8 rest'
               else None
           | [] => None
           end
  end.

Definition plain_char (c : ascii) : bool :=
  let n := nat_of_ascii c in
  is_digit c || ((65 <=? n)%nat && (n <=? 90)%nat)
  || ((97 <=? n)%nat && (n <=? 122)%nat) || (n =? 32)%nat.

Definition quote : string := String (ascii_of_nat 34) "".

Definition stringify (v : value) : result (option string) :=
  match v with
  | VUndef => Ok None
  | VNull => Ok (Some "null")
  | VBool true => Ok (Some "true")
  | VBool false => Ok (Some "false")
  | VObj => Ok (Some "{}")
  | VStr s => if all_chars plain_char s then Ok (Some (quote +:+ s +:+ quote)) else Throw
  | VNum _ => Throw
  end.

Definition parse (json : string) : result value :=
  if String.eqb json "null" then Ok VNull
  else if String.eqb json "true" then Ok (VBool true)
  else if String.eqb json "false" then Ok (VBool false)
  else if String.eqb json "{}" then Ok VObj
  else
    let n := String.length json in
    let inner := substring 1 (n - 2) json in
    if (2 <=? n)%nat && String.prefix quote json
       && String.eqb (substring (n - 1) 1 json) quote && all_chars plain_char inner
    then Ok (VStr inner) else Throw.

End ExampleCodec.

#[global] Instance example_codec : Codec value := {|
  JSON_stringify := ExampleCodec.stringify;
  JSON_parse := ExampleCodec.parse;
  base64_of_text := fun text => Ok (ExampleCodec.encode (ExampleCodec.utf8 text));
  text_of_base64 := fun b64 =>
    match ExampleCodec.decode b64 ≫= ExampleCodec.unutf8 with
    | Some text => Ok text
    | None => Throw
    end
|}.

(** * Properties *)

(** ** The shape of [calculateRisk] *)

Ltac unfold_result := unfold mbind, result_bind, mret, result_ret in *.

(** Splits the hypotheses that are conjunctions of conditions. *)
Ltac split_conditions :=
  repeat match goal with
         | H : (_ && _) = true |- _ =>
             let H1 := fresh in let H2 := fresh in
             apply andb_prop in H as [H1 H2]
         end.

Section RiskFacts.
Context `{Host}.

Lemma for_each_escalate cs : forall s,
  for_each escalate cs s =
  rs ← fired cs;
  Ok {| level := if any_fires cs then HIGH else level s;
        reasons := reasons s ++ rs |}.
Proof.
  induction cs as [|[c r] cs IH]; intros s; simpl.
  - unfold_result. rewrite app_nil_r. by destruct s.
  - destruct c; [destruct r as [r|]|].
    + change (escalate s (true, Ok r))
        with (Ok {| level := HIGH; reasons := reasons s ++ [r] |}).
      unfold_result. rewrite IH.
      unfold_result. destruct (fired cs) as [rs|]; [|done]. simpl.
      rewrite <- app_assoc. simpl. by destruct (any_fires cs).
    + done.
    + change (escalate s (false, r)) with (Ok s). unfold_result. apply IH.
Qed.

Lemma for_each_tally cs : forall s,
  for_each tally cs s = rs ← fired cs; Ok ((s.1 + length rs)%nat, s.2 ++ rs).
Proof.
  induction cs as [|[c r] cs IH]; intros [n l]; simpl.
  - unfold_result. simpl. by rewrite Nat.add_0_r, app_nil_r.
  - destruct c; [destruct r as [r|]|].
    + change (tally (n, l) (true, Ok r)) with (Ok (S n, l ++ [r])).
      unfold_result. rewrite IH.
      unfold_result. destruct (fired cs) as [rs|]; [|done]. simpl.
      rewrite <- app_assoc. simpl. do 2 f_equal. lia.
    + done.
    + change (tally (n, l) (false, r)) with (Ok (n, l)). unfold_result. apply IH.
Qed.

Lemma for_each_push cs : forall l,
  for_each push cs l = rs ← fired cs; Ok (l ++ rs).
Proof.
  induction cs as [|[c r] cs IH]; intros l; simpl.
  - unfold_result. by rewrite app_nil_r.
  - destruct c; [destruct r as [r|]|].
    + change (push l (true, Ok r)) with (Ok (l ++ [r])).
      unfold_result. rewrite IH.
      unfold_result. destruct (fired cs) as [rs|]; [|done]. simpl.
      by rewrite <- app_assoc.
    + done.
    + change (push l (false, r)) with (Ok l). unfold_result. apply IH.
Qed.

Lemma meetsLowCriteria_any cs : meetsLowCriteria cs = negb (any_fires cs).
Proof.
  unfold meetsLowCriteria, any_fires.
  induction cs as [|[c r] cs IH]; simpl; [done|]. rewrite IH. by destruct c.
Qed.

Lemma fired_nil cs rs :
  fired cs = Ok rs -> any_fires cs = false -> rs = [].
Proof.
  revert rs. induction cs as [|[c r] cs IH]; intros rs; simpl.
  - by intros [= <-].
  - destruct c; simpl; [done|]. auto.
Qed.

Lemma fired_quiet cs : any_fires cs = false -> fired cs = Ok [].
Proof.
  induction cs as [|[c r] cs IH]; simpl; [done|].
  destruct c; simpl; [done|]. auto.
Qed.

Lemma calculateRisk_stages boat thresholds :
  calculateRisk boat thresholds = stages boat (config thresholds).
Proof.
  unfold calculateRisk, stages. fold (config thresholds).
  generalize (config thresholds) as t. intros t.
  generalize (read_locals boat) as l. intros l.
  rewrite for_each_escalate.
  unfold medStage, lowStage. rewrite meetsLowCriteria_any.
  generalize (highChecks boat t l) as hc. intros hc.
  generalize (medChecks boat t l) as mc. intros mc.
  generalize (lowChecks boat t l) as lc. intros lc.
  destruct (fired hc) as [hs|] eqn:Hhs; unfold_result. 2:{ done. }
  cbn [level reasons app].
  destruct (any_fires hc) eqn:Hany.
  - done.
  - apply (fired_nil _ _ Hhs) in Hany as ->.
    rewrite for_each_tally. unfold_result.
    destruct (fired mc) as [ms|]; [|done].
    cbn [fst snd Nat.add app].
    destruct (2 <=? length ms)%nat; [done|].
    cbn [level reasons].
    rewrite for_each_push. unfold_result.
    destruct (any_fires lc); cbn [negb app]; [|done].
    by destruct (fired lc).
Qed.

End RiskFacts.

(** ** LOW carries no reason *)

Section Invariants.
Context `{Host}.

Lemma exemptStage_high boat l hs :
  level (exemptStage boat l {| level := HIGH; reasons := hs |}) <> LOW.
Proof.
  unfold exemptStage. simpl.
  by destruct (truthy (isScanExempt boat) && noVramData l
               && forallb (includes "VRAM data") hs).
Qed.

(** C9.  Whenever [calculateRisk] returns the tier LOW, the list of reasons
    it returns is empty: a reason is only ever pushed together with an
    escalation to MED or HIGH. *)
Theorem calculateRisk_low_has_no_reasons boat thresholds r :
  calculateRisk boat thresholds = Ok r -> level r = LOW -> reasons r = [].
Proof.
  rewrite calculateRisk_stages. unfold stages.
  destruct (fired (highChecks _ _ _)) as [hs|]; unfold_result; [|done].
  destruct (any_fires (highChecks _ _ _)).
  { intros [= <-] Hlow. by apply exemptStage_high in Hlow. }
  destruct (fired (medChecks _ _ _)) as [ms|]; [|done].
  destruct (2 <=? length ms)%nat; [by intros [= <-]|].
  destruct (any_fires (lowChecks _ _ _)).
  - destruct (fired (lowChecks _ _ _)); [|done]. by intros [= <-].
  - by intros [= <-].
Qed.

End Invariants.

(** The healthy boat of the test suite is LOW, with no reason. *)
Lemma calculateRisk_low_has_no_reasons_witness :
  calculateRisk (createHealthyBoat ∅) CUndef = Ok {| level := LOW; reasons := [] |}
  /\ reasons {| level := LOW; reasons := [] |} = [].
Proof.
  split; [vm_compute; reflexivity|].
  apply (calculateRisk_low_has_no_reasons (createHealthyBoat ∅) CUndef);
    vm_compute; reflexivity.
Defined.

(** ** The product-compliance trigger and the fallbacks of [calculateRisk] *)

(** C3.  With [high_product_compliance] set to 0, as in the default
    configuration where 0 is documented to disable the trigger, the lookup
    [t.high_product_compliance || 50] yields 50, the guard [> 0] passes, and
    a boat whose only fault is a SIPR product compliance of 40 is HIGH with
    the reason "SIPR Prod: 40.0%". *)
Theorem high_product_compliance_zero_still_fires :
  prop defaultThresholds "high_product_compliance" = vnum 0
  /\ calculateRisk (createHealthyBoat {[ "essSiprProductCompliance" := vnum 40 ]})
       (CObj defaultThresholds)
     = Ok {| level := HIGH; reasons := ["SIPR Prod: 40.0%"] |}
  /\ calculateRisk (createHealthyBoat {[ "essSiprProductCompliance" := vnum 40 ]})
       (CObj (<["high_product_compliance" := vnum 10]> defaultThresholds))
     = Ok {| level := MED; reasons := ["SIPR Prod: 40.0%"] |}.
Proof. repeat split; vm_compute; reflexivity. Qed.

(** C8.  [null] and [undefined] select [defaultThresholds], but with the
    empty configuration every lookup falls back to the literal written in
    [calculateRisk], and four of these literals differ from the defaults
    (auto_high_ra_vph: 5 for 999, auto_high_scan_age_days: 30 for 999,
    high_ess_compliance: 0 for 90, med_true_policy_compliance: 0 for 95).
    A healthy boat with a SIPR VPH of 6 is HIGH under [{}] and MED under the
    defaults. *)
Theorem empty_config_is_not_the_default_config :
  (forall boat,
     calculateRisk boat CNull = calculateRisk boat (CObj defaultThresholds)
     /\ calculateRisk boat CUndef = calculateRisk boat (CObj defaultThresholds))
  /\ calculateRisk (createHealthyBoat {[ "vramSiprRaVph" := vnum 6 ]}) (CObj ∅)
     = Ok {| level := HIGH; reasons := ["SIPR VPH: 6.00"] |}
  /\ calculateRisk (createHealthyBoat {[ "vramSiprRaVph" := vnum 6 ]})
       (CObj defaultThresholds)
     = Ok {| level := MED; reasons := ["SIPR VPH: 6.00"] |}.
Proof. repeat split; vm_compute; reflexivity. Qed.

(** ** Comparisons *)

Lemma Qltb_lt a b : Qltb a b = true <-> (a < b)%Q.
Proof.
  unfold Qltb. rewrite negb_true_iff, <- not_true_iff_false, Qle_bool_iff.
  split; [apply Qnot_le_lt | apply Qlt_not_le].
Qed.

Lemma Qltb_ge a b : Qltb a b = false <-> (b <= a)%Q.
Proof.
  unfold Qltb. by rewrite negb_false_iff, Qle_bool_iff.
Qed.

(** [x < a] and [a <= b] give [x < b]. *)
Lemma num_lt_le_trans x a b :
  num_lt x a = Some true -> num_lt b a = Some false -> num_lt x b = Some true.
Proof.
  destruct x as [| | |x], a as [| | |a], b as [| | |b]; simpl; try done.
  intros [= Hxa%Qltb_lt] [= Hab%Qltb_ge]. f_equal. apply Qltb_lt. lra.
Qed.

(** [a <= b] and [b < x] give [a < x]. *)
Lemma num_le_lt_trans a b x :
  num_lt b a = Some false -> num_lt b x = Some true -> num_lt a x = Some true.
Proof.
  destruct x as [| | |x], a as [| | |a], b as [| | |b]; simpl; try done.
  intros [= Hab%Qltb_ge] [= Hbx%Qltb_lt]. f_equal. apply Qltb_lt. lra.
Qed.

(** [a <= b] and [b <= c] give [a <= c]. *)
Lemma num_le_trans a b c :
  num_lt b a = Some false -> num_lt c b = Some false -> num_lt c a = Some false.
Proof.
  destruct a as [| | |a], b as [| | |b], c as [| | |c]; simpl; try done.
  intros [= Hab%Qltb_ge] [= Hbc%Qltb_ge]. f_equal. apply Qltb_ge. lra.
Qed.

Section ComparisonFacts.
Context `{Host}.

Lemma js_lt_num_l n v : js_lt (VNum n) v = num_lt n (as_number v).
Proof. reflexivity. Qed.

Lemma js_lt_num_r v n : js_lt v (VNum n) = num_lt (as_number v) n.
Proof. by destruct v. Qed.

Lemma gt_num v n : gt v (VNum n) = bool_decide (num_lt n (as_number v) = Some true).
Proof.
  unfold gt, lt. rewrite js_lt_num_l.
  by destruct (num_lt n (as_number v)) as [[]|].
Qed.

Lemma lt_num v n : lt v (VNum n) = bool_decide (num_lt (as_number v) n = Some true).
Proof.
  unfold lt. rewrite js_lt_num_r.
  by destruct (num_lt (as_number v) n) as [[]|].
Qed.

Lemma ge_num v n : ge v (VNum n) = bool_decide (num_lt (as_number v) n = Some false).
Proof.
  unfold ge, le. rewrite js_lt_num_r.
  by destruct (num_lt (as_number v) n) as [[]|].
Qed.

(** Raising the bound [thr] of [v > thr] or [v >= thr], and lowering the
    bound of [v < thr], can only turn the comparison off. *)
Lemma gt_raise v a b :
  num_lt b a = Some false -> gt v (VNum b) = true -> gt v (VNum a) = true.
Proof.
  rewrite !gt_num, !bool_decide_eq_true. apply num_le_lt_trans.
Qed.

Lemma ge_raise v a b :
  num_lt b a = Some false -> ge v (VNum b) = true -> ge v (VNum a) = true.
Proof.
  rewrite !ge_num, !bool_decide_eq_true. intros Hab Hvb.
  by apply (num_le_trans a b (as_number v)).
Qed.

Lemma lt_lower v a b :
  num_lt a b = Some false -> lt v (VNum b) = true -> lt v (VNum a) = true.
Proof.
  rewrite !lt_num, !bool_decide_eq_true. intros Hba Hvb.
  by apply (num_lt_le_trans _ b a).
Qed.

(** [undefined] and NaN compare false with everything. *)
Lemma num_lt_nan_r n : num_lt n NaN = None.
Proof. by destruct n. Qed.

Lemma js_lt_nan_r v x :
  as_number x = NaN -> (forall s, ToPrimitive x <> VStr s) -> js_lt v x = None.
Proof.
  unfold js_lt, as_number. intros Hx Hs.
  destruct (ToPrimitive x) as [| | | |s|]; try (by destruct (Hs s));
    rewrite Hx; destruct (ToPrimitive v); apply num_lt_nan_r.
Qed.

Lemma js_lt_nan_l v x :
  as_number x = NaN -> (forall s, ToPrimitive x <> VStr s) -> js_lt x v = None.
Proof.
  unfold js_lt, as_number. intros Hx Hs.
  destruct (ToPrimitive x) as [| | | |s|]; try (by destruct (Hs s));
    rewrite Hx; by destruct (ToPrimitive v).
Qed.

End ComparisonFacts.

(** ** Boundary values *)

Section Boundaries.
Context `{Host}.

Lemma le_refl_number q : le (vnum q) (vnum q) = true.
Proof.
  unfold le, vnum. rewrite js_lt_num_l. simpl.
  assert (Qltb q q = false) as -> by (apply Qltb_ge; lra). done.
Qed.

Lemma lt_irrefl_number q : lt (vnum q) (vnum q) = false.
Proof.
  unfold lt, vnum. rewrite js_lt_num_l. simpl.
  assert (Qltb q q = false) as -> by (apply Qltb_ge; lra). done.
Qed.

Lemma le_number a b : le (vnum a) (vnum b) = Qle_bool a b.
Proof.
  unfold le, vnum. rewrite js_lt_num_l. simpl. unfold Qltb.
  by destruct (Qle_bool a b).
Qed.

(** A boat whose VPH on a network that is looked at equals the LOW
    threshold makes one of the two first LOW requirements fail. *)
Lemma lowChecks_at_threshold boat t x :
  js_or (prop t "low_vph") (vnum (5#2)) = vnum x ->
  prop boat "vramSiprRaVph" = vnum x
  \/ (is_true (prop boat "isNmci") = false /\ prop boat "vramNiprRaVph" = vnum x) ->
  any_fires (lowChecks boat t (read_locals boat)) = true.
Proof.
  intros Ht Hboat. unfold lowChecks, any_fires. rewrite Ht.
  cbn [existsb fst isNmci read_locals].
  destruct Hboat as [-> | [-> ->]].
  - unfold at_least at 2. unfold ge. rewrite le_refl_number. simpl.
    by rewrite orb_true_r.
  - unfold at_least at 1. unfold ge. by rewrite le_refl_number.
Qed.


End Boundaries.


(** ** The exemption downgrade *)

Lemma prefix_chars p n : forall s,
  String.prefix n s = true -> all_chars p s = true -> all_chars p n = true.
Proof.
  unfold all_chars. induction n as [|c n IH]; intros [|c' s]; simpl; try done.
  destruct (Ascii.ascii_dec c c') as [->|]; [|done].
  intros Hp [Hc Hs]%andb_prop. rewrite Hc. simpl. eauto.
Qed.

(** A string includes [needle] only if it has every character of it. *)
Lemma includes_chars p needle s :
  all_chars p s = true -> all_chars p needle = false -> includes needle s = false.
Proof.
  intros Hs Hn. induction s as [|c s IH]; cbn [includes].
  - destruct (String.prefix needle "") eqn:Hp; [|done].
    by rewrite (prefix_chars _ _ _ Hp Hs) in Hn.
  - destruct (String.prefix needle (String c s)) eqn:Hp.
    + by rewrite (prefix_chars _ _ _ Hp Hs) in Hn.
    + cbn [orb]. apply IH. unfold all_chars in *. cbn [list_ascii_of_string forallb] in Hs.
      by apply andb_prop in Hs as [_ Hs].
Qed.

Lemma number_char_other_than c :
  number_char c = false -> forall x, number_char x = true -> other_than c x = true.
Proof.
  intros Hc x Hx. unfold other_than.
  destruct (Ascii.eqb_spec x c) as [->|]; [congruence | done].
Qed.

Lemma literal_char_other_than c :
  literal_char c = false -> forall x, literal_char x = true -> other_than c x = true.
Proof.
  intros Hc x Hx. unfold other_than.
  destruct (Ascii.eqb_spec x c) as [->|]; [congruence | done].
Qed.

Section Exemption.
Context `{Host}.

Lemma numeric_config_prop t k :
  numeric_config t = true -> prop t k = VUndef \/ exists n, prop t k = VNum n.
Proof.
  unfold numeric_config, prop. rewrite forallb_forall. intros Ht.
  destruct (t !! k) as [v|] eqn:Hk; simpl; [|by left].
  apply elem_of_map_to_list, list_elem_of_In, Ht in Hk. simpl in Hk.
  destruct v; try done. right. by eexists.
Qed.

Lemma numeric_config_threshold t k d :
  numeric_config t = true -> exists n, js_or (prop t k) (vnum d) = VNum n.
Proof.
  intros Ht. destruct (numeric_config_prop t k Ht) as [-> | [n ->]].
  - by eexists.
  - unfold js_or. destruct (truthy (VNum n)); by eexists.
Qed.

(** The raw value printed by a reason that fired against a numeric bound
    has no capital V in it. *)
Lemma ToString_fired v thr :
  gt (js_or v (vnum 0)) (VNum thr) = true ->
  all_chars (other_than "V") (ToString v) = true.
Proof.
  intros Hgt. destruct v as [| |[]|n|s|]; try reflexivity.
  - simpl. eapply all_chars_weaken; [|apply NumberToString_chars].
    by apply number_char_other_than.
  - simpl. unfold js_or in Hgt. simpl in Hgt.
    destruct (String.eqb_spec s "") as [->|Hs]; [done|]. simpl in Hgt.
    rewrite gt_num, bool_decide_eq_true in Hgt.
    eapply all_chars_weaken; [by apply literal_char_other_than|].
    apply StringToNumber_chars. unfold as_number in Hgt. simpl in Hgt.
    intros Hnan. rewrite Hnan in Hgt. by destruct thr.
Qed.

Lemma plain_excluded label v thr s :
  all_chars (other_than "V") label = true ->
  gt (js_or v (vnum 0)) (VNum thr) = true ->
  plain label v = Ok s -> includes "VRAM data" s = false.
Proof.
  intros Hl Hgt [= <-]. apply (includes_chars (other_than "V")); [|done].
  by rewrite all_chars_app, Hl, (ToString_fired v thr).
Qed.

Lemma fixed_chars c v d s :
  number_char c = false -> fixed v d = Ok s -> all_chars (other_than c) s = true.
Proof.
  intros Hc. destruct v; try done. intros [= <-].
  eapply all_chars_weaken; [|apply toFixed_chars].
  by apply number_char_other_than.
Qed.

Lemma percent_excluded label v s :
  all_chars (other_than "V") label = true ->
  percent label v = Ok s -> includes "VRAM data" s = false.
Proof.
  intros Hl. unfold percent. destruct (fixed v 1) as [x|] eqn:Hx; [|done].
  unfold_result. intros [= <-].
  apply (includes_chars (other_than "V")); [|done].
  by rewrite !all_chars_app, Hl, (fixed_chars "V" v 1 x).
Qed.

Lemma ratio_excluded label v s :
  all_chars (other_than "M") label = true ->
  ratio label v = Ok s -> includes "VRAM data" s = false.
Proof.
  intros Hl. unfold ratio. destruct (fixed v 2) as [x|] eqn:Hx; [|done].
  unfold_result. intros [= <-].
  apply (includes_chars (other_than "M")); [|done].
  by rewrite !all_chars_app, Hl, (fixed_chars "M" v 2 x).
Qed.

Lemma days_excluded label age s :
  all_chars (other_than "V") label = true ->
  days label age = Ok s -> includes "VRAM data" s = false.
Proof.
  intros Hl. destruct age as [a|]; intros [= <-];
    apply (includes_chars (other_than "V")); try done.
  - rewrite !all_chars_app, Hl. simpl. rewrite andb_true_r.
    eapply all_chars_weaken; [|apply NumberToString_chars].
    by apply number_char_other_than.
  - by rewrite !all_chars_app, Hl.
Qed.

(** No reason of another HIGH trigger includes "VRAM data". *)
Lemma other_high_reasons_excluded boat t l :
  numeric_config t = true ->
  Forall (fun c : check =>
            c.1 = true -> forall s, c.2 = Ok s -> includes "VRAM data" s = false)
         (delete telemetry_trigger (highChecks boat t l)).
Proof.
  intros Ht.
  destruct (numeric_config_threshold t "high_tam_past_due" 20 Ht) as [tam Htam].
  unfold highChecks. rewrite Htam. cbn [delete list_delete telemetry_trigger].
  repeat apply Forall_cons_2; try apply Forall_nil_2; cbn [fst snd];
    intros Hc s Hs;
    repeat match type of Hc with (_ && _) = true =>
      let H1 := fresh in apply andb_prop in Hc as [H1 Hc] end;
    first [ refine (plain_excluded _ _ _ _ _ Hc Hs); reflexivity
          | refine (percent_excluded _ _ _ _ Hs); reflexivity
          | refine (ratio_excluded _ _ _ _ Hs); reflexivity
          | refine (days_excluded _ _ _ _ Hs); reflexivity ].
Qed.

Lemma fired_elem cs : forall hs c,
  fired cs = Ok hs -> c ∈ cs -> c.1 = true -> exists s, c.2 = Ok s /\ s ∈ hs.
Proof.
  induction cs as [|[b r] cs IH]; intros hs c Hf Hin Hc; [by apply elem_of_nil in Hin|].
  simpl in Hf. apply elem_of_cons in Hin as [-> | Hin].
  - simpl in Hc. subst b. simpl. destruct r as [r|]; [|done]. unfold_result.
    destruct (fired cs) as [rs|]; [|done]. injection Hf as <-.
    exists r. split; [done | apply list_elem_of_here].
  - destruct b.
    + destruct r as [r|]; [|done]. unfold_result.
      destruct (fired cs) as [rs|] eqn:Hrs; [|done]. injection Hf as <-.
      destruct (IH rs c eq_refl Hin Hc) as (s & Hs & Hel).
      exists s. split; [done | by apply list_elem_of_further].
    + by apply IH.
Qed.

Lemma any_fires_elem cs : any_fires cs = true -> exists c, c ∈ cs /\ c.1 = true.
Proof.
  unfold any_fires. intros (c & Hin & Hc)%existsb_exists.
  exists c. split; [by apply list_elem_of_In | done].
Qed.

(** When the trigger at position [i] is the only one that fires. *)
Lemma fired_only cs : forall i s,
  cs !! i = Some (true, Ok s) -> any_fires (delete i cs) = false ->
  fired cs = Ok [s] /\ any_fires cs = true.
Proof.
  induction cs as [|[b r] cs IH]; intros i s Hi Hq; [done|].
  destruct i as [|i]; simpl in *.
  - injection Hi as -> ->. by rewrite (fired_quiet cs Hq).
  - apply orb_false_elim in Hq as [-> Hq]. simpl.
    by destruct (IH i s Hi Hq) as [-> ->].
Qed.


End Exemption.


(** ** The network left out for NMCI boats *)

Lemma fired_same cs : forall cs',
  Forall2 same_check cs cs' -> fired cs = fired cs'.
Proof.
  induction cs as [|[b r] cs IH]; intros cs' Hcs; inversion Hcs as [|? [b' r'] ? ? [Hb Hr] Hrest];
    subst; [done|].
  simpl in *. subst b'. rewrite (IH _ Hrest). destruct b; [|done].
  by rewrite Hr.
Qed.

Lemma any_fires_same cs : forall cs',
  Forall2 same_check cs cs' -> any_fires cs = any_fires cs'.
Proof.
  induction cs as [|[b r] cs IH]; intros cs' Hcs; inversion Hcs as [|? [b' r'] ? ? [Hb Hr] Hrest];
    subst; [done|].
  simpl in *. subst b'. by rewrite (IH _ Hrest).
Qed.

Lemma same_check_refl c : same_check c c.
Proof. by split. Qed.

Lemma same_check_quiet r r' : same_check (false, r) (false, r').
Proof. by split. Qed.

(** Every reason comes from a check that fired. *)
Lemma fired_from cs : forall rs s,
  fired cs = Ok rs -> s ∈ rs -> exists c, c ∈ cs /\ c.1 = true /\ c.2 = Ok s.
Proof.
  induction cs as [|[b r] cs IH]; intros rs s Hf Hs; simpl in Hf.
  - injection Hf as <-. by apply elem_of_nil in Hs.
  - destruct b.
    + destruct r as [r|]; [|done]. unfold_result.
      destruct (fired cs) as [rs'|] eqn:Hrs; [|done]. injection Hf as <-.
      apply elem_of_cons in Hs as [-> | Hs].
      * exists (true, Ok r). split; [apply list_elem_of_here | done].
      * destruct (IH rs' s eq_refl Hs) as (c & Hin & Hc).
        exists c. split; [by apply list_elem_of_further | done].
    + destruct (IH rs s Hf Hs) as (c & Hin & Hc).
      exists c. split; [by apply list_elem_of_further | done].
Qed.

Section Nmci.
Context `{Host}.

Variables boat boat' : gmap string value.
Hypothesis Hnmci : is_true (prop boat "isNmci") = true.
Hypothesis Hagree : forall k, nipr_field k = false -> prop boat k = prop boat' k.

Ltac use_agreement :=
  rewrite <- ?(Hagree "isNmci" eq_refl),
          <- ?(Hagree "essSiprBreakfix" eq_refl),
          <- ?(Hagree "essSiprProductCompliance" eq_refl),
          <- ?(Hagree "essSiprTruePolicy" eq_refl),
          <- ?(Hagree "essSiprPolicyEnforced" eq_refl),
          <- ?(Hagree "vramSiprRaVph" eq_refl),
          <- ?(Hagree "vramSiprScanDate" eq_refl),
          <- ?(Hagree "vramSiprAssets" eq_refl),
          <- ?(Hagree "vramSiprScanExempt" eq_refl),
          <- ?(Hagree "vramNiprScanExempt" eq_refl),
          <- ?(Hagree "tamPastDue" eq_refl).

Ltac same_checks :=
  repeat first
    [ apply Forall2_nil_2
    | apply Forall2_cons_2;
      [ first [ apply same_check_refl | apply same_check_quiet ] | ] ].

Lemma nmci_locals : read_locals boat' = read_locals boat.
Proof using Hnmci Hagree.
  unfold read_locals. use_agreement. by rewrite Hnmci.
Qed.

Lemma nmci_isNmci : isNmci (read_locals boat) = true.
Proof using Hnmci. exact Hnmci. Qed.

Lemma nmci_highChecks t l :
  isNmci l = true ->
  Forall2 same_check (highChecks boat t l) (highChecks boat' t l).
Proof using Hagree.
  intros Hl. unfold highChecks. rewrite Hl. use_agreement.
  cbn [negb andb]. rewrite ?andb_false_r. same_checks.
Qed.

Lemma nmci_medChecks t l :
  isNmci l = true ->
  Forall2 same_check (medChecks boat t l) (medChecks boat' t l).
Proof using Hagree.
  intros Hl. unfold medChecks. rewrite Hl. use_agreement.
  cbn [negb andb]. rewrite ?andb_false_r. same_checks.
Qed.

Lemma nmci_lowChecks t l :
  isNmci l = true ->
  Forall2 same_check (lowChecks boat t l) (lowChecks boat' t l).
Proof using Hagree.
  intros Hl. unfold lowChecks. rewrite Hl. use_agreement.
  cbn [negb andb]. rewrite ?andb_false_r. same_checks.
Qed.

Lemma nmci_exemptStage l s : exemptStage boat' l s = exemptStage boat l s.
Proof using Hagree.
  unfold exemptStage, isScanExempt. by use_agreement.
Qed.

Lemma nmci_same_result thresholds :
  calculateRisk boat' thresholds = calculateRisk boat thresholds.
Proof using Hnmci Hagree.
  rewrite !calculateRisk_stages. unfold stages. rewrite nmci_locals.
  pose proof nmci_isNmci as Hl.
  rewrite <- (fired_same _ _ (nmci_highChecks _ _ Hl)).
  rewrite <- (any_fires_same _ _ (nmci_highChecks _ _ Hl)).
  rewrite <- (fired_same _ _ (nmci_medChecks _ _ Hl)).
  rewrite <- (fired_same _ _ (nmci_lowChecks _ _ Hl)).
  rewrite <- (any_fires_same _ _ (nmci_lowChecks _ _ Hl)).
  destruct (fired (highChecks _ _ _)) as [hs|]; unfold_result; [|done].
  by rewrite nmci_exemptStage.
Qed.

(** No check that fires for an NMCI boat builds a reason labelled NIPR. *)
Lemma nmci_labels t l :
  isNmci l = true ->
  Forall (fun c : check =>
            c.1 = true -> forall s, c.2 = Ok s -> String.prefix "NIPR" s = false)
         (highChecks boat t l ++ medChecks boat t l ++ lowChecks boat t l).
Proof.
  intros Hl. unfold highChecks, medChecks, lowChecks. rewrite Hl.
  cbn [negb andb app]. rewrite ?andb_false_r.
  repeat apply Forall_cons_2; try apply Forall_nil_2; cbn [fst snd];
    intros Hc s Hs; try discriminate Hc;
    first [ by injection Hs as <-
          | unfold percent, ratio in Hs;
            match type of Hs with context [fixed ?v ?d] =>
              destruct (fixed v d); [|discriminate Hs] end;
            by injection Hs as <-
          | match type of Hs with context [days _ ?a] => destruct a end;
            by injection Hs as <- ].
Qed.

Lemma nmci_reasons thresholds r :
  calculateRisk boat thresholds = Ok r ->
  Forall (fun s => String.prefix "NIPR" s = false) (reasons r).
Proof using Hnmci.
  rewrite calculateRisk_stages. unfold stages.
  pose proof (nmci_labels (config thresholds) _ nmci_isNmci) as Hlab.
  rewrite !Forall_app in Hlab. destruct Hlab as (Hh & Hm & Hlow).
  assert (forall cs rs,
            Forall (fun c : check => c.1 = true -> forall s, c.2 = Ok s ->
                                     String.prefix "NIPR" s = false) cs ->
            fired cs = Ok rs ->
            Forall (fun s => String.prefix "NIPR" s = false) rs) as Hfrom.
  { intros cs rs Hcs Hrs. apply Forall_forall. intros s Hs.
    destruct (fired_from _ _ _ Hrs Hs) as (c & Hin & Hc & Hcs').
    rewrite Forall_forall in Hcs. by apply (Hcs c Hin Hc). }
  destruct (fired (highChecks _ _ _)) as [hs|] eqn:Hhs; unfold_result; [|done].
  destruct (any_fires (highChecks _ _ _)).
  { intros [= <-]. unfold exemptStage. cbn [level reasons].
    destruct (_ && _ && _); cbn [reasons]; eauto.
    apply Forall_app. split; [eauto|]. by apply Forall_singleton. }
  destruct (fired (medChecks _ _ _)) as [ms|] eqn:Hms; [|done].
  destruct (2 <=? length ms)%nat; [intros [= <-]; eauto|].
  destruct (any_fires (lowChecks _ _ _)).
  - destruct (fired (lowChecks _ _ _)) as [ls|] eqn:Hls; [|done].
    intros [= <-]. eauto.
  - by intros [= <-].
Qed.

End Nmci.

(** C4, as the code has it.  For an NMCI boat the NIPR fields, the
    scan-exemption flag apart, are never read: two such boats that differ
    only in those fields get the same tier and the same reasons, and no
    reason is one of the NIPR reasons. *)
Theorem nmci_ignores_nipr `{Host} (boat boat' : gmap string value) thresholds :
  is_true (prop boat "isNmci") = true ->
  (forall k, nipr_field k = false -> prop boat k = prop boat' k) ->
  calculateRisk boat' thresholds = calculateRisk boat thresholds
  /\ forall r, calculateRisk boat thresholds = Ok r ->
               Forall (fun s => String.prefix "NIPR" s = false) (reasons r).
Proof.
  intros Hnmci Hagree. split.
  - by apply nmci_same_result.
  - intros r. by apply nmci_reasons.
Qed.

(** An NMCI boat with a NIPR breakfix of 5 and a NIPR VPH of 10 is LOW, as
    it is without them. *)
Lemma nmci_ignores_nipr_witness :
  calculateRisk (<["essNiprBreakfix" := vnum 5]>
                   (<["vramNiprRaVph" := vnum 10]> (createNmciBoat ∅))) CUndef
  = calculateRisk (createNmciBoat ∅) CUndef
  /\ calculateRisk (createNmciBoat ∅) CUndef = Ok {| level := LOW; reasons := [] |}.
Proof.
  split; [|vm_compute; reflexivity].
  apply (nmci_ignores_nipr (createNmciBoat ∅)); [vm_compute; reflexivity|].
  intros k Hk. unfold prop.
  rewrite !lookup_insert_ne; [done | by intros <- ..].
Defined.

(** C4, as stated, fails whichever network is called secondary.  The SIPR
    fields of an NMCI boat are checked: a SIPR breakfix of 3 turns LOW into
    HIGH and is printed in the reason.  And the NIPR scan-exemption flag of
    an NMCI boat is read by the exemption rule: clearing it turns MED into
    HIGH. *)
Lemma nmci_tier_depends_on_sipr_and_on_nipr_exemption :
  (calculateRisk (createNmciBoat ∅) CUndef = Ok {| level := LOW; reasons := [] |}
   /\ calculateRisk (<["essSiprBreakfix" := vnum 3]> (createNmciBoat ∅)) CUndef
      = Ok {| level := HIGH; reasons := ["SIPR Breakfix: 3"] |})
  /\ (calculateRisk (<["vramNiprScanExempt" := VBool true]>
                       (<["vramSiprScanExempt" := VBool true]> nmciWithoutSiprVram))
        CUndef
      = Ok {| level := MED; reasons := ["No VRAM data"; "Scan Exempt"] |}
      /\ calculateRisk (<["vramNiprScanExempt" := VBool false]>
                          (<["vramSiprScanExempt" := VBool true]> nmciWithoutSiprVram))
           CUndef
         = Ok {| level := HIGH; reasons := ["No VRAM data"] |}).
Proof. repeat split; vm_compute; reflexivity. Qed.

(** ** Relaxing one threshold *)

Lemma prop_insert_eq (t : gmap string value) k v : prop (<[k := v]> t) k = v.
Proof. unfold prop. by rewrite lookup_insert_eq. Qed.

Lemma prop_insert_ne (t : gmap string value) k k' v :
  k <> k' -> prop (<[k := v]> t) k' = prop t k'.
Proof. intros Hk. unfold prop. by rewrite lookup_insert_ne. Qed.

Lemma weaker_refl c : weaker c c.
Proof. by split. Qed.

Lemma weaker_imp (c' c : bool) r : (c' = true -> c = true) -> weaker (c', r) (c, r).
Proof. by split. Qed.

Lemma weaker_quiet c r : weaker (false, r) (c, r).
Proof. by split. Qed.

Lemma Forall2_weaker_refl cs : Forall2 weaker cs cs.
Proof. induction cs; constructor; [apply weaker_refl | done]. Qed.

Lemma fired_weaker cs' : forall cs rs,
  Forall2 weaker cs' cs -> fired cs = Ok rs ->
  exists rs', fired cs' = Ok rs' /\ rs' `sublist_of` rs.
Proof.
  induction cs' as [|[b' r'] cs' IH]; intros cs rs Hcs Hrs;
    inversion Hcs as [|? [b r] ? ? [Hb Hr] Hrest]; subst.
  - exists []. split; [done | apply sublist_nil_l].
  - simpl in *. subst r'. destruct b.
    + destruct r as [r|]; [|done]. unfold_result.
      destruct (fired l') as [rs0|] eqn:Hrs0; [|done]. injection Hrs as <-.
      destruct (IH _ _ Hrest Hrs0) as (rs' & -> & Hsub).
      destruct b'; eexists; (split; [reflexivity|]).
      * by apply sublist_skip.
      * by apply sublist_cons.
    + destruct b'; [by specialize (Hb eq_refl)|]. by apply (IH _ _ Hrest).
Qed.

Lemma any_fires_weaker cs' : forall cs,
  Forall2 weaker cs' cs -> any_fires cs' = true -> any_fires cs = true.
Proof.
  induction cs' as [|[b' r'] cs' IH]; intros cs Hcs;
    inversion Hcs as [|? [b r] ? ? [Hb Hr] Hrest]; subst; [done|].
  simpl in *. intros [Hb' | Hrest']%orb_prop.
  - by rewrite (Hb Hb').
  - rewrite (IH _ Hrest Hrest'). apply orb_true_r.
Qed.

Lemma forallb_sublist {A} (p : A -> bool) (l' l : list A) :
  l' `sublist_of` l -> forallb p l = true -> forallb p l' = true.
Proof.
  induction 1 as [|x l' l _ IH|x l' l _ IH]; simpl; [done| |].
  - intros [-> Hl]%andb_prop. by rewrite IH.
  - intros [_ Hl]%andb_prop. auto.
Qed.

Section Relaxing.
Context `{Host}.

Lemma level_exemptStage boat l hs :
  level (exemptStage boat l {| level := HIGH; reasons := hs |})
  = if truthy (isScanExempt boat) && noVramData l
       && forallb (includes "VRAM data") hs
    then MED else HIGH.
Proof. unfold exemptStage. cbn [level reasons]. by destruct (_ && _ && _). Qed.

(** If every check of the relaxed configuration is weaker than its
    counterpart, the tier does not rise. *)
Lemma stages_monotone boat t t' r r' :
  let l := read_locals boat in
  Forall2 weaker (highChecks boat t' l) (highChecks boat t l) ->
  Forall2 weaker (medChecks boat t' l) (medChecks boat t l) ->
  Forall2 weaker (lowChecks boat t' l) (lowChecks boat t l) ->
  stages boat t = Ok r -> stages boat t' = Ok r' ->
  (tier_rank (level r') <= tier_rank (level r))%nat.
Proof.
  intros l Hh Hm Hl. unfold stages. fold l.
  destruct (fired (highChecks boat t l)) as [hs|] eqn:Hhs; unfold_result; [|done].
  destruct (fired_weaker _ _ _ Hh Hhs) as (hs' & -> & Hsub).
  pose proof (any_fires_weaker _ _ Hh) as Hany.
  destruct (any_fires (highChecks boat t l)) eqn:Hold.
  - intros [= <-]. rewrite level_exemptStage.
    destruct (any_fires (highChecks boat t' l)).
    + intros [= <-]. rewrite level_exemptStage.
      destruct (truthy (isScanExempt boat) && noVramData l); simpl; [|lia].
      destruct (forallb (includes "VRAM data") hs) eqn:Hall; simpl.
      * rewrite (forallb_sublist _ _ _ Hsub Hall). simpl. lia.
      * destruct (forallb _ hs'); simpl; lia.
    + intros Hr'.
      assert (level r' <> HIGH) as Hne.
      { destruct (fired (medChecks boat t' l)) as [ms|]; [|done].
        destruct (2 <=? length ms)%nat; [by injection Hr' as <-|].
        destruct (any_fires (lowChecks boat t' l)).
        - destruct (fired (lowChecks boat t' l)); [|done]. by injection Hr' as <-.
        - by injection Hr' as <-. }
      destruct (level r'), (_ && _ && _); simpl; try lia; done.
  - destruct (any_fires (highChecks boat t' l)); [by specialize (Hany eq_refl)|].
    destruct (fired (medChecks boat t l)) as [ms|] eqn:Hms; [|done].
    destruct (fired_weaker _ _ _ Hm Hms) as (ms' & -> & Hsubm).
    apply sublist_length in Hsubm.
    pose proof (any_fires_weaker _ _ Hl) as Hanyl.
    destruct (2 <=? length ms)%nat eqn:Hcount.
    + intros [= <-]. destruct (2 <=? length ms')%nat; [by intros [= <-]|].
      destruct (any_fires (lowChecks boat t' l)).
      * destruct (fired (lowChecks boat t' l)); [|done]. by intros [= <-].
      * intros [= <-]. simpl. lia.
    + apply Nat.leb_gt in Hcount.
      assert ((2 <=? length ms')%nat = false) as -> by (apply Nat.leb_gt; lia).
      destruct (any_fires (lowChecks boat t l)) eqn:Holdl.
      * destruct (fired (lowChecks boat t l)); [|done]. intros [= <-].
        destruct (any_fires (lowChecks boat t' l)).
        -- destruct (fired (lowChecks boat t' l)); [|done]. by intros [= <-].
        -- intros [= <-]. simpl. lia.
      * intros [= <-].
        destruct (any_fires (lowChecks boat t' l)); [by specialize (Hanyl eq_refl)|].
        by intros [= <-].
Qed.

End Relaxing.

Section Knobs.
Context `{Host}.

Lemma js_or_truthy v d : truthy v = true -> js_or v d = v.
Proof. unfold js_or. by intros ->. Qed.

Lemma above_raise v a b :
  num_lt b a = Some false -> above v (VNum b) = true -> above v (VNum a) = true.
Proof.
  unfold above. intros Hle [-> Hgt]%andb_prop. by rewrite (gt_raise v a b).
Qed.

Lemma at_least_raise v a b :
  num_lt b a = Some false -> at_least v (VNum b) = true -> at_least v (VNum a) = true.
Proof.
  unfold at_least. intros Hle [-> Hge]%andb_prop. by rewrite (ge_raise v a b).
Qed.

Lemma older_raise age a b :
  num_lt b a = Some false -> older age (VNum b) = true -> older age (VNum a) = true.
Proof. destruct age; [apply gt_raise | done]. Qed.

Lemma below_lower v a b :
  num_lt a b = Some false -> below v (VNum b) = true -> below v (VNum a) = true.
Proof.
  unfold below. intros Hle [-> Hlt]%andb_prop. by rewrite (lt_lower v a b).
Qed.

Lemma gt_zero_lower a b :
  num_lt a b = Some false -> gt (VNum b) (vnum 0) = true -> gt (VNum a) (vnum 0) = true.
Proof.
  unfold gt, vnum. intros Hle. rewrite !lt_num, !bool_decide_eq_true.
  intros Hb. by apply (num_lt_le_trans _ b a).
Qed.

Lemma zero_disabled v : is_zero v = true -> gt (js_or v (vnum 0)) (vnum 0) = false.
Proof.
  destruct v as [| | |[| | |q]| |]; try done. simpl. intros Hq.
  unfold js_or. simpl. by rewrite Hq.
Qed.

Lemma zero_toggle v : is_zero v = true -> is_one (js_nullish v (vnum 0)) = false.
Proof.
  destruct v as [| | |[| | |q]| |]; try done. simpl.
  intros Hq%Qeq_bool_iff. apply not_true_iff_false. intros Hq'%Qeq_bool_iff.
  rewrite Hq in Hq'. discriminate.
Qed.

Lemma in_use_number v :
  in_use v = true -> exists n, v = VNum n /\ truthy (VNum n) = true.
Proof.
  unfold in_use. destruct v; try done. simpl. intros Hv. by eexists.
Qed.

Lemma mem_In k l : mem k l = true -> In k l.
Proof.
  unfold mem. intros (k' & Hin & ->%String.eqb_eq)%existsb_exists. done.
Qed.

Ltac weaker_condition :=
  let Hc := fresh in
  intros Hc; split_conditions;
  repeat match goal with
         | |- (_ && _) = true => apply andb_true_intro; split
         end;
  first [ assumption
        | eapply above_raise; eassumption
        | eapply at_least_raise; eassumption
        | eapply older_raise; eassumption
        | eapply gt_raise; eassumption
        | eapply below_lower; eassumption
        | eapply gt_zero_lower; eassumption ].

Ltac weaker_checks :=
  repeat first
    [ apply Forall2_nil_2
    | apply Forall2_cons_2;
      [ lazymatch goal with
        | |- weaker ?c ?c => apply weaker_refl
        | |- weaker (false, _) _ => apply weaker_quiet
        | |- _ => apply weaker_imp; weaker_condition
        end | ] ].

Ltac read_knob :=
  unfold highChecks, medChecks, lowChecks;
  rewrite ?prop_insert_eq; rewrite ?prop_insert_ne by discriminate.

Lemma highChecks_frame boat t k v l :
  mem k [ "high_product_compliance"; "auto_high_ra_vph"; "auto_high_scan_age_days";
          "high_ess_compliance"; "high_raw_policy_compliance"; "high_tam_past_due" ]
  = false ->
  highChecks boat (<[k := v]> t) l = highChecks boat t l.
Proof.
  intros Hk. unfold highChecks.
  rewrite !prop_insert_ne; [done | intros ->; discriminate Hk ..].
Qed.

Lemma medChecks_frame boat t k v l :
  mem k [ "med_ra_vph"; "med_ess_compliance"; "med_true_policy_compliance";
          "med_raw_policy_compliance"; "med_scan_age_days"; "med_tam_past_due" ]
  = false ->
  medChecks boat (<[k := v]> t) l = medChecks boat t l.
Proof.
  intros Hk. unfold medChecks.
  rewrite !prop_insert_ne; [done | intros ->; discriminate Hk ..].
Qed.

Lemma lowChecks_frame boat t k v l :
  mem k [ "low_vph"; "low_product_compliance"; "low_true_policy_compliance";
          "low_raw_policy_compliance"; "low_scan_age_days"; "low_tam_past_due";
          "low_true_policy_compliance_enabled"; "low_raw_policy_compliance_enabled";
          "low_tam_past_due_enabled" ]
  = false ->
  lowChecks boat (<[k := v]> t) l = lowChecks boat t l.
Proof.
  intros Hk. unfold lowChecks.
  rewrite !prop_insert_ne; [done | intros ->; discriminate Hk ..].
Qed.

(** The stages that do not read the knob are unchanged. *)
Ltac unchanged_stage :=
  first [ rewrite highChecks_frame by reflexivity
        | rewrite medChecks_frame by reflexivity
        | rewrite lowChecks_frame by reflexivity ];
  apply Forall2_weaker_refl.

Lemma relaxed_checks boat t k new l :
  relaxes k (prop t k) new = true ->
  Forall2 weaker (highChecks boat (<[k := new]> t) l) (highChecks boat t l)
  /\ Forall2 weaker (medChecks boat (<[k := new]> t) l) (medChecks boat t l)
  /\ Forall2 weaker (lowChecks boat (<[k := new]> t) l) (lowChecks boat t l).
Proof.
  unfold relaxes. intros [[[Hup | Hlow]%orb_prop | Hzero]%orb_prop | Htog]%orb_prop.
  - apply andb_prop in Hup as [[[Hk Hold]%andb_prop Hnew]%andb_prop Hle].
    apply in_use_number in Hold as (a & Hold & Ha).
    apply in_use_number in Hnew as (b & -> & Hb).
    rewrite Hold in Hle. simpl in Hle.
    assert (num_lt b a = Some false) as Hab by (by destruct (num_lt b a) as [[]|]).
    clear Hle. apply mem_In in Hk. simpl in Hk.
    repeat destruct Hk as [<- | Hk]; try done;
      (split; [|split]);
      first [ unchanged_stage
            | read_knob;
              rewrite ?Hold, ?(js_or_truthy _ _ Ha), ?(js_or_truthy _ _ Hb);
              weaker_checks ].
  - apply andb_prop in Hlow as [[[Hk Hold]%andb_prop Hnew]%andb_prop Hle].
    apply in_use_number in Hold as (a & Hold & Ha).
    apply in_use_number in Hnew as (b & -> & Hb).
    rewrite Hold in Hle. simpl in Hle.
    assert (num_lt a b = Some false) as Hab by (by destruct (num_lt a b) as [[]|]).
    clear Hle. apply mem_In in Hk. simpl in Hk.
    repeat destruct Hk as [<- | Hk]; try done;
      (split; [|split]);
      first [ unchanged_stage
            | read_knob;
              rewrite ?Hold, ?(js_or_truthy _ _ Ha), ?(js_or_truthy _ _ Hb);
              weaker_checks ].
  - apply andb_prop in Hzero as [Hk Hz]. apply mem_In in Hk. simpl in Hk.
    pose proof (zero_disabled _ Hz) as Hoff.
    repeat destruct Hk as [<- | Hk]; try done;
      (split; [|split]);
      first [ unchanged_stage
            | read_knob; rewrite ?Hoff; cbn [andb]; weaker_checks ].
  - apply andb_prop in Htog as [Hk Hz]. apply mem_In in Hk. simpl in Hk.
    pose proof (zero_toggle _ Hz) as Hoff.
    repeat destruct Hk as [<- | Hk]; try done;
      (split; [|split]);
      first [ unchanged_stage
            | read_knob; rewrite ?Hoff; cbn [andb]; weaker_checks ].
Qed.

End Knobs.

(** C2, as the code has it.  For a fixed boat, changing one knob of the
    configuration in the permissive direction never raises the tier,
    provided the knob is in use before and after (a number other than 0 and
    NaN, which the lookup [t.k || fallback] keeps), or is one of the four
    lower bounds that 0 switches off and is set to 0, or is one of the three
    LOW toggles and is set to 0. *)
Theorem relaxing_a_knob_never_raises_the_tier `{Host}
    (boat t : gmap string value) (k : string) (new : value) (r r' : outcome) :
  relaxes k (prop t k) new = true ->
  calculateRisk boat (CObj t) = Ok r ->
  calculateRisk boat (CObj (<[k := new]> t)) = Ok r' ->
  (tier_rank (level r') <= tier_rank (level r))%nat.
Proof.
  intros Hrel. rewrite !calculateRisk_stages. cbn [config].
  destruct (relaxed_checks boat t k new (read_locals boat) Hrel) as (Hh & Hm & Hl).
  by apply stages_monotone.
Qed.

(** The boat of the test "Relaxing thresholds should never increase risk
    level": raising [low_vph] from 2.5 to 5 turns MED into LOW. *)
Lemma relaxing_a_knob_never_raises_the_tier_witness :
  relaxes "low_vph" (prop defaultThresholds "low_vph") (vnum 5) = true
  /\ calculateRisk (createHealthyBoat {[ "vramNiprRaVph" := vnum 3 ]})
       (CObj defaultThresholds)
     = Ok {| level := MED; reasons := ["NIPR VPH: 3.00"] |}
  /\ calculateRisk (createHealthyBoat {[ "vramNiprRaVph" := vnum 3 ]})
       (CObj (<["low_vph" := vnum 5]> defaultThresholds))
     = Ok {| level := LOW; reasons := [] |}
  /\ (tier_rank LOW <= tier_rank MED)%nat.
Proof.
  repeat split; try (vm_compute; reflexivity).
  apply (relaxing_a_knob_never_raises_the_tier
           (createHealthyBoat {[ "vramNiprRaVph" := vnum 3 ]})
           defaultThresholds "low_vph" (vnum 5)
           {| level := MED; reasons := ["NIPR VPH: 3.00"] |}
           {| level := LOW; reasons := [] |});
    vm_compute; reflexivity.
Defined.

(** C2, as stated, fails.  A knob set to 0 is replaced by the fallback of
    its lookup: lowering the lower bound [low_product_compliance] from 50 to
    0 makes the bound 95 and turns LOW into MED, and raising the upper bound
    [low_vph] from 0 (read as 2.5) to 1 turns LOW into MED.  And the
    sentinel 999 is an ordinary bound: moving [auto_high_ra_vph] from 5000
    to 999 turns MED into HIGH for a VPH of 2000. *)
Lemma permissive_changes_that_raise_the_tier :
  (calculateRisk (createHealthyBoat {[ "essSiprProductCompliance" := vnum 60 ]})
     (CObj (<["low_product_compliance" := vnum 50]> defaultThresholds))
   = Ok {| level := LOW; reasons := [] |}
   /\ calculateRisk (createHealthyBoat {[ "essSiprProductCompliance" := vnum 60 ]})
        (CObj (<["low_product_compliance" := vnum 0]>
                 (<["low_product_compliance" := vnum 50]> defaultThresholds)))
      = Ok {| level := MED; reasons := ["SIPR Prod: 60.0%"] |})
  /\ (calculateRisk (createHealthyBoat ∅)
        (CObj (<["low_vph" := vnum 0]> defaultThresholds))
      = Ok {| level := LOW; reasons := [] |}
      /\ calculateRisk (createHealthyBoat ∅)
           (CObj (<["low_vph" := vnum 1]> (<["low_vph" := vnum 0]> defaultThresholds)))
         = Ok {| level := MED; reasons := ["NIPR VPH: 1.50"; "SIPR VPH: 1.20"] |})
  /\ (calculateRisk (createHealthyBoat {[ "vramSiprRaVph" := vnum 2000 ]})
        (CObj (<["auto_high_ra_vph" := vnum 5000]> defaultThresholds))
      = Ok {| level := MED; reasons := ["SIPR VPH: 2000.00"] |}
      /\ calculateRisk (createHealthyBoat {[ "vramSiprRaVph" := vnum 2000 ]})
           (CObj (<["auto_high_ra_vph" := vnum 999]>
                    (<["auto_high_ra_vph" := vnum 5000]> defaultThresholds)))
         = Ok {| level := HIGH; reasons := ["SIPR VPH: 2000.00"] |}).
Proof. repeat split; vm_compute; reflexivity. Qed.

(** ** Grouping *)

Section Grouping.
Context `{Host} `{Text}.

Implicit Types groups : gmap string (list (gmap string value)).

Lemma bucket_step field groups b groups' :
  bucket field groups b = Ok groups' ->
  (sorted_out field groups -> sorted_out field groups')
  /\ placed field groups' b
  /\ (forall b0, placed field groups b0 -> placed field groups' b0).
Proof.
  unfold bucket. cbv zeta.
  destruct (groups !! bucket_key field b) as [bs|] eqn:Hk.
  - intros [= <-]. repeat split.
    + intros Hs k bs' b' Hk' Hb'.
      destruct (decide (k = bucket_key field b)) as [->|Hne].
      * rewrite lookup_insert_eq in Hk'. injection Hk' as <-.
        apply elem_of_app in Hb' as [Hb' | ->%list_elem_of_singleton]; [|done].
        by apply (Hs _ bs).
      * rewrite lookup_insert_ne in Hk' by done. by apply (Hs _ bs').
    + exists (bs ++ [b]). rewrite lookup_insert_eq. split; [done|].
      apply elem_of_app. right. by apply list_elem_of_singleton.
    + intros b0 (bs0 & Hk0 & Hb0).
      destruct (decide (bucket_key field b0 = bucket_key field b)) as [Heq|Hne].
      * exists (bs ++ [b]). rewrite Heq, lookup_insert_eq. split; [done|].
        rewrite Heq, Hk in Hk0. injection Hk0 as <-.
        apply elem_of_app. by left.
      * exists bs0. by rewrite lookup_insert_ne.
  - destruct (inherited (bucket_key field b)); [done|].
    intros [= <-]. repeat split.
    + intros Hs k bs' b' Hk' Hb'.
      destruct (decide (k = bucket_key field b)) as [->|Hne].
      * rewrite lookup_insert_eq in Hk'. injection Hk' as <-.
        by apply list_elem_of_singleton in Hb' as ->.
      * rewrite lookup_insert_ne in Hk' by done. by apply (Hs _ bs').
    + exists [b]. rewrite lookup_insert_eq. split; [done|].
      by apply list_elem_of_singleton.
    + intros b0 (bs0 & Hk0 & Hb0).
      destruct (decide (bucket_key field b0 = bucket_key field b)) as [Heq|Hne].
      * rewrite Heq, Hk in Hk0. done.
      * exists bs0. by rewrite lookup_insert_ne.
Qed.

Lemma groupBoatsBy_invariant field boats : forall groups groups',
  for_each (bucket field) boats groups = Ok groups' ->
  (sorted_out field groups -> sorted_out field groups')
  /\ (forall b, b ∈ boats \/ placed field groups b -> placed field groups' b).
Proof.
  induction boats as [|b boats IH]; intros groups groups'; simpl.
  - intros [= <-]. split; [done|]. intros b0 [Hin | Hp]; [|done].
    by apply elem_of_nil in Hin.
  - destruct (bucket field groups b) as [g1|] eqn:Hb; unfold_result; [|done].
    intros Hrest. destruct (bucket_step _ _ _ _ Hb) as (Hs1 & Hp1 & Hk1).
    destruct (IH _ _ Hrest) as (Hs2 & Hp2). split; [auto|].
    intros b0 [[-> | Hin]%elem_of_cons | Hp]; apply Hp2; auto.
Qed.

(** C10.  [groupBoatsBy] puts a boat under "Unknown" whenever the selected
    field, [b[field]], is falsy (null, undefined, 0, the empty string,
    false, NaN): such a boat is in the bucket "Unknown" and in no other
    bucket, so boats whose key is the number 0 or the empty string never
    form a group of their own.  (A field that the boat does not hold but
    inherits from [Object.prototype] is not falsy.) *)
Theorem falsy_keys_are_grouped_under_Unknown boats field groups :
  groupBoatsBy boats field = Ok groups ->
  forall b, b ∈ boats -> member_truthy (read b field) = false ->
    (exists bs, groups !! "Unknown" = Some bs /\ b ∈ bs)
    /\ (forall k bs, groups !! k = Some bs -> b ∈ bs -> k = "Unknown").
Proof.
  unfold groupBoatsBy. intros Hg b Hb Hfalsy.
  destruct (groupBoatsBy_invariant _ _ _ _ Hg) as (Hs & Hp).
  assert (bucket_key field b = "Unknown") as Hkey.
  { unfold bucket_key. destruct (read b field) as [v|k]; [|done].
    cbn [member_truthy] in Hfalsy. unfold js_or. by rewrite Hfalsy. }
  split.
  - destruct (Hp b (or_introl Hb)) as (bs & Hk & Hin). rewrite Hkey in Hk. eauto.
  - intros k bs Hk Hin. rewrite <- Hkey. symmetry. apply (Hs ltac:(by intros ? ? ?) k bs b Hk Hin).
Qed.

End Grouping.

(** Boats whose key is 0, the empty string, false, NaN, null or missing
    share the bucket "Unknown"; the string "0" is a key of its own. *)
Lemma falsy_keys_are_grouped_under_Unknown_witness :
  groupBoatsBy boatsWithFalsyKeys "k" = Ok bucketsOfFalsyKeys
  /\ exists bs, bucketsOfFalsyKeys !! "Unknown" = Some bs
                /\ ({[ "id" := vint 1; "k" := vnum 0 ]} : gmap string value) ∈ bs.
Proof.
  split; [reflexivity|].
  apply (proj1 (falsy_keys_are_grouped_under_Unknown boatsWithFalsyKeys "k"
                  bucketsOfFalsyKeys ltac:(reflexivity)
                  {[ "id" := vint 1; "k" := vnum 0 ]}
                  ltac:(apply list_elem_of_here)
                  ltac:(vm_compute; reflexivity))).
Defined.

(** A boat that holds no property [constructor] inherits one, which is not
    falsy: its bucket is named by the text of the function. *)
Example inherited_fields_are_keys :
  groupBoatsBy [ {[ "id" := vint 1 ]} ] "constructor"
  = Ok {[ "function Object() { [native code] }" := [ {[ "id" := vint 1 ]} ] ]}
  /\ groupBoatsBy [ {[ "id" := vint 1; "constructor" := VNull ]} ] "constructor"
     = Ok {[ "Unknown" := [ {[ "id" := vint 1; "constructor" := VNull ]} ] ]}.
Proof. split; reflexivity. Qed.

(** ** Objects built by assignments *)

Section OwnProperties.
Context {A : Type}.
Implicit Types o : list (string * A).

Lemma own_Some_elem o k x : own k o = Some x -> (k, x) ∈ o.
Proof.
  induction o as [|[k' y] o IH]; simpl; [done|].
  destruct (String.eqb_spec k' k) as [->|Hne].
  - intros [= ->]. apply list_elem_of_here.
  - intros Ho. apply list_elem_of_further. auto.
Qed.

Lemma own_None_keys o k : own k o = None <-> k ∉ o.*1.
Proof.
  induction o as [|[k' y] o IH]; simpl.
  - split; [intros _; apply not_elem_of_nil | done].
  - rewrite not_elem_of_cons. destruct (String.eqb_spec k' k) as [->|Hne].
    + split; [done | by intros [? _]].
    + rewrite IH. split; [by split | by intros [_ ?]].
Qed.

Lemma assign_keys o k x :
  (assign k x o).*1 = match own k o with Some _ => o.*1 | None => o.*1 ++ [k] end.
Proof.
  induction o as [|[k' y] o IH]; [done|]. cbn [assign own].
  destruct (String.eqb_spec k' k) as [->|Hne]; [done|].
  rewrite !fmap_cons, IH. by destruct (own k o).
Qed.

Lemma NoDup_assign o k x : NoDup o.*1 -> NoDup (assign k x o).*1.
Proof.
  intros Hnd. rewrite assign_keys. destruct (own k o) eqn:Hk; [done|].
  apply NoDup_app. split; [done|]. split; [|apply NoDup_singleton].
  intros k' Hk' ->%list_elem_of_singleton. by apply own_None_keys in Hk.
Qed.

Lemma elem_of_assign o k x k' y :
  NoDup o.*1 -> (k', y) ∈ assign k x o ->
  (k' = k /\ y = x) \/ (k' <> k /\ (k', y) ∈ o).
Proof.
  induction o as [|[k0 y0] o IH]; simpl.
  - intros _ [= -> ->]%list_elem_of_singleton. by left.
  - intros [Hk0 Hnd]%NoDup_cons.
    destruct (String.eqb_spec k0 k) as [->|Hne].
    + intros [[= -> ->] | Hin]%elem_of_cons; [by left|]. right.
      split; [|by apply list_elem_of_further].
      intros ->. apply Hk0. by apply (list_elem_of_fmap_2 fst) in Hin.
    + intros [[= -> ->] | Hin]%elem_of_cons.
      * right. split; [done | apply list_elem_of_here].
      * destruct (IH Hnd Hin) as [? | [? ?]]; [by left|].
        right. split; [done | by apply list_elem_of_further].
Qed.

Lemma elem_of_insert_sorted (l : list (N * A)) i x y :
  y ∈ insert_sorted i x l -> y = (i, x) \/ y ∈ l.
Proof.
  induction l as [|[j z] l IH]; simpl.
  - intros ->%list_elem_of_singleton. by left.
  - destruct (i <? j)%N.
    + intros [-> | Hin]%elem_of_cons; [by left | by right].
    + intros [-> | Hin]%elem_of_cons; [right; apply list_elem_of_here|].
      destruct (IH Hin) as [-> | ?]; [by left|].
      right. by apply list_elem_of_further.
Qed.

(** Every value listed by [Object.values] is the value of a property. *)
Lemma elem_of_Object_values o x :
  x ∈ Object_values o -> exists k, (k, x) ∈ o.
Proof.
  unfold Object_values. intros [Hx | Hx]%elem_of_app.
  - apply list_elem_of_fmap in Hx as ([i x'] & -> & Hin). simpl.
    induction o as [|[k y] o IH]; simpl in Hin; [by apply elem_of_nil in Hin|].
    destruct (array_index k).
    + apply elem_of_insert_sorted in Hin as [[= -> ->] | Hin].
      * exists k. apply list_elem_of_here.
      * destruct (IH Hin) as [k' ?]. exists k'. by apply list_elem_of_further.
    + destruct (IH Hin) as [k' ?]. exists k'. by apply list_elem_of_further.
  - apply list_elem_of_fmap in Hx as ([k x'] & -> & Hin).
    apply list_elem_of_filter in Hin as [_ Hin]. by exists k.
Qed.

End OwnProperties.

(** ** The groups of [aggregateByISIC] *)

Section Groups.
Context `{Host}.

Implicit Types groups : list (string * group).

Lemma filter_snoc_same k (seen : list (gmap string value)) b :
  isic_key b = k ->
  filter (fun b => isic_key b = k) (seen ++ [b])
  = filter (fun b => isic_key b = k) seen ++ [b].
Proof. intros Hk. rewrite filter_app. by rewrite (filter_cons_True _ b []). Qed.

Lemma filter_snoc_other k (seen : list (gmap string value)) b :
  isic_key b <> k ->
  filter (fun b => isic_key b = k) (seen ++ [b])
  = filter (fun b => isic_key b = k) seen.
Proof.
  intros Hk. rewrite filter_app. rewrite (filter_cons_False _ b []) by done.
  by rewrite filter_nil, app_nil_r.
Qed.

Lemma group_boat_grouped isics seen groups b groups' :
  group_boat isics groups b = Ok groups' ->
  grouped seen groups -> grouped (seen ++ [b]) groups'.
Proof.
  unfold group_boat. fold (isic_key b). intros Hstep (Hnd & Hg & Hseen).
  destruct (own (isic_key b) groups) as [g|] eqn:Hown.
  - injection Hstep as <-. split; [by apply NoDup_assign|]. split.
    + intros k g' Hin. apply elem_of_assign in Hin as [[-> ->] | [Hne Hin]]; [| |done].
      * destruct (Hg _ _ (own_Some_elem _ _ _ Hown)) as [Hb _]. simpl.
        rewrite filter_snoc_same by done. rewrite Hb. split; [done|].
        by destruct (filter _ seen).
      * rewrite filter_snoc_other by done. by apply Hg.
    + rewrite assign_keys, Hown.
      intros b' [Hb' | ->%list_elem_of_singleton]%elem_of_app; [by apply Hseen|].
      apply own_Some_elem in Hown. by apply (list_elem_of_fmap_2 fst) in Hown.
  - destruct (inherited (isic_key b)); [done|].
    destruct (group_info isics b) as [i|]; unfold_result; [|done].
    injection Hstep as <-. split; [by apply NoDup_assign|]. split.
    + intros k g' Hin. apply elem_of_assign in Hin as [[-> ->] | [Hne Hin]]; [| |done].
      * simpl. rewrite filter_snoc_same by done.
        assert (filter (fun b0 => isic_key b0 = isic_key b) seen = []) as ->; [|done].
        apply own_None_keys in Hown.
        destruct (filter _ seen) as [|b0 rest] eqn:Hf; [done|].
        assert (b0 ∈ filter (fun b0 => isic_key b0 = isic_key b) seen) as Hb0.
        { rewrite Hf. apply list_elem_of_here. }
        apply list_elem_of_filter in Hb0 as [Hk Hb0].
        apply Hseen in Hb0. by rewrite Hk in Hb0.
      * rewrite filter_snoc_other by done. by apply Hg.
    + rewrite assign_keys, Hown.
      intros b' [Hb' | ->%list_elem_of_singleton]%elem_of_app.
      * apply elem_of_app. left. by apply Hseen.
      * apply elem_of_app. right. by apply list_elem_of_singleton.
Qed.

Lemma for_each_grouped isics bs : forall seen groups groups',
  for_each (group_boat isics) bs groups = Ok groups' ->
  grouped seen groups -> grouped (seen ++ bs) groups'.
Proof.
  induction bs as [|b bs IH]; intros seen groups groups'; simpl.
  - intros [= <-]. by rewrite app_nil_r.
  - destruct (group_boat isics groups b) as [g1|] eqn:Hb; unfold_result; [|done].
    intros Hrest Hg. rewrite (cons_middle b), app_assoc.
    apply (IH _ _ _ Hrest). by apply (group_boat_grouped isics _ groups).
Qed.

Lemma grouped_nil : grouped [] [].
Proof.
  split; [apply NoDup_nil_2|]. split.
  - intros k g Hin. by apply elem_of_nil in Hin.
  - intros b Hin. by apply elem_of_nil in Hin.
Qed.

End Groups.

(** ** The averages of a group *)

Lemma fold_left_projection {S B T : Type} (f : S -> B -> S) (p : S -> T)
    (g : T -> B -> T) :
  (forall s b, p (f s b) = g (p s) b) ->
  forall bs s, p (fold_left f bs s) = fold_left g bs (p s).
Proof.
  intros Hstep bs. induction bs as [|b bs IH]; intros s; simpl; [done|].
  by rewrite IH, Hstep.
Qed.

(** Rounding depends on the number only, never gives NaN, and leaves a whole
    number of 53 bits at most as it is. *)
Lemma round_double_Qeq q q' : (q == q')%Q -> round_double q = round_double q'.
Proof. intros Hq. unfold round_double. by rewrite (Qred_complete q q' Hq). Qed.

Lemma round_double_not_NaN q : round_double q <> NaN.
Proof.
  unfold round_double. destruct (Qnum (Qred q)); [done| |];
    by destruct (round_magnitude _ _).
Qed.

Lemma Qred_inject_Z z : Qred (inject_Z z) = inject_Z z.
Proof.
  unfold Qred, inject_Z.
  generalize (Z.ggcd_gcd z 1) (Z.ggcd_correct_divisors z 1).
  destruct (Z.ggcd z 1) as [g [n d]]. cbn [fst snd]. rewrite Z.gcd_1_r.
  intros -> [Hn Hd]. rewrite Z.mul_1_l in Hn, Hd. by subst.
Qed.

Lemma round_magnitude_whole a :
  0 < a <= 2 ^ 53 ->
  exists r, round_magnitude a 1 = Some r /\ (r == inject_Z a)%Q.
Proof.
  intros [Hpos Hle]. unfold round_magnitude.
  change (Z.log2 1) with 0. rewrite Z.pow_0_r, Z.mul_1_r, Z.mul_1_l, Z.sub_0_r.
  pose proof (Z.log2_spec a Hpos) as [Hlow Hhigh].
  pose proof (Z.log2_nonneg a) as Hnn.
  destruct (Z.ltb_spec a (2 ^ Z.log2 a)) as [?|_]; [lia|]. rewrite Z.sub_0_r.
  assert (Z.log2 a <= 53) as H53.
  { transitivity (Z.log2 (2 ^ 53)); [by apply Z.log2_le_mono|].
    by rewrite Z.log2_pow2. }
  assert (forall n, round_half_even n 1 = n) as Hone.
  { intros n. unfold round_half_even. rewrite Z.mod_1_r, Z.div_1_r. done. }
  destruct (Z.max_spec (Z.log2 a - 52) (-1074)) as [[? _] | [_ ->]]; [lia|].
  destruct (Z.leb_spec 0 (Z.log2 a - 52)) as [Hge|Hlt].
  - assert (a mod 2 ^ (Z.log2 a - 52) = 0) as Hmod.
    { destruct (Z.eq_dec (Z.log2 a) 52) as [->|Hne].
      - apply Z.mod_1_r.
      - assert (Z.log2 a = 53) as H53' by lia. rewrite H53' in *.
        assert (a = 2 ^ 53) as -> by lia. done. }
    assert (0 < 2 ^ (Z.log2 a - 52)) as Hp by (apply Z.pow_pos_nonneg; lia).
    assert (round_half_even a (1 * 2 ^ (Z.log2 a - 52)) * 2 ^ (Z.log2 a - 52) = a) as Hm.
    { unfold round_half_even. rewrite Z.mul_1_l, Hmod.
      destruct (Z.compare_spec (2 * 0) (2 ^ (Z.log2 a - 52))); try lia.
      rewrite Z.mul_comm. symmetry.
      rewrite (Z.div_mod a (2 ^ (Z.log2 a - 52))) at 1 by lia. lia. }
    rewrite Hm. destruct (Z.leb_spec (2 ^ 1024) a) as [Hbig|_].
    + assert (2 ^ 53 < 2 ^ 1024) by (apply Z.pow_lt_mono_r; lia). lia.
    + by eexists.
  - eexists. split; [done|]. rewrite Hone.
    assert (0 < 2 ^ (- (Z.log2 a - 52))) as Hp by (apply Z.pow_pos_nonneg; lia).
    unfold Qeq, inject_Z. cbn [Qnum Qden]. rewrite Z2Pos.id by done. lia.
Qed.

Lemma round_double_Z z :
  Z.abs z <= 2 ^ 53 -> round_double (inject_Z z) = Fin (inject_Z z).
Proof.
  intros Hz. unfold round_double. rewrite Qred_inject_Z. cbn [Qnum Qden inject_Z].
  destruct z as [|a|a]; [done| |].
  - destruct (round_magnitude_whole (Zpos a)) as (r & -> & Hr); [lia|].
    f_equal. rewrite <- (Qred_inject_Z (Zpos a)). by apply Qred_complete.
  - destruct (round_magnitude_whole (Zpos a)) as (r & -> & Hr); [lia|].
    f_equal. rewrite <- (Qred_inject_Z (Zneg a)). apply Qred_complete.
    rewrite Hr. done.
Qed.

(** The sums and means in double arithmetic. *)
Lemma double_sum_from_not_NaN qs : forall x,
  x <> NaN -> fold_left (fun s q => num_add s (Fin q)) qs x <> NaN.
Proof.
  induction qs as [|q qs IH]; intros x Hx; [done|]. cbn [fold_left]. apply IH.
  destruct x; try done. apply round_double_not_NaN.
Qed.

Lemma double_mean_not_NaN qs : double_mean qs <> NaN.
Proof.
  destruct qs as [|q0 qs]; [done|]. unfold double_mean.
  pose proof (double_sum_from_not_NaN (q0 :: qs) (Fin 0) ltac:(done)) as Hs.
  fold (double_sum (q0 :: qs)) in Hs.
  destruct (double_sum (q0 :: qs)); try done. apply round_double_not_NaN.
Qed.

Lemma Math_min_100_at_most x :
  x <> NaN ->
  Math_min_100 x <> NaN /\ num_lt (Fin 100) (Math_min_100 x) = Some false.
Proof.
  destruct x as [| | |a]; try done. intros _. cbn [Math_min_100].
  destruct (Qle_bool 100 a) eqn:Hle; [done|]. split; [done|].
  cbn [num_lt]. unfold Qltb.
  assert (Qle_bool a 100 = true) as ->; [|done].
  apply Qle_bool_iff, Qlt_le_weak, Qnot_le_lt. intros Ha%Qle_bool_iff. congruence.
Qed.

Lemma is_double_rounds q :
  is_double q = true -> exists q', round_double q = Fin q' /\ (q' == q)%Q.
Proof.
  unfold is_double. destruct (round_double q) as [| | |q']; try done.
  intros Hq%Qeq_bool_iff. by exists q'.
Qed.

Lemma exact_sums_from_sum qs : forall s s',
  (s' == s)%Q -> exact_sums_from s qs = true ->
  exists t, fold_left (fun s q => num_add s (Fin q)) qs (Fin s') = Fin t
            /\ (t == s + fold_right Qplus 0 qs)%Q.
Proof.
  induction qs as [|q qs IH]; intros s s' Hs; cbn [exact_sums_from fold_left fold_right].
  - intros _. exists s'. split; [done|]. rewrite Hs. ring.
  - intros [Hd He]%andb_true_iff.
    destruct (is_double_rounds _ Hd) as (q' & Hr & Hq').
    cbn [num_add]. rewrite (round_double_Qeq (s' + q) (s + q)) by (by rewrite Hs).
    rewrite Hr. destruct (IH (s + q)%Q q' Hq' He) as (t & -> & Ht).
    exists t. split; [done|]. rewrite Ht. ring.
Qed.

Lemma exact_double_mean qs :
  exact_sums qs = true -> double_mean qs = round_double (arithmetic_mean qs).
Proof.
  destruct qs as [|q0 qs]; [done|]. intros He.
  destruct (exact_sums_from_sum (q0 :: qs) 0 0 ltac:(done) He) as (t & Ht & Heq).
  unfold double_mean, double_sum. rewrite Ht. cbn [num_div_count].
  apply round_double_Qeq. unfold arithmetic_mean. by rewrite Heq, Qplus_0_l.
Qed.

Lemma whole_percentage_number q :
  whole_percentage q = true -> exists n, (q == inject_Z n)%Q /\ 0 <= n <= 100.
Proof.
  unfold whole_percentage.
  intros [[Hd%Pos.eqb_eq Hlow%Z.leb_le]%andb_true_iff Hhigh%Z.leb_le]%andb_true_iff.
  exists (Qnum (Qred q)). split; [|done]. rewrite <- (Qred_correct q) at 1.
  destruct (Qred q) as [n d]. cbn [Qnum Qden] in *. by subst.
Qed.

Lemma whole_sums_from qs : forall s z,
  (s == inject_Z z)%Q -> 0 <= z -> z + 100 * Z.of_nat (length qs) <= 2 ^ 53 ->
  forallb whole_percentage qs = true -> exact_sums_from s qs = true.
Proof.
  induction qs as [|q qs IH]; intros s z Hs Hz Hlen; [done|].
  cbn [forallb exact_sums_from length] in *.
  intros [(n & Hq & Hn)%whole_percentage_number Hqs]%andb_true_iff.
  assert (s + q == inject_Z (z + n))%Q as Hsum.
  { rewrite Hs, Hq. by rewrite inject_Z_plus. }
  apply andb_true_iff. split.
  - unfold is_double. rewrite (round_double_Qeq _ _ Hsum), round_double_Z by lia.
    apply Qeq_bool_iff. by symmetry.
  - apply (IH _ (z + n)); [done | lia | lia | done].
Qed.

Lemma whole_sums_are_exact qs :
  forallb whole_percentage qs = true -> Z.of_nat (length qs) <= 2 ^ 46 ->
  exact_sums qs = true.
Proof.
  intros Hqs Hlen. apply (whole_sums_from qs 0 0); [done | done | | done].
  change (2 ^ 53) with (128 * 2 ^ 46). lia.
Qed.

Section Averages.
Context `{Host}.

Lemma sums_of_group bs :
  let a := fold_left add_boat bs no_sums in
  nProd a = fold_left (count_boat "essNiprProductCompliance" true) bs (vnum 0, O)
  /\ nPol a = fold_left (count_boat "essNiprTruePolicy" true) bs (vnum 0, O)
  /\ nPolRaw a = fold_left (count_boat "essNiprPolicyEnforced" true) bs (vnum 0, O)
  /\ sProd a = fold_left (count_boat "essSiprProductCompliance" false) bs (vnum 0, O)
  /\ sPol a = fold_left (count_boat "essSiprTruePolicy" false) bs (vnum 0, O)
  /\ sPolRaw a = fold_left (count_boat "essSiprPolicyEnforced" false) bs (vnum 0, O).
Proof.
  cbn zeta. repeat split;
    lazymatch goal with
    | |- ?p (fold_left add_boat _ _) = fold_left ?g _ _ =>
        apply (fold_left_projection add_boat p g)
    end;
    intros s b; unfold add_boat, count_boat;
    cbn [nProd nPol nPolRaw sProd sPol sPolRaw andb];
    by destruct (truthy (prop b "isNmci")).
Qed.

Lemma typed_percentage b field :
  typed_percentages b = true -> field ∈ compliance_fields ->
  percentage (prop b field) = true.
Proof.
  unfold typed_percentages. rewrite forallb_forall. intros Hb Hf.
  apply Hb. by apply list_elem_of_In.
Qed.

(** The sum and the count of a metric are those of the values reported. *)
Lemma count_boats field excludable bs :
  field ∈ compliance_fields ->
  forallb typed_percentages bs = true ->
  forall x n,
    fold_left (count_boat field excludable) bs (VNum x, n)
    = (VNum (fold_left (fun s q => num_add s (Fin q)) (reported field excludable bs) x),
       (n + length (reported field excludable bs))%nat).
Proof.
  intros Hf. induction bs as [|b bs IH]; intros Hbs x n.
  - simpl. by rewrite Nat.add_0_r.
  - simpl in Hbs. apply andb_prop in Hbs as [Hb Hbs].
    pose proof (typed_percentage b field Hb Hf) as Hp.
    cbn [fold_left].
    assert (reported field excludable (b :: bs)
            = (if excludable && truthy (prop b "isNmci") then []
               else match prop b field with VNum (Fin q) => [q] | _ => [] end)
              ++ reported field excludable bs) as -> by done.
    unfold count_boat at 2.
    destruct (excludable && truthy (prop b "isNmci")); [by apply IH|].
    destruct (prop b field) as [| | |[| | |q]| |]; try done; [by apply IH|].
    change (count_in (VNum x, n) (VNum (Fin q))) with (VNum (num_add x (Fin q)), S n).
    rewrite (IH Hbs). cbn [app length fold_left]. f_equal. lia.
Qed.

Lemma average_of_sum qs :
  average (VNum (double_sum qs), length qs) = capped_double_mean qs.
Proof. by destruct qs. Qed.

Lemma group_average field excludable bs :
  field ∈ compliance_fields ->
  forallb typed_percentages bs = true ->
  average (fold_left (count_boat field excludable) bs (vnum 0, O))
  = capped_double_mean (reported field excludable bs).
Proof.
  intros Hf Hbs. unfold vnum. rewrite (count_boats field excludable bs Hf Hbs).
  cbn [Nat.add]. apply average_of_sum.
Qed.

Lemma aggregate_group_averages g :
  forallb typed_percentages (boats g) = true ->
  averages_of (aggregate_group g) (boats g).
Proof.
  intros Hbs. unfold averages_of, aggregate_group.
  cbn [niprProdCompAvg niprPolEnfAvg niprPolRawAvg
       siprProdCompAvg siprPolEnfAvg siprPolRawAvg].
  destruct (sums_of_group (boats g)) as (-> & -> & -> & -> & -> & ->).
  repeat split; apply group_average; try done;
    apply list_elem_of_In; simpl; tauto.
Qed.

Lemma forallb_filter_weaken {A} (p : A -> bool) (P : A -> Prop)
    `{forall x, Decision (P x)} (l : list A) :
  forallb p l = true -> forallb p (filter P l) = true.
Proof.
  rewrite !forallb_forall. intros Hl x Hx%list_elem_of_In%list_elem_of_filter.
  apply Hl, list_elem_of_In. tauto.
Qed.

(** C7, as the code has it.  For boats whose six percentages are [null] or
    finite numbers, each average of a group of [aggregateByISIC] is computed
    from exactly the values that the boats of the group report for the
    metric (leaving out the NIPR values of NMCI boats): their sum in double
    arithmetic, from the left, divided by their number and capped at 100,
    and 0 when no boat reports a value.  Such an average is never NaN and
    never above 100; it is the arithmetic mean rounded to the nearest
    double, capped at 100, whenever no sum met on the way is rounded, as
    for whole percentages from 0 to 100.  Aggregating no boat gives no
    group (and [calculateStats] gives zero counts and averages); two boats
    of one group with a product compliance of 90 and of 100 have a group
    average of 95. *)
Theorem group_averages_are_capped_means :
  (forall boats isics csl csp,
     forallb typed_percentages boats = true ->
     aggregateByISIC boats isics = Ok (csl, csp) ->
     forall a, a ∈ csl ++ csp ->
       exists k,
         let bs := filter (fun b => isic_key b = k) boats in
         bs <> [] /\ boatCount a = length bs /\ averages_of a bs)
  /\ (forall qs,
        capped_double_mean qs <> NaN
        /\ num_lt (Fin 100) (capped_double_mean qs) = Some false
        /\ (exact_sums qs = true ->
            capped_double_mean qs = Math_min_100 (round_double (arithmetic_mean qs)))
        /\ (forallb whole_percentage qs = true -> Z.of_nat (length qs) <= 2 ^ 46 ->
            exact_sums qs = true))
  /\ (forall isics, aggregateByISIC [] isics = Ok ([], []))
  /\ calculateStats []
     = {| totalBoats := 0; stats_highRiskCount := 0; stats_medRiskCount := 0;
          stats_lowRiskCount := 0; totalBreakfix := vnum 0;
          stats_scanExemptCount := 0; avgVph := Fin 0; avgCompliance := Fin 0 |}
  /\ (exists a,
        aggregateByISIC
          [ createHealthyBoat {[ "essNiprProductCompliance" := vnum 90 ]};
            createHealthyBoat {[ "essNiprProductCompliance" := vnum 100 ]} ] []
        = Ok ([a], [])
        /\ niprProdCompAvg a = Fin 95).
Proof.
  split; [|split; [|split; [done|split; [done|]]]].
  - intros bs isics csl csp Htyped. unfold aggregateByISIC.
    destruct (for_each (group_boat isics) bs []) as [groups|] eqn:Hgroups;
      unfold_result; [|done].
    intros [= <- <-] a Ha.
    assert (a ∈ aggregate_group <$> Object_values groups) as Hagg.
    { apply elem_of_app in Ha as [Ha | Ha];
        by apply list_elem_of_filter in Ha as [_ Ha]. }
    apply list_elem_of_fmap in Hagg as (g & -> & Hg).
    apply elem_of_Object_values in Hg as [k Hg].
    destruct (for_each_grouped _ _ [] _ _ Hgroups grouped_nil) as (_ & Hboats & _).
    destruct (Hboats k g Hg) as [Hb Hne]. simpl in Hb.
    exists k. cbn zeta. rewrite <- Hb. split; [done|]. split; [done|].
    apply aggregate_group_averages. rewrite Hb. by apply forallb_filter_weaken.
  - intros qs. unfold capped_double_mean.
    destruct (Math_min_100_at_most _ (double_mean_not_NaN qs)) as [Hn Hle].
    split; [done|]. split; [done|]. split.
    + intros He. by rewrite (exact_double_mean qs He).
    + apply whole_sums_are_exact.
  - eexists. split; [vm_compute; reflexivity|]. vm_compute; reflexivity.
Qed.

End Averages.

(** Two healthy boats of COMSUBRON 1 with a NIPR product compliance of 90 and
    of 100: the group has two boats and the average 95. *)
Lemma group_averages_are_capped_means_witness :
  exists a csp,
    aggregateByISIC
      [ createHealthyBoat {[ "essNiprProductCompliance" := vnum 90 ]};
        createHealthyBoat {[ "essNiprProductCompliance" := vnum 100 ]} ] []
    = Ok ([a], csp)
    /\ exists k,
         let bs := filter (fun b => isic_key b = k)
                     [ createHealthyBoat {[ "essNiprProductCompliance" := vnum 90 ]};
                       createHealthyBoat {[ "essNiprProductCompliance" := vnum 100 ]} ] in
         bs <> [] /\ boatCount a = length bs /\ averages_of a bs.
Proof.
  eexists. exists []. split; [vm_compute; reflexivity|].
  eapply (proj1 group_averages_are_capped_means _ [] _ []).
  - vm_compute; reflexivity.
  - vm_compute; reflexivity.
  - apply list_elem_of_here.
Defined.

(** C7, as stated, fails.  A boat in which the property is absent reports no
    value, but only [null] is left out: the boat is counted and the average
    is NaN, not 0.  Sums are sums of doubles: those of 2^1023, 2^1023,
    -2^1023 and -2^1023 overflow and the average is 100, where the
    arithmetic mean is 0; the average of 98, 99 and 99 is the double
    98.66666666666667, near 296/3 but not equal to it. *)
Lemma averages_that_are_no_arithmetic_means :
  (exists a,
     aggregateByISIC [ silent ] [] = Ok ([a], [])
     /\ reported "essSiprProductCompliance" false [ silent ] = []
     /\ siprProdCompAvg a = NaN)
  /\ (exists a,
        let big := inject_Z (2 ^ 1023) in
        aggregateByISIC
          [ complying big; complying big; complying (- big); complying (- big) ] []
        = Ok ([a], [])
        /\ forallb typed_percentages
             [ complying big; complying big; complying (- big); complying (- big) ] = true
        /\ siprProdCompAvg a = Fin 100
        /\ (arithmetic_mean [ big; big; - big; - big ] == 0)%Q)
  /\ (exists a,
        aggregateByISIC [ complying 98; complying 99; complying 99 ] []
        = Ok ([a], [])
        /\ siprProdCompAvg a = Fin (6943049425529515 # 70368744177664)
        /\ (arithmetic_mean [ 98; 99; 99 ] == 296 # 3)%Q
        /\ ~ (6943049425529515 # 70368744177664 == 296 # 3)%Q).
Proof.
  split; [|split].
  - eexists. split; [vm_compute; reflexivity|]. split; vm_compute; reflexivity.
  - eexists. cbn zeta. split; [vm_compute; reflexivity|].
    split; [vm_compute; reflexivity|]. split; vm_compute; reflexivity.
  - eexists. split; [vm_compute; reflexivity|].
    split; [vm_compute; reflexivity|]. split; [vm_compute; reflexivity|].
    vm_compute. discriminate.
Qed.

(** ** Malformed records *)

Section Malformed.
Context `{Host}.

Lemma fired_total cs :
  Forall (fun c : check => c.1 = true -> exists s, c.2 = Ok s) cs ->
  exists rs, fired cs = Ok rs.
Proof.
  induction 1 as [|[b r] cs Hc _ [rs IH]]; [by exists []|]. simpl in *.
  destruct b; [|by exists rs].
  destruct (Hc eq_refl) as [s ->]. unfold_result. rewrite IH. by eexists.
Qed.

Lemma numeric_field b f :
  numeric_fields b = true -> f ∈ fixed_fields -> number_or_absent (prop b f) = true.
Proof.
  unfold numeric_fields. rewrite forallb_forall. intros Hb Hf.
  apply Hb. by apply list_elem_of_In.
Qed.

Lemma lt_undefined_r v : lt v VUndef = false.
Proof. unfold lt. by rewrite (js_lt_nan_r v VUndef). Qed.

Lemma lt_undefined_l v : lt VUndef v = false.
Proof. unfold lt. by rewrite (js_lt_nan_l v VUndef). Qed.

Lemma le_undefined_r v : le v VUndef = false.
Proof. unfold le. by rewrite (js_lt_nan_l v VUndef). Qed.

(** A reason that is printed with [toFixed] is printed for a number. *)
Lemma below_number v thr : number_or_absent v = true -> below v thr = true ->
  exists n, v = VNum n.
Proof.
  unfold below. destruct v; try done; try (by eexists).
  all: by rewrite lt_undefined_l.
Qed.

Lemma above_number v thr : number_or_absent v = true -> above v thr = true ->
  exists n, v = VNum n.
Proof.
  unfold above, gt. destruct v; try done; try (by eexists).
  all: by rewrite lt_undefined_r.
Qed.

Lemma at_least_number v thr : number_or_absent v = true -> at_least v thr = true ->
  exists n, v = VNum n.
Proof.
  unfold at_least, ge. destruct v; try done; try (by eexists).
  all: by rewrite le_undefined_r.
Qed.

Lemma plain_returns label v : exists s, plain label v = Ok s.
Proof. by eexists. Qed.

Lemma days_returns label age : exists s, days label age = Ok s.
Proof. destruct age; by eexists. Qed.

(** Closes [c.1 = true -> exists s, c.2 = Ok s] for one check. *)
Ltac check_returns Hb :=
  let Hc := fresh in
  cbn [fst snd]; intros Hc; split_conditions;
  first
    [ apply plain_returns
    | apply days_returns
    | by eexists
    | lazymatch goal with
      | |- exists s, _ _ (prop ?b ?f) = Ok s =>
          let Hf := fresh in
          assert (number_or_absent (prop b f) = true) as Hf
            by (apply (numeric_field b f Hb), list_elem_of_In; simpl; tauto);
          let n := fresh in let Hn := fresh in
          first [ edestruct (below_number (prop b f)) as [n Hn]; [exact Hf | eassumption |]
                | edestruct (above_number (prop b f)) as [n Hn]; [exact Hf | eassumption |]
                | edestruct (at_least_number (prop b f)) as [n Hn]; [exact Hf | eassumption |] ];
          rewrite Hn; by eexists
      end ].

Lemma checks_return boat t l :
  numeric_fields boat = true ->
  Forall (fun c : check => c.1 = true -> exists s, c.2 = Ok s)
         (highChecks boat t l ++ medChecks boat t l ++ lowChecks boat t l).
Proof.
  intros Hb. unfold highChecks, medChecks, lowChecks. cbn [app].
  repeat apply Forall_cons_2; try apply Forall_nil_2; check_returns Hb.
Qed.

Lemma calculateRisk_returns boat thresholds :
  numeric_fields boat = true -> exists r, calculateRisk boat thresholds = Ok r.
Proof.
  intros Hb. rewrite calculateRisk_stages. unfold stages.
  pose proof (checks_return boat (config thresholds) (read_locals boat) Hb) as Hall.
  rewrite !Forall_app in Hall. destruct Hall as (Hh & Hm & Hl).
  destruct (fired_total _ Hh) as [hs ->].
  destruct (fired_total _ Hm) as [ms ->].
  destruct (fired_total _ Hl) as [ls ->]. unfold_result.
  destruct (any_fires (highChecks _ _ _)); [by eexists|].
  destruct (2 <=? length ms)%nat; [by eexists|].
  destruct (any_fires (lowChecks _ _ _)); by eexists.
Qed.

End Malformed.

Section NotReported.
Context `{Host}.

Lemma below_absent v thr : absent_or_nan v = true -> below v thr = false.
Proof.
  unfold below. by destruct v as [| | |[| | |q]| |].
Qed.

Lemma below_null thr : below VNull thr = false.
Proof. done. Qed.

Lemma breakfix_absent v :
  absent_or_nan v = true -> gt (js_or v (vnum 0)) (vnum 0) = false.
Proof. by destruct v as [| | |[| | |q]| |]. Qed.

Lemma breakfix_null : gt (js_or VNull (vnum 0)) (vnum 0) = false.
Proof. done. Qed.

Variables (boat : gmap string value) (f : string) (v : value).
Hypothesis Hf : f ∈ skippable_fields.
Hypothesis Hv : absent_or_nan v = true.

Ltac skippable_cases :=
  let Hin := fresh in
  pose proof Hf as Hin; unfold skippable_fields in Hin;
  repeat (apply elem_of_cons in Hin as [-> | Hin]);
  [ .. | by apply elem_of_nil in Hin ].

Ltac read_field :=
  rewrite ?prop_insert_eq; rewrite ?prop_insert_ne by discriminate.

Ltac switched_off :=
  rewrite ?(below_absent v _ Hv), ?below_null, ?(breakfix_absent v Hv), ?breakfix_null,
          ?andb_false_r;
  cbn [andb];
  repeat first
    [ apply Forall2_nil_2
    | apply Forall2_cons_2;
      [ first [ apply same_check_refl | apply same_check_quiet ] | ] ].

Lemma not_reported_locals :
  read_locals (<[f := v]> boat) = read_locals (<[f := VNull]> boat).
Proof using Hf.
  skippable_cases; unfold read_locals; by read_field.
Qed.

Lemma not_reported_highChecks t l :
  Forall2 same_check (highChecks (<[f := v]> boat) t l)
                     (highChecks (<[f := VNull]> boat) t l).
Proof using Hf Hv.
  skippable_cases; unfold highChecks; read_field; switched_off.
Qed.

Lemma not_reported_medChecks t l :
  Forall2 same_check (medChecks (<[f := v]> boat) t l)
                     (medChecks (<[f := VNull]> boat) t l).
Proof using Hf Hv.
  skippable_cases; unfold medChecks; read_field; switched_off.
Qed.

Lemma not_reported_lowChecks t l :
  Forall2 same_check (lowChecks (<[f := v]> boat) t l)
                     (lowChecks (<[f := VNull]> boat) t l).
Proof using Hf Hv.
  skippable_cases; unfold lowChecks; read_field; switched_off.
Qed.

Lemma not_reported_exemptStage l s :
  exemptStage (<[f := v]> boat) l s = exemptStage (<[f := VNull]> boat) l s.
Proof using Hf.
  skippable_cases; unfold exemptStage, isScanExempt; by read_field.
Qed.

Lemma not_reported_same_result thresholds :
  calculateRisk (<[f := v]> boat) thresholds
  = calculateRisk (<[f := VNull]> boat) thresholds.
Proof using Hf Hv.
  rewrite !calculateRisk_stages. unfold stages. rewrite not_reported_locals.
  rewrite (fired_same _ _ (not_reported_highChecks _ _)).
  rewrite (any_fires_same _ _ (not_reported_highChecks _ _)).
  rewrite (fired_same _ _ (not_reported_medChecks _ _)).
  rewrite (fired_same _ _ (not_reported_lowChecks _ _)).
  rewrite (any_fires_same _ _ (not_reported_lowChecks _ _)).
  destruct (fired (highChecks _ _ _)) as [hs|]; unfold_result; [|done].
  by rewrite not_reported_exemptStage.
Qed.

End NotReported.

Section Returning.
Context `{Host} `{Text}.

Lemma complianceClass_returns green red v thresholds :
  thresholds <> CNull ->
  exists c, complianceClass green red v thresholds = Ok c
            /\ (null_or_undefined v = true -> c = "").
Proof.
  intros Ht. unfold complianceClass.
  destruct (null_or_undefined v); [by eexists|].
  destruct thresholds; try done; unfold_result; by eexists.
Qed.

Lemma vphClass_returns v thresholds :
  thresholds <> CNull ->
  exists c, vphClass v thresholds = Ok c /\ (null_or_undefined v = true -> c = "").
Proof.
  intros Ht. unfold vphClass.
  destruct (null_or_undefined v); [by eexists|].
  destruct thresholds; try done; unfold_result; by eexists.
Qed.

Lemma scanAgeClass_returns d thresholds :
  thresholds <> CNull -> exists c, scanAgeClass d thresholds = Ok c.
Proof.
  intros Ht. unfold scanAgeClass.
  destruct (negb (truthy d)); [by eexists|].
  destruct (date_value d); [|by eexists].
  destruct thresholds; try done; unfold_result; by eexists.
Qed.

Lemma bucket_returns field groups b :
  negb (inherited (bucket_key field b)) = true ->
  exists groups', bucket field groups b = Ok groups'.
Proof.
  intros Hb. unfold bucket. cbv zeta.
  destruct (groups !! bucket_key field b); [by eexists|].
  apply negb_true_iff in Hb as ->. by eexists.
Qed.

Lemma groupBoatsBy_returns field boats :
  forallb (fun b => negb (inherited (bucket_key field b))) boats = true ->
  exists groups, groupBoatsBy boats field = Ok groups.
Proof.
  unfold groupBoatsBy. generalize (∅ : gmap string (list (gmap string value))).
  induction boats as [|b boats IH]; intros groups Hk; [by eexists|].
  cbn [forallb] in Hk. apply andb_prop in Hk as [Hb Hk].
  destruct (bucket_returns field groups b Hb) as [groups' Hstep].
  cbn [for_each]. rewrite Hstep. unfold_result. by apply IH.
Qed.

Lemma group_boat_returns isics groups b :
  plain_isic b = true -> exists groups', group_boat isics groups b = Ok groups'.
Proof.
  unfold group_boat, group_info, plain_isic.
  destruct (prop b "isic") as [| | | |s|]; try done. cbn [ToString slice_0_6].
  intros Hb. destruct (own s groups); [by eexists|].
  apply negb_true_iff in Hb as ->.
  destruct (find _ isics); unfold_result; by eexists.
Qed.

Lemma aggregateByISIC_returns boats isics :
  forallb plain_isic boats = true ->
  exists csl csp, aggregateByISIC boats isics = Ok (csl, csp).
Proof.
  unfold aggregateByISIC. intros Hk.
  assert (exists groups, for_each (group_boat isics) boats [] = Ok groups) as [groups ->];
    [|unfold_result; by do 2 eexists].
  revert Hk. generalize ([] : list (string * group)).
  induction boats as [|b boats IH]; intros groups Hk; [by eexists|].
  cbn [forallb] in Hk. apply andb_prop in Hk as [Hb Hk].
  destruct (group_boat_returns isics groups b Hb) as [groups' Hstep].
  cbn [for_each]. rewrite Hstep. unfold_result. by apply IH.
Qed.


End Returning.



(** * Further properties of the code *)

(** ** [calculateRisk]: reasons and thresholds *)

Section Reasons.
Context `{Host}.

Lemma fired_Forall (P : string -> Prop) cs : forall rs,
  fired cs = Ok rs ->
  Forall (fun c : check => forall s, c.2 = Ok s -> P s) cs -> Forall P rs.
Proof.
  induction cs as [|[b r] cs IH]; intros rs Hf Hcs; simpl in Hf.
  - injection Hf as <-. constructor.
  - apply Forall_cons in Hcs as [Hc Hcs]. destruct b; [|by apply IH].
    destruct r as [r|]; [|done]. unfold_result.
    destruct (fired cs) as [rs0|]; [|done]. injection Hf as <-.
    constructor; [by apply Hc | by apply IH].
Qed.

Lemma fired_nonempty cs rs :
  fired cs = Ok rs -> any_fires cs = true -> rs <> [].
Proof.
  intros Hf (c & Hin & Hc)%any_fires_elem.
  destruct (fired_elem _ _ _ Hf Hin Hc) as (s & _ & Hs).
  intros ->. by apply elem_of_nil in Hs.
Qed.

Lemma prefix_append p : forall l x,
  String.prefix p l = true -> String.prefix p (l +:+ x) = true.
Proof.
  induction p as [|c p IH]; intros [|c' l] x; simpl; try done.
  - by destruct x.
  - destruct (Ascii.ascii_dec c c'); [apply IH | done].
Qed.

Lemma labelled_append label x :
  String.prefix "NIPR " label || String.prefix "SIPR " label
  || String.prefix "TAMs: " label = true ->
  labelled (label +:+ x) = true.
Proof.
  unfold labelled.
  intros [[Hl | Hl]%orb_prop | Hl]%orb_prop;
    rewrite (prefix_append _ _ x Hl); by rewrite ?orb_true_r.
Qed.

Lemma plain_labelled label v s :
  (forall x, labelled (label +:+ x) = true) -> plain label v = Ok s -> labelled s = true.
Proof. intros Hl [= <-]. apply Hl. Qed.

Lemma percent_labelled label v s :
  (forall x, labelled (label +:+ x) = true) -> percent label v = Ok s -> labelled s = true.
Proof.
  intros Hl. unfold percent. destruct (fixed v 1); [|done]. by intros [= <-].
Qed.

Lemma ratio_labelled label v s :
  (forall x, labelled (label +:+ x) = true) -> ratio label v = Ok s -> labelled s = true.
Proof.
  intros Hl. unfold ratio. destruct (fixed v 2); [|done]. by intros [= <-].
Qed.

Lemma days_labelled label age s :
  (forall x, labelled (label +:+ x) = true) -> days label age = Ok s -> labelled s = true.
Proof. intros Hl. destruct age; by intros [= <-]. Qed.

Ltac labelled_checks :=
  repeat apply Forall_cons_2; try apply Forall_nil_2; cbn [fst snd];
  intros ? ?;
  lazymatch goal with
  | R : plain _ _ = Ok _ |- _ => refine (plain_labelled _ _ _ _ R); intros ?; by apply labelled_append
  | R : percent _ _ = Ok _ |- _ => refine (percent_labelled _ _ _ _ R); intros ?; by apply labelled_append
  | R : ratio _ _ = Ok _ |- _ => refine (ratio_labelled _ _ _ _ R); intros ?; by apply labelled_append
  | R : days _ _ = Ok _ |- _ => refine (days_labelled _ _ _ _ R); intros ?; by apply labelled_append
  end.

Lemma highChecks_labelled boat t l :
  Forall (fun c : check => forall s, c.2 = Ok s -> labelled s = true)
         (delete telemetry_trigger (highChecks boat t l)).
Proof.
  unfold highChecks. cbn [delete list_delete telemetry_trigger]. labelled_checks.
Qed.

Lemma medChecks_labelled boat t l :
  Forall (fun c : check => forall s, c.2 = Ok s -> labelled s = true)
         (medChecks boat t l).
Proof. unfold medChecks. labelled_checks. Qed.

Lemma lowChecks_labelled boat t l :
  Forall (fun c : check => forall s, c.2 = Ok s -> labelled s = true)
         (lowChecks boat t l).
Proof. unfold lowChecks. labelled_checks. Qed.

Lemma fired_from_check cs : forall rs s,
  fired cs = Ok rs -> s ∈ rs -> exists c, c ∈ cs /\ c.1 = true /\ c.2 = Ok s.
Proof.
  induction cs as [|[b r] cs IH]; intros rs s Hf Hs; simpl in Hf.
  - injection Hf as <-. by apply elem_of_nil in Hs.
  - destruct b.
    + destruct r as [r|]; [|done]. unfold_result.
      destruct (fired cs) as [rs0|] eqn:Hrs0; [|done]. injection Hf as <-.
      apply elem_of_cons in Hs as [-> | Hs].
      * exists (true, Ok r). split; [apply list_elem_of_here | done].
      * destruct (IH _ _ eq_refl Hs) as (c & Hc & Hfire).
        exists c. split; [by apply list_elem_of_further | done].
    + destruct (IH _ _ Hf Hs) as (c & Hc & Hfire).
      exists c. split; [by apply list_elem_of_further | done].
Qed.

(** The reasons collected from checks on fields are all labelled. *)
Lemma fired_labelled cs rs :
  fired cs = Ok rs ->
  Forall (fun c : check => forall s, c.2 = Ok s -> labelled s = true) cs ->
  Forall (fun s => labelled s = true) rs.
Proof. apply fired_Forall. Qed.

(** A reason of the HIGH stage is the telemetry reason, pushed when there
    is no VRAM data, or is labelled. *)
Lemma high_reason boat t l hs s :
  fired (highChecks boat t l) = Ok hs -> s ∈ hs ->
  (s = "No VRAM data" /\ noVramData l = true) \/ labelled s = true.
Proof.
  intros Hf Hs. destruct (fired_from_check _ _ _ Hf Hs) as (c & Hc & Hfire & Hr).
  pose proof (highChecks_labelled boat t l) as Hl. rewrite Forall_forall in Hl.
  unfold highChecks in Hc, Hl. cbn [delete list_delete telemetry_trigger] in Hl.
  apply elem_of_cons in Hc as [-> | Hc].
  { right. eapply Hl; [apply list_elem_of_here | exact Hr]. }
  apply elem_of_cons in Hc as [-> | Hc].
  { right. eapply Hl; [apply list_elem_of_further, list_elem_of_here | exact Hr]. }
  apply elem_of_cons in Hc as [-> | Hc].
  { left. simpl in *. by injection Hr as <-. }
  right. eapply Hl; [do 2 apply list_elem_of_further; exact Hc | exact Hr].
Qed.

Lemma telemetry_fires boat t l hs :
  fired (highChecks boat t l) = Ok hs -> noVramData l = true ->
  any_fires (highChecks boat t l) = true /\ "No VRAM data" ∈ hs.
Proof.
  intros Hf Hno.
  assert ((true, Ok "No VRAM data") ∈ highChecks boat t l) as Hin.
  { unfold highChecks. rewrite Hno. do 2 apply list_elem_of_further.
    apply list_elem_of_here. }
  split.
  - apply existsb_exists. exists (true, Ok "No VRAM data").
    split; [by apply list_elem_of_In | done].
  - destruct (fired_elem _ _ _ Hf Hin eq_refl) as (s & [= <-] & Hs). done.
Qed.

Lemma reasons_exemptStage boat l hs s :
  s ∈ reasons (exemptStage boat l {| level := HIGH; reasons := hs |}) ->
  s ∈ hs
  \/ (s = "Scan Exempt" /\ truthy (isScanExempt boat) = true /\ noVramData l = true
      /\ level (exemptStage boat l {| level := HIGH; reasons := hs |}) = MED).
Proof.
  unfold exemptStage. cbn [level reasons].
  destruct (truthy (isScanExempt boat)), (noVramData l),
    (forallb (includes "VRAM data") hs); cbn [andb level reasons]; auto.
  intros [Hs | ->%list_elem_of_singleton]%elem_of_app; auto.
Qed.

Lemma exemptStage_keeps boat l hs s :
  s ∈ hs -> s ∈ reasons (exemptStage boat l {| level := HIGH; reasons := hs |}).
Proof.
  unfold exemptStage. cbn [level reasons]. intros Hs.
  destruct (_ && _ && _); cbn [reasons]; [apply elem_of_app; by left | done].
Qed.

(** X1.  A MED or HIGH result carries at least one reason. *)
Theorem escalations_are_explained boat thresholds r :
  calculateRisk boat thresholds = Ok r -> level r <> LOW -> reasons r <> [].
Proof.
  rewrite calculateRisk_stages. unfold stages.
  destruct (fired (highChecks _ _ _)) as [hs|] eqn:Hhs; unfold_result; [|done].
  destruct (any_fires (highChecks _ _ _)) eqn:Hany.
  { intros [= <-] _ Hnil.
    destruct (any_fires_elem _ Hany) as (c & Hin & Hc).
    destruct (fired_elem _ _ _ Hhs Hin Hc) as (s & _ & Hs).
    apply (exemptStage_keeps boat (read_locals boat)) in Hs.
    rewrite Hnil in Hs. by apply elem_of_nil in Hs. }
  destruct (fired (medChecks _ _ _)) as [ms|]; [|done].
  destruct (2 <=? length ms)%nat eqn:Hms.
  { intros [= <-] _. simpl. intros ->. done. }
  destruct (any_fires (lowChecks _ _ _)) eqn:Hlow.
  - destruct (fired (lowChecks _ _ _)) as [ls|] eqn:Hls; [|done].
    intros [= <-] _. simpl. by apply (fired_nonempty _ _ Hls).
  - by intros [= <-].
Qed.

(** X2.  The reason "No VRAM data" is returned exactly when the boat has no
    VRAM data, and such a boat is never LOW; the reason "Scan Exempt" is only
    returned with the tier MED, beside "No VRAM data", for an exempt boat. *)
Theorem telemetry_reasons boat thresholds r :
  calculateRisk boat thresholds = Ok r ->
  ("No VRAM data" ∈ reasons r <-> noVramData (read_locals boat) = true)
  /\ (noVramData (read_locals boat) = true -> level r <> LOW)
  /\ ("Scan Exempt" ∈ reasons r ->
      level r = MED /\ "No VRAM data" ∈ reasons r
      /\ truthy (isScanExempt boat) = true).
Proof.
  rewrite calculateRisk_stages. unfold stages.
  set (t := config thresholds). set (l := read_locals boat).
  destruct (fired (highChecks boat t l)) as [hs|] eqn:Hhs; unfold_result; [|done].
  destruct (any_fires (highChecks boat t l)) eqn:Hany.
  - intros [= <-]. split; [split|split].
    + intros [Hs | (Hs & _)]%reasons_exemptStage; [|done].
      by destruct (high_reason _ _ _ _ _ Hhs Hs) as [[_ Hno] | Hl].
    + intros Hno. apply exemptStage_keeps. by apply (telemetry_fires boat t l).
    + intros _. apply exemptStage_high.
    + intros [Hs | (_ & Hex & Hno & Hmed)]%reasons_exemptStage.
      { by destruct (high_reason _ _ _ _ _ Hhs Hs) as [[? _] | Hl]. }
      split; [done|]. split; [|done].
      apply exemptStage_keeps. by apply (telemetry_fires boat t l).
  - assert (noVramData l = false) as Hno.
    { apply not_true_iff_false. intros Hno.
      destruct (telemetry_fires boat t l hs Hhs Hno). congruence. }
    assert (forall cs rs s,
              Forall (fun c : check => forall s, c.2 = Ok s -> labelled s = true) cs ->
              fired cs = Ok rs -> s ∈ rs -> labelled s = true) as Hlab.
    { intros cs rs s Hcs Hf Hs. pose proof (fired_labelled _ _ Hf Hcs) as Hall.
      rewrite Forall_forall in Hall. auto. }
    destruct (fired (medChecks boat t l)) as [ms|] eqn:Hms; [|done].
    destruct (2 <=? length ms)%nat.
    { intros [= <-]. cbn [reasons level]. rewrite Hno.
      split; [split|split]; try done.
      all: intros Hs; by apply (Hlab _ _ _ (medChecks_labelled boat t l) Hms) in Hs. }
    destruct (any_fires (lowChecks boat t l)).
    + destruct (fired (lowChecks boat t l)) as [ls|] eqn:Hls; [|done].
      intros [= <-]. cbn [reasons level]. rewrite Hno.
      split; [split|split]; try done.
      all: intros Hs; by apply (Hlab _ _ _ (lowChecks_labelled boat t l) Hls) in Hs.
    + intros [= <-]. cbn [reasons level]. rewrite Hno.
      split; [split|split]; try done.
      all: by intros ?%elem_of_nil.
Qed.

(** A HIGH trigger whose reason does not mention VRAM data keeps the tier
    HIGH: the exemption downgrade does not apply. *)
Lemma high_trigger_stays boat t (c : check) r :
  c ∈ highChecks boat t (read_locals boat) -> c.1 = true ->
  (forall s, c.2 = Ok s -> includes "VRAM data" s = false) ->
  stages boat t = Ok r ->
  level r = HIGH /\ exists s, c.2 = Ok s /\ s ∈ reasons r.
Proof.
  intros Hin Hc Hex. unfold stages.
  destruct (fired (highChecks _ _ _)) as [hs|] eqn:Hhs; unfold_result; [|done].
  destruct (fired_elem _ _ _ Hhs Hin Hc) as (s & Hs & Hel).
  assert (any_fires (highChecks boat t (read_locals boat)) = true) as ->.
  { apply existsb_exists. exists c. split; [by apply list_elem_of_In | done]. }
  intros [= <-]. unfold exemptStage. cbn [level reasons].
  assert (forallb (includes "VRAM data") hs = false) as ->.
  { apply not_true_iff_false. rewrite forallb_forall. intros Hall.
    apply list_elem_of_In, Hall in Hel. rewrite (Hex s Hs) in Hel. done. }
  rewrite andb_false_r. split; [done|]. by exists s.
Qed.

(** X3.  An asset in breakfix makes the boat HIGH whatever the thresholds and
    the exemption flags, and the breakfix count is among the reasons; the NIPR
    count is read unless [isNmci] is [true]. *)
Theorem breakfix_is_always_high boat thresholds r :
  calculateRisk boat thresholds = Ok r ->
  (gt (js_or (prop boat "essSiprBreakfix") (vnum 0)) (vnum 0) = true ->
   level r = HIGH
   /\ "SIPR Breakfix: " +:+ ToString (prop boat "essSiprBreakfix") ∈ reasons r)
  /\ (is_true (prop boat "isNmci") = false ->
      gt (js_or (prop boat "essNiprBreakfix") (vnum 0)) (vnum 0) = true ->
      level r = HIGH
      /\ "NIPR Breakfix: " +:+ ToString (prop boat "essNiprBreakfix") ∈ reasons r).
Proof.
  rewrite calculateRisk_stages. intros Hr. split.
  - intros Hgt.
    destruct (high_trigger_stays boat (config thresholds)
                (true, plain "SIPR Breakfix: " (prop boat "essSiprBreakfix")) r)
      as (Hl & s & [= <-] & Hs); try done.
    + unfold highChecks. rewrite Hgt. apply list_elem_of_further, list_elem_of_here.
    + intros s Hs. refine (plain_excluded _ _ _ _ _ Hgt Hs). reflexivity.
  - intros Hn Hgt.
    destruct (high_trigger_stays boat (config thresholds)
                (true, plain "NIPR Breakfix: " (prop boat "essNiprBreakfix")) r)
      as (Hl & s & [= <-] & Hs); try done.
    + unfold highChecks. cbn [read_locals isNmci]. rewrite Hn, Hgt.
      apply list_elem_of_here.
    + intros s Hs. refine (plain_excluded _ _ _ _ _ Hgt Hs). reflexivity.
Qed.

End Reasons.

Lemma mem_included k l l' :
  forallb (fun x => mem x l) l' = true -> mem k l = false -> mem k l' = false.
Proof.
  unfold mem. intros Hsub Hk. apply not_true_iff_false.
  intros (x & Hx & Heq)%existsb_exists. apply String.eqb_eq in Heq as <-.
  rewrite forallb_forall in Hsub. apply Hsub in Hx. unfold mem in Hx. congruence.
Qed.

Section Frame.
Context `{Host}.

(** X4.  [calculateRisk] reads no other threshold than its twenty-one knobs:
    setting any other key of the configuration (a color threshold, say) leaves
    the result as it is. *)
Theorem calculateRisk_reads_only_its_knobs boat t k v :
  mem k risk_knobs = false ->
  calculateRisk boat (CObj (<[k := v]> t)) = calculateRisk boat (CObj t).
Proof.
  intros Hk. rewrite !calculateRisk_stages. unfold stages, config.
  rewrite highChecks_frame, medChecks_frame, lowChecks_frame; [done |..];
    refine (mem_included _ _ _ _ Hk); reflexivity.
Qed.

(** X5.  Once a HIGH trigger has fired, the thresholds of the MED and LOW
    stages are not read: changing any key other than the six HIGH thresholds
    leaves a HIGH result as it is. *)
Theorem high_ignores_other_thresholds boat t k v r :
  mem k high_knobs = false ->
  calculateRisk boat (CObj t) = Ok r -> level r = HIGH ->
  calculateRisk boat (CObj (<[k := v]> t)) = Ok r.
Proof.
  intros Hk. rewrite !calculateRisk_stages. unfold stages, config.
  rewrite highChecks_frame by exact Hk.
  destruct (fired (highChecks _ _ _)) as [hs|]; unfold_result; [|done].
  destruct (any_fires (highChecks _ _ _)); [done|].
  destruct (fired (medChecks boat t _)) as [ms|]; [|done].
  destruct (2 <=? length ms)%nat; [by intros [= <-]|].
  destruct (any_fires (lowChecks boat t _)).
  - destruct (fired (lowChecks boat t _)); [|done]. by intros [= <-].
  - by intros [= <-].
Qed.

End Frame.

(** The breakfix boat of the test suite. *)
Lemma escalations_are_explained_witness :
  calculateRisk (createHealthyBoat {[ "essNiprBreakfix" := vnum 3 ]}) CUndef
  = Ok {| level := HIGH; reasons := ["NIPR Breakfix: 3"] |}
  /\ reasons {| level := HIGH; reasons := ["NIPR Breakfix: 3"] |} <> [].
Proof.
  split; [vm_compute; reflexivity|].
  apply (escalations_are_explained
           (createHealthyBoat {[ "essNiprBreakfix" := vnum 3 ]}) CUndef);
    [vm_compute; reflexivity | discriminate].
Defined.

(** The boat without VRAM data of the test suite, exempt on NIPR. *)
Lemma telemetry_reasons_witness :
  calculateRisk (createNoVramBoat {[ "vramNiprScanExempt" := VBool true ]}) CUndef
  = Ok {| level := MED; reasons := ["No VRAM data"; "Scan Exempt"] |}
  /\ ("No VRAM data" ∈ ["No VRAM data"; "Scan Exempt"]
      <-> noVramData (read_locals
                        (createNoVramBoat {[ "vramNiprScanExempt" := VBool true ]}))
          = true).
Proof.
  split; [vm_compute; reflexivity|].
  refine (proj1 (telemetry_reasons
                   (createNoVramBoat {[ "vramNiprScanExempt" := VBool true ]}) CUndef
                   {| level := MED; reasons := ["No VRAM data"; "Scan Exempt"] |} _)).
  vm_compute; reflexivity.
Defined.

(** A healthy boat with five assets in breakfix on SIPR, under thresholds
    that switch every optional trigger off. *)
Lemma breakfix_is_always_high_witness :
  gt (js_or (prop (createHealthyBoat {[ "essSiprBreakfix" := vnum 5 ]}) "essSiprBreakfix")
            (vnum 0)) (vnum 0) = true
  /\ calculateRisk (createHealthyBoat {[ "essSiprBreakfix" := vnum 5 ]}) CUndef
     = Ok {| level := HIGH; reasons := ["SIPR Breakfix: 5"] |}
  /\ level {| level := HIGH; reasons := ["SIPR Breakfix: 5"] |} = HIGH.
Proof.
  split; [vm_compute; reflexivity|]. split; [vm_compute; reflexivity|].
  refine (proj1 (proj1 (breakfix_is_always_high
                          (createHealthyBoat {[ "essSiprBreakfix" := vnum 5 ]}) CUndef
                          {| level := HIGH; reasons := ["SIPR Breakfix: 5"] |} _) _));
    vm_compute; reflexivity.
Defined.

(** Changing a color threshold leaves the healthy boat LOW. *)
Lemma calculateRisk_reads_only_its_knobs_witness :
  mem "color_vph_red" risk_knobs = false
  /\ calculateRisk (createHealthyBoat ∅)
       (CObj (<["color_vph_red" := vnum 1]> defaultThresholds))
     = calculateRisk (createHealthyBoat ∅) (CObj defaultThresholds).
Proof.
  split; [vm_compute; reflexivity|].
  apply (calculateRisk_reads_only_its_knobs (createHealthyBoat ∅)). vm_compute; reflexivity.
Defined.

(** A boat in breakfix stays HIGH, with the same reason, when the MED
    threshold for VPH is lowered to 1. *)
Lemma high_ignores_other_thresholds_witness :
  mem "med_ra_vph" high_knobs = false
  /\ calculateRisk (createHealthyBoat {[ "essSiprBreakfix" := vnum 5 ]})
       (CObj (<["med_ra_vph" := vnum 1]> defaultThresholds))
     = Ok {| level := HIGH; reasons := ["SIPR Breakfix: 5"] |}.
Proof.
  split; [vm_compute; reflexivity|].
  apply (high_ignores_other_thresholds
           (createHealthyBoat {[ "essSiprBreakfix" := vnum 5 ]}) defaultThresholds);
    vm_compute; reflexivity.
Defined.

(** ** Colors *)

Section Colors.
Context `{Host}.

Lemma ge_number_l x g : ge (VNum x) g = bool_decide (num_lt x (as_number g) = Some false).
Proof.
  unfold ge, le. rewrite js_lt_num_l. by destruct (num_lt x (as_number g)) as [[]|].
Qed.

Lemma lt_number_l x g : lt (VNum x) g = bool_decide (num_lt x (as_number g) = Some true).
Proof.
  unfold lt. rewrite js_lt_num_l. by destruct (num_lt x (as_number g)) as [[]|].
Qed.

Lemma le_number_l x g : le (VNum x) g = bool_decide (num_lt (as_number g) x = Some false).
Proof.
  unfold le. rewrite js_lt_num_r. by destruct (num_lt (as_number g) x) as [[]|].
Qed.

Lemma gt_number_l x g : gt (VNum x) g = bool_decide (num_lt (as_number g) x = Some true).
Proof.
  unfold gt, lt. rewrite js_lt_num_r. by destruct (num_lt (as_number g) x) as [[]|].
Qed.

(** X6.  A higher compliance value never gets a worse color: this holds for
    the six compliance classifiers ([prodCompClass], [policyCompClass],
    [policyRawClass] and their HQ variants), whatever the configuration holds. *)
Theorem compliance_color_is_monotone green red a b thresholds ca cb :
  number_le a b = true ->
  complianceClass green red a thresholds = Ok ca ->
  complianceClass green red b thresholds = Ok cb ->
  (ca = "risk-low" -> cb = "risk-low") /\ (cb = "risk-high" -> ca = "risk-high").
Proof.
  destruct a as [| | |x| |], b as [| | |y| |]; try done.
  unfold number_le, complianceClass. cbn [null_or_undefined].
  destruct (num_lt y x) as [[]|] eqn:Hxy; try done. intros _.
  destruct (config_of thresholds) as [t|]; unfold_result; [|done].
  rewrite !ge_number_l, !lt_number_l.
  set (g := as_number (js_or (prop t green) (vnum 95))).
  set (r := as_number (js_or (prop t red) (vnum 90))).
  intros [= <-] [= <-].
  destruct (bool_decide_reflect (num_lt x g = Some false)) as [Hx|Hx].
  - rewrite (bool_decide_eq_true_2 _ (num_le_trans g x y Hx Hxy)). done.
  - split.
    + by destruct (bool_decide (num_lt x r = Some true)).
    + destruct (bool_decide_reflect (num_lt y g = Some false)); [done|].
      destruct (bool_decide_reflect (num_lt y r = Some true)) as [Hy|]; [|done].
      by rewrite (bool_decide_eq_true_2 _ (num_le_lt_trans x y r Hxy Hy)).
Qed.

(** X7.  A higher VPH never gets a better color. *)
Theorem vph_color_is_antitone a b thresholds ca cb :
  number_le a b = true ->
  vphClass a thresholds = Ok ca ->
  vphClass b thresholds = Ok cb ->
  (cb = "risk-low" -> ca = "risk-low") /\ (ca = "risk-high" -> cb = "risk-high").
Proof.
  destruct a as [| | |x| |], b as [| | |y| |]; try done.
  unfold number_le, vphClass. cbn [null_or_undefined].
  destruct (num_lt y x) as [[]|] eqn:Hxy; try done. intros _.
  destruct (config_of thresholds) as [t|]; unfold_result; [|done].
  rewrite !le_number_l, !gt_number_l.
  set (g := as_number (js_or (prop t "color_vph_green") (vnum (5#2)))).
  set (r := as_number (js_or (prop t "color_vph_red") (vnum (7#2)))).
  intros [= <-] [= <-].
  destruct (bool_decide_reflect (num_lt g y = Some false)) as [Hy|Hy].
  - rewrite (bool_decide_eq_true_2 _ (num_le_trans x y g Hxy Hy)). done.
  - split.
    + by destruct (bool_decide (num_lt r y = Some true)).
    + destruct (bool_decide_reflect (num_lt g x = Some false)); [done|].
      destruct (bool_decide_reflect (num_lt r x = Some true)) as [Hx|]; [|done].
      by rewrite (bool_decide_eq_true_2 _ (num_lt_le_trans r x y Hx Hxy)).
Qed.

(** X8.  The breakfix cell is red exactly when the value fires the breakfix
    trigger of [calculateRisk], [(v || 0) > 0]. *)
Theorem breakfix_color_matches_trigger v :
  v <> VStr "" ->
  breakfixClass v = "risk-high" <-> gt (js_or v (vnum 0)) (vnum 0) = true.
Proof.
  intros Hv. unfold breakfixClass, js_or.
  destruct v as [| |[]|n|s|]; cbn [null_or_undefined truthy]; try done.
  - destruct n as [| | |q]; cbn [truthy]; try done;
      try (by destruct (gt (VNum _) (vnum 0))).
    destruct (Qeq_bool q 0) eqn:Hq; cbn [negb].
    + apply Qeq_bool_iff in Hq. unfold gt, lt, vnum. rewrite js_lt_num_l. simpl.
      assert (Qltb 0 q = false) as -> by (apply Qltb_ge; lra). done.
    + by destruct (gt (VNum (Fin q)) (vnum 0)).
  - destruct (String.eqb_spec s "") as [->|]; [done|]. cbn [negb].
    by destruct (gt (VStr s) (vnum 0)).
  - by destruct (gt VObj (vnum 0)).
Qed.

(** X9.  With the default thresholds (green and red both 14 days) a scan date
    is never yellow; when [scanAge] gives an age, the color is green up to 14
    days and red above. *)
Theorem scan_color_by_default d :
  (scanAgeClass d CUndef = Ok "risk-low" \/ scanAgeClass d CUndef = Ok "risk-high")
  /\ (forall a, scanAge d = Some a ->
        0 <= a
        /\ scanAgeClass d CUndef = Ok (if a <=? 14 then "risk-low" else "risk-high")).
Proof.
  assert (forall a, (if le (vint a) (vnum 14) then "risk-low"
                     else if gt (vint a) (vnum 14) then "risk-high" else "risk-med")
                    = if a <=? 14 then "risk-low" else "risk-high") as Hcolor.
  { intros a. change (vint a) with (vnum (inject_Z a)). rewrite le_number.
    unfold gt, lt, vnum. rewrite js_lt_num_l. simpl. unfold Qltb.
    destruct (Qle_bool (inject_Z a) 14) eqn:Hle.
    - apply Qle_bool_iff in Hle. change 14%Q with (inject_Z 14) in Hle.
      rewrite <- Zle_Qle in Hle. by apply Z.leb_le in Hle as ->.
    - simpl. destruct (Z.leb_spec a 14) as [Hle'|]; [|done].
      rewrite Zle_Qle in Hle'. apply Qle_bool_iff in Hle'.
      change (inject_Z 14) with 14%Q in Hle'. congruence. }
  assert (prop defaultThresholds "color_scan_green" = vnum 14) as Hg by reflexivity.
  assert (prop defaultThresholds "color_scan_red" = vnum 14) as Hr by reflexivity.
  unfold scanAgeClass, scanAge. destruct (negb (truthy d)); [split; [auto | done]|].
  destruct (date_value d) as [date|]; [|split; [auto | done]].
  cbn [config_of]. unfold_result. rewrite Hg, Hr.
  change (js_or (vnum 14) (vnum 14)) with (vnum 14). rewrite Hcolor. split.
  - destruct (_ <=? 14); auto.
  - intros a. destruct (Z.leb_spec 0 ((now - date) / 86400000)); [|done].
    by intros [= <-].
Qed.

(** X10.  A scan date in the future has no scan age, so that it fires no check
    of [calculateRisk], and is shown green. *)
Theorem future_scan_date d date :
  truthy d = true -> date_value d = Some date -> now < date ->
  scanAge d = None /\ scanAgeClass d CUndef = Ok "risk-low".
Proof.
  intros Hd Hdate Hlt.
  assert ((now - date) / 86400000 < 0) as Hage.
  { apply Z.div_lt_upper_bound; lia. }
  split.
  - unfold scanAge. rewrite Hd, Hdate. cbn [negb].
    destruct (Z.leb_spec 0 ((now - date) / 86400000)); [lia | done].
  - unfold scanAgeClass. rewrite Hd, Hdate. cbn [negb config_of].
    unfold_result.
    assert (prop defaultThresholds "color_scan_green" = vnum 14) as -> by reflexivity.
    change (js_or (vnum 14) (vnum 14)) with (vnum 14).
    change (vint ((now - date) / 86400000))
      with (vnum (inject_Z ((now - date) / 86400000))).
    rewrite le_number.
    assert (Qle_bool (inject_Z ((now - date) / 86400000)) 14 = true) as ->; [|done].
    apply Qle_bool_iff. change 14%Q with (inject_Z 14). rewrite <- Zle_Qle. lia.
Qed.

End Colors.

Lemma compliance_color_is_monotone_witness :
  number_le (vnum 92) (vnum 97) = true
  /\ prodCompClass (vnum 92) CUndef = Ok "risk-med"
  /\ prodCompClass (vnum 97) CUndef = Ok "risk-low"
  /\ ("risk-low" = "risk-high" -> "risk-med" = "risk-high").
Proof.
  split; [vm_compute; reflexivity|].
  split; [vm_compute; reflexivity|]. split; [vm_compute; reflexivity|].
  apply (compliance_color_is_monotone "color_product_green" "color_product_red"
           (vnum 92) (vnum 97) CUndef); vm_compute; reflexivity.
Defined.

Lemma vph_color_is_antitone_witness :
  number_le (vnum 3) (vnum 4) = true
  /\ vphClass (vnum 3) CUndef = Ok "risk-med"
  /\ vphClass (vnum 4) CUndef = Ok "risk-high"
  /\ ("risk-high" = "risk-low" -> "risk-med" = "risk-low").
Proof.
  split; [vm_compute; reflexivity|].
  split; [vm_compute; reflexivity|]. split; [vm_compute; reflexivity|].
  apply (vph_color_is_antitone (vnum 3) (vnum 4) CUndef); vm_compute; reflexivity.
Defined.

Lemma breakfix_color_matches_trigger_witness :
  vnum 3 <> VStr ""
  /\ (breakfixClass (vnum 3) = "risk-high"
      <-> gt (js_or (vnum 3) (vnum 0)) (vnum 0) = true).
Proof.
  split; [discriminate|]. apply breakfix_color_matches_trigger. discriminate.
Defined.

(** The first of July 2024, seen from the fifteenth of June. *)
Lemma future_scan_date_witness :
  truthy (VStr "2024-07-01") = true
  /\ now < 1719792000000
  /\ scanAge (VStr "2024-07-01") = None
  /\ scanAgeClass (VStr "2024-07-01") CUndef = Ok "risk-low".
Proof.
  split; [reflexivity|]. split; [vm_compute; reflexivity|].
  apply (future_scan_date (VStr "2024-07-01") 1719792000000);
    vm_compute; reflexivity.
Defined.

(** ** [calculateStats] and [calculateAllRisks] *)

(** ** Counting boats *)

Lemma tick_count {B : Type} (p : B -> bool) bs : forall n,
  fold_left (fun n b => tick (p b) n) bs n = (n + length (List.filter p bs))%nat.
Proof.
  induction bs as [|b bs IH]; intros n; simpl; [lia|].
  rewrite IH. unfold tick. destruct (p b); simpl; lia.
Qed.

Lemma count_le {B : Type} (p : B -> bool) (bs : list B) :
  (length (List.filter p bs) <= length bs)%nat.
Proof. induction bs as [|b bs IH]; simpl; [done|]. destruct (p b); simpl; lia. Qed.

Lemma count_all {B : Type} (p : B -> bool) (bs : list B) :
  forallb p bs = true -> length (List.filter p bs) = length bs.
Proof.
  induction bs as [|b bs IH]; simpl; [done|].
  intros [-> Hbs]%andb_prop. simpl. by rewrite IH.
Qed.

(** The three tier counters count each rated boat once. *)
Lemma tier_counts (bs : list (gmap string value)) :
  let risk b := prop b "riskLevel" in
  (length (List.filter (fun b => is_text "HIGH" (risk b)) bs)
   + length (List.filter (fun b => negb (is_text "HIGH" (risk b))
                                   && is_text "MED" (risk b)) bs)
   + length (List.filter (fun b => negb (is_text "HIGH" (risk b))
                                   && negb (is_text "MED" (risk b))
                                   && is_text "LOW" (risk b)) bs)
   = length (List.filter rated bs))%nat.
Proof.
  cbn zeta. induction bs as [|b bs IH]; [done|].
  cbn [List.filter]. unfold rated at 1.
  destruct (is_text "HIGH" (prop b "riskLevel")),
    (is_text "MED" (prop b "riskLevel")), (is_text "LOW" (prop b "riskLevel"));
    cbn [negb andb orb length]; lia.
Qed.

Section Stats.
Context `{Host}.

Lemma calculateStats_counts boats :
  let st := calculateStats boats in
  totalBoats st = length boats
  /\ (forallb rated boats = true ->
      (stats_highRiskCount st + stats_medRiskCount st + stats_lowRiskCount st
       = length boats)%nat).
Proof.
  cbn zeta. unfold calculateStats.
  cbn [totalBoats stats_highRiskCount stats_medRiskCount stats_lowRiskCount].
  rewrite !tick_count. cbn [Nat.add]. rewrite tier_counts.
  split; [done|]. intros Hall. by apply count_all.
Qed.

(** X11.  The three tier counters of [calculateStats] never count more boats
    than there are, and count them all when every boat carries one of the
    tiers HIGH, MED, LOW; the scan-exempt counter is bounded as well. *)
Theorem stats_counts_are_bounded boats :
  let st := calculateStats boats in
  totalBoats st = length boats
  /\ (stats_highRiskCount st + stats_medRiskCount st + stats_lowRiskCount st
      <= totalBoats st)%nat
  /\ (forallb rated boats = true ->
      (stats_highRiskCount st + stats_medRiskCount st + stats_lowRiskCount st
       = totalBoats st)%nat)
  /\ (stats_scanExemptCount st <= totalBoats st)%nat.
Proof.
  cbn zeta. unfold calculateStats.
  cbn [totalBoats stats_highRiskCount stats_medRiskCount stats_lowRiskCount
       stats_scanExemptCount].
  rewrite !tick_count. cbn [Nat.add]. rewrite tier_counts.
  split; [done|]. split; [apply count_le|]. split; [|apply count_le].
  intros Hall. by apply count_all.
Qed.

(** X12.  The counters of [calculateStats] are additive: the statistics of two
    fleets put together count the boats, the tiers and the exemptions of both. *)
Theorem stats_counts_are_additive xs ys :
  let st := calculateStats (xs ++ ys) in
  let sx := calculateStats xs in
  let sy := calculateStats ys in
  totalBoats st = (totalBoats sx + totalBoats sy)%nat
  /\ stats_highRiskCount st = (stats_highRiskCount sx + stats_highRiskCount sy)%nat
  /\ stats_medRiskCount st = (stats_medRiskCount sx + stats_medRiskCount sy)%nat
  /\ stats_lowRiskCount st = (stats_lowRiskCount sx + stats_lowRiskCount sy)%nat
  /\ stats_scanExemptCount st
     = (stats_scanExemptCount sx + stats_scanExemptCount sy)%nat.
Proof.
  cbn zeta. unfold calculateStats.
  cbn [totalBoats stats_highRiskCount stats_medRiskCount stats_lowRiskCount
       stats_scanExemptCount].
  rewrite !tick_count, !List.filter_app, !length_app. cbn [Nat.add]. done.
Qed.

End Stats.

Section StatsAverages.
Context `{Host}.

Lemma total_numbers qs : forall x,
  fold_left js_add (vnum <$> qs) (VNum x)
  = VNum (fold_left (fun s q => num_add s (Fin q)) qs x).
Proof.
  induction qs as [|q qs IH]; intros x; [done|].
  rewrite fmap_cons. cbn [fold_left].
  change (js_add (VNum x) (vnum q)) with (VNum (num_add x (Fin q))). apply IH.
Qed.

(** The values [calculateStats] collects for a metric are the readings of
    the boats. *)
Lemma collected_readings nipr sipr (bs : list (gmap string value)) :
  Forall (fun b => percentage (prop b nipr) = true /\ percentage (prop b sipr) = true) bs ->
  (bs ≫= fun b =>
     (if negb (truthy (prop b "isNmci")) && not_null (prop b nipr)
      then [prop b nipr] else [])
     ++ (if not_null (prop b sipr) then [prop b sipr] else []))
  = vnum <$> readings nipr sipr bs.
Proof.
  unfold readings. induction 1 as [|b bs [Hn Hs] _ IH]; [done|].
  rewrite !bind_cons, fmap_app, IH. f_equal.
  unfold reported. rewrite !bind_cons. cbn [mbind list_bind]. rewrite !app_nil_r.
  cbn [andb].
  destruct (truthy (prop b "isNmci")); cbn [negb andb];
    destruct (prop b nipr) as [| | |[| | |qn]| |]; try done;
    destruct (prop b sipr) as [| | |[| | |qs]| |]; try done.
Qed.

Lemma typed_reading b f :
  typed_readings b = true ->
  f ∈ [ "vramNiprRaVph"; "vramSiprRaVph";
        "essNiprProductCompliance"; "essSiprProductCompliance" ] ->
  percentage (prop b f) = true.
Proof.
  unfold typed_readings. rewrite forallb_forall. intros Hb Hf.
  apply Hb. by apply list_elem_of_In.
Qed.

(** X13.  For boats whose VPH and product-compliance values are [null] or
    finite numbers, [avgVph] is computed from exactly the VPH values the
    boats report on the two networks, the NIPR values of NMCI boats being
    left out: their sum in double arithmetic, from the left, divided by
    their number; [avgCompliance] is computed likewise from the product
    compliances and capped at 100.  Both are 0 when nothing is reported and
    never NaN, and each is the arithmetic mean rounded to the nearest double
    (capped at 100 for the compliance) when no sum met on the way is
    rounded. *)
Theorem stats_averages_are_means boats :
  forallb typed_readings boats = true ->
  let st := calculateStats boats in
  let vph := readings "vramNiprRaVph" "vramSiprRaVph" boats in
  let compliance :=
    readings "essNiprProductCompliance" "essSiprProductCompliance" boats in
  avgVph st = double_mean vph
  /\ avgCompliance st = capped_double_mean compliance
  /\ double_mean [] = Fin 0 /\ capped_double_mean [] = Fin 0
  /\ avgVph st <> NaN /\ avgCompliance st <> NaN
  /\ (exact_sums vph = true -> avgVph st = round_double (arithmetic_mean vph))
  /\ (exact_sums compliance = true ->
      avgCompliance st = Math_min_100 (round_double (arithmetic_mean compliance))).
Proof.
  intros Htyped. cbn zeta.
  set (vph := readings "vramNiprRaVph" "vramSiprRaVph" boats).
  set (compliance :=
         readings "essNiprProductCompliance" "essSiprProductCompliance" boats).
  assert (avgVph (calculateStats boats) = double_mean vph
          /\ avgCompliance (calculateStats boats) = capped_double_mean compliance)
    as [Hv Hc].
  { unfold calculateStats. cbn [avgVph avgCompliance].
    rewrite forallb_forall in Htyped.
    rewrite !collected_readings; cycle 1.
    { apply Forall_forall. intros b Hb%list_elem_of_In%Htyped.
      split; apply typed_reading; try done; apply list_elem_of_In; simpl; tauto. }
    { apply Forall_forall. intros b Hb%list_elem_of_In%Htyped.
      split; apply typed_reading; try done; apply list_elem_of_In; simpl; tauto. }
    rewrite !length_fmap. unfold total, vnum. rewrite !total_numbers.
    fold vph compliance. fold (double_sum vph) (double_sum compliance).
    split; [by destruct vph | by destruct compliance]. }
  rewrite Hv, Hc. split; [done|]. split; [done|]. split; [done|]. split; [done|].
  split; [apply double_mean_not_NaN|].
  split; [apply Math_min_100_at_most, double_mean_not_NaN|]. split.
  - apply exact_double_mean.
  - intros He. unfold capped_double_mean. by rewrite (exact_double_mean _ He).
Qed.

End StatsAverages.

(** A fleet of two: a healthy boat and an NMCI boat whose NIPR values are
    left out.  The three VPH values are 1.5, 1.2 and 1.2. *)
Lemma stats_averages_are_means_witness :
  forallb typed_readings [ createHealthyBoat ∅; createNmciBoat ∅ ] = true
  /\ readings "vramNiprRaVph" "vramSiprRaVph" [ createHealthyBoat ∅; createNmciBoat ∅ ]
     = [ 3 # 2; 5404319552844595 # 4503599627370496; 5404319552844595 # 4503599627370496 ]
  /\ avgVph (calculateStats [ createHealthyBoat ∅; createNmciBoat ∅ ])
     = double_mean [ 3 # 2; 5404319552844595 # 4503599627370496;
                     5404319552844595 # 4503599627370496 ].
Proof.
  split; [vm_compute; reflexivity|]. split; [vm_compute; reflexivity|].
  assert (readings "vramNiprRaVph" "vramSiprRaVph"
            [ createHealthyBoat ∅; createNmciBoat ∅ ]
          = [ 3 # 2; 5404319552844595 # 4503599627370496;
              5404319552844595 # 4503599627370496 ]) as <- by (vm_compute; reflexivity).
  refine (proj1 (stats_averages_are_means [ createHealthyBoat ∅; createNmciBoat ∅ ] _)).
  vm_compute; reflexivity.
Defined.

Lemma count_Forall2 {A B : Type} (R : A -> B -> Prop) (p : A -> bool) (q : B -> bool)
    xs ys :
  Forall2 R xs ys -> (forall x y, R x y -> p x = q y) ->
  length (List.filter p xs) = length (List.filter q ys).
Proof.
  intros HR Hpq. induction HR as [|x y xs ys Hxy _ IH]; [done|].
  cbn [List.filter]. rewrite (Hpq x y Hxy). destruct (q y); simpl; by rewrite IH.
Qed.

Section AllRisksFacts.
Context `{Host}.

Lemma score_returns thresholds acc b :
  score thresholds acc b
  = match calculateRisk b thresholds with
    | Ok r => Ok (acc ++ [ {| fields := <["riskLevel" := VStr (tier_text (level r))]> b;
                              riskReasons := reasons r |} ])
    | Throw => Throw
    end.
Proof. reflexivity. Qed.

Lemma for_each_score thresholds boats : forall acc bs,
  for_each (score thresholds) boats acc = Ok bs ->
  exists new, bs = acc ++ new /\ Forall2 (scored_as thresholds) boats new.
Proof.
  induction boats as [|b boats IH]; intros acc bs; cbn [for_each].
  - intros [= <-]. exists []. by rewrite app_nil_r.
  - rewrite score_returns. destruct (calculateRisk b thresholds) as [r|] eqn:Hr;
      unfold_result; [|done].
    intros (new & -> & Hnew)%IH. eexists (_ :: new).
    split; [by rewrite <- app_assoc|]. constructor; [|done]. by exists r.
Qed.

Lemma calculateAllRisks_scored boats thresholds bs :
  calculateAllRisks boats thresholds = Ok bs ->
  Forall2 (scored_as thresholds) boats bs.
Proof.
  unfold calculateAllRisks. intros (new & -> & Hnew)%for_each_score.
  simpl. eapply Forall2_impl; [exact Hnew|].
  intros b s (r & Hr & Hs). exists r. split; [|done]. by destruct thresholds.
Qed.

Lemma scored_tier thresholds b s x :
  scored_as thresholds b s ->
  is_text (tier_text x) (prop (fields s) "riskLevel")
  = bool_decide (tier_of thresholds b = Some x).
Proof.
  intros (r & Hr & -> & _). unfold tier_of. rewrite Hr, prop_insert_eq.
  by destruct (level r), x.
Qed.

(** X14.  After [calculateAllRisks], every boat carries the tier
    [calculateRisk] gives it, so that [calculateStats] counts every boat under
    exactly one tier: the three counters are the numbers of boats of each tier
    and add up to the number of boats. *)
Theorem stats_after_calculateAllRisks boats thresholds bs :
  calculateAllRisks boats thresholds = Ok bs ->
  let st := calculateStats (fields <$> bs) in
  let count x :=
    length (List.filter (fun b => bool_decide (tier_of thresholds b = Some x)) boats) in
  totalBoats st = length boats
  /\ stats_highRiskCount st = count HIGH
  /\ stats_medRiskCount st = count MED
  /\ stats_lowRiskCount st = count LOW
  /\ (stats_highRiskCount st + stats_medRiskCount st + stats_lowRiskCount st
      = totalBoats st)%nat.
Proof.
  intros Hbs%calculateAllRisks_scored. cbn zeta.
  assert (Forall2 (fun m b => exists s, scored_as thresholds b s /\ m = fields s)
                  (fields <$> bs) boats) as Hall.
  { apply Forall2_fmap_l, Forall2_flip. eapply Forall2_impl; [exact Hbs|].
    intros b s Hs. by exists s. }
  assert (forallb rated (fields <$> bs) = true) as Hrated.
  { apply forallb_forall. intros m Hm%list_elem_of_In.
    assert (Forall (fun m => rated m = true) (fields <$> bs)) as Hr.
    { eapply Forall2_Forall_l; [exact Hall|]. apply Forall_true.
      intros b m0 (s & (r & _ & Hf & _) & ->). unfold rated.
      rewrite Hf, prop_insert_eq. by destruct (level r). }
    rewrite Forall_forall in Hr. auto. }
  destruct (calculateStats_counts (fields <$> bs)) as (Htotal & Hsum).
  specialize (Hsum Hrated). rewrite <- Htotal in Hsum.
  split. { rewrite Htotal, length_fmap. symmetry. by eapply Forall2_length. }
  split; [|split; [|split; [|exact Hsum]]];
    unfold calculateStats;
    cbn [stats_highRiskCount stats_medRiskCount stats_lowRiskCount];
    rewrite tick_count; cbn [Nat.add];
    apply (count_Forall2 _ _ _ _ _ Hall); intros m b (s & Hs & ->).
  - apply (scored_tier _ _ _ HIGH Hs).
  - change "HIGH" with (tier_text HIGH). change "MED" with (tier_text MED).
    rewrite (scored_tier _ _ _ HIGH Hs), (scored_tier _ _ _ MED Hs).
    unfold tier_of. by destruct (calculateRisk b thresholds) as [[[] ?]|].
  - change "HIGH" with (tier_text HIGH). change "MED" with (tier_text MED).
    change "LOW" with (tier_text LOW).
    rewrite (scored_tier _ _ _ HIGH Hs), (scored_tier _ _ _ MED Hs),
      (scored_tier _ _ _ LOW Hs).
    unfold tier_of. by destruct (calculateRisk b thresholds) as [[[] ?]|].
Qed.

End AllRisksFacts.

(** A healthy boat and a boat in breakfix: one LOW, one HIGH. *)
Lemma stats_after_calculateAllRisks_witness :
  calculateAllRisks [ createHealthyBoat ∅;
                      createHealthyBoat {[ "essNiprBreakfix" := vnum 3 ]} ] CUndef
  = Ok [ {| fields := <["riskLevel" := VStr "LOW"]> (createHealthyBoat ∅);
            riskReasons := [] |};
         {| fields := <["riskLevel" := VStr "HIGH"]>
                        (createHealthyBoat {[ "essNiprBreakfix" := vnum 3 ]});
            riskReasons := ["NIPR Breakfix: 3"] |} ]
  /\ stats_highRiskCount
       (calculateStats
          [ <["riskLevel" := VStr "LOW"]> (createHealthyBoat ∅);
            <["riskLevel" := VStr "HIGH"]>
              (createHealthyBoat {[ "essNiprBreakfix" := vnum 3 ]}) ])
     = 1%nat.
Proof.
  assert (calculateAllRisks [ createHealthyBoat ∅;
                              createHealthyBoat {[ "essNiprBreakfix" := vnum 3 ]} ] CUndef
          = Ok [ {| fields := <["riskLevel" := VStr "LOW"]> (createHealthyBoat ∅);
                    riskReasons := [] |};
                 {| fields := <["riskLevel" := VStr "HIGH"]>
                                (createHealthyBoat {[ "essNiprBreakfix" := vnum 3 ]});
                    riskReasons := ["NIPR Breakfix: 3"] |} ]) as Hbs.
  { unfold calculateAllRisks. cbn [for_each]. rewrite score_returns.
    assert (calculateRisk (createHealthyBoat ∅) (CObj defaultThresholds)
            = Ok {| level := LOW; reasons := [] |}) as -> by (vm_compute; reflexivity).
    unfold_result. cbn [for_each]. rewrite score_returns.
    assert (calculateRisk (createHealthyBoat {[ "essNiprBreakfix" := vnum 3 ]})
              (CObj defaultThresholds)
            = Ok {| level := HIGH; reasons := ["NIPR Breakfix: 3"] |}) as ->
      by (vm_compute; reflexivity).
    reflexivity. }
  split; [exact Hbs|].
  destruct (stats_after_calculateAllRisks _ _ _ Hbs) as (_ & Hh & _).
  etransitivity; [exact Hh|]. vm_compute; reflexivity.
Defined.

(** ** [aggregateByISIC]: the size of the groups *)

(** ** The sizes of the groups of [aggregateByISIC] *)

Section Assignments.
Context {A : Type}.
Implicit Types o : list (string * A).

Lemma assign_new o k x : own k o = None -> assign k x o = o ++ [(k, x)].
Proof.
  induction o as [|[k' y] o IH]; simpl; [done|].
  destruct (String.eqb k' k); [done|]. intros Ho. by rewrite IH.
Qed.

Lemma sum_assign (f : A -> nat) o k x y :
  own k o = Some y ->
  (sum_list_with (fun kx => f kx.2) (assign k x o) + f y
   = sum_list_with (fun kx => f kx.2) o + f x)%nat.
Proof.
  induction o as [|[k' z] o IH]; simpl; [done|].
  destruct (String.eqb k' k).
  - intros [= ->]. simpl. lia.
  - intros Ho. simpl. specialize (IH Ho). lia.
Qed.

Lemma Forall_assign (P : A -> Prop) o k x :
  Forall (fun kx => P kx.2) o -> P x -> Forall (fun kx => P kx.2) (assign k x o).
Proof.
  intros Ho Hx. induction Ho as [|[k' y] o Hy Ho IH]; simpl.
  - by repeat constructor.
  - destruct (String.eqb k' k); by constructor.
Qed.

Lemma insert_sorted_Permutation (l : list (N * A)) i x :
  insert_sorted i x l ≡ₚ (i, x) :: l.
Proof.
  induction l as [|[j y] l IH]; simpl; [done|].
  destruct (i <? j)%N; [done|]. rewrite IH. apply Permutation_swap.
Qed.

(** [Object.values] lists the value of every property once. *)
Lemma Object_values_Permutation o : Object_values o ≡ₚ o.*2.
Proof.
  unfold Object_values. induction o as [|[k x] o IH]; [done|].
  cbn [fold_right fst snd]. rewrite filter_cons. cbn [fst].
  destruct (array_index k) as [i|] eqn:Hk.
  - rewrite decide_False by done. rewrite insert_sorted_Permutation.
    rewrite !fmap_cons. cbn [snd app]. by rewrite IH.
  - rewrite decide_True by done. rewrite !fmap_cons. cbn [snd].
    rewrite <- Permutation_middle. by rewrite IH.
Qed.

End Assignments.

Lemma sum_list_with_fmap {A B : Type} (f : B -> nat) (g : A -> B) (l : list A) :
  sum_list_with f (g <$> l) = sum_list_with (fun x => f (g x)) l.
Proof.
  induction l as [|x l IH]; [done|]. rewrite fmap_cons. cbn [sum_list_with].
  by rewrite IH.
Qed.

Lemma text_exclusive v : is_text "CSL" v = true -> is_text "CSP" v = true -> False.
Proof.
  destruct v as [| | | |s|]; try done. simpl.
  intros ->%String.eqb_eq. done.
Qed.

(** The two lists returned hold each group once at most, and every group of
    one of the two TYCOMs. *)
Lemma split_by_tycom (aggs : list aggregate) :
  let csl := filter (fun a => is_text "CSL" (tycom a) = true) aggs in
  let csp := filter (fun a => is_text "CSP" (tycom a) = true) aggs in
  (sum_list_with boatCount (csl ++ csp) <= sum_list_with boatCount aggs)%nat
  /\ (Forall (fun a => is_text "CSL" (tycom a) || is_text "CSP" (tycom a) = true) aggs ->
      sum_list_with boatCount (csl ++ csp) = sum_list_with boatCount aggs).
Proof.
  cbn zeta. rewrite sum_list_with_app.
  induction aggs as [|a aggs [IHle IHeq]]; [done|].
  rewrite !filter_cons.
  destruct (decide (is_text "CSL" (tycom a) = true)) as [Hl|Hl],
    (decide (is_text "CSP" (tycom a) = true)) as [Hp|Hp].
  - destruct (text_exclusive _ Hl Hp).
  - simpl. split; [lia|]. intros [_ Hall]%Forall_cons. specialize (IHeq Hall). lia.
  - simpl. split; [lia|]. intros [_ Hall]%Forall_cons. specialize (IHeq Hall). lia.
  - simpl. split; [lia|]. intros [Ha _]%Forall_cons.
    apply not_true_is_false in Hl, Hp. by rewrite Hl, Hp in Ha.
Qed.

Section GroupSizes.
Context `{Host}.

Lemma group_boat_held isics groups b groups' :
  group_boat isics groups b = Ok groups' -> held groups' = S (held groups).
Proof.
  unfold group_boat, held.
  destruct (own (ToString (prop b "isic")) groups) as [g|] eqn:Hown.
  - intros [= <-].
    pose proof (sum_assign (fun g => length (boats g)) groups _
                  {| info := info g; boats := boats g ++ [b] |} g Hown) as Hsum.
    cbn beta in Hsum. cbn [boats] in Hsum. rewrite length_app in Hsum.
    cbn [length] in Hsum. lia.
  - destruct (inherited _); [done|].
    destruct (group_info isics b) as [i|]; unfold_result; [|done].
    intros [= <-]. rewrite assign_new by done.
    rewrite sum_list_with_app. cbn [sum_list_with snd boats length]. lia.
Qed.

Lemma for_each_held isics bs : forall groups groups',
  for_each (group_boat isics) bs groups = Ok groups' ->
  held groups' = (held groups + length bs)%nat.
Proof.
  induction bs as [|b bs IH]; intros groups groups'; cbn [for_each].
  - intros [= <-]. simpl. lia.
  - destruct (group_boat isics groups b) as [g1|] eqn:Hb; unfold_result; [|done].
    intros Hrest%IH. rewrite Hrest, (group_boat_held _ _ _ _ Hb). simpl. lia.
Qed.

Lemma group_info_tycom isics b i :
  Forall (fun i => fleet_tycom i = true) isics -> fleet_tycom b = true ->
  group_info isics b = Ok i -> fleet_tycom i = true.
Proof.
  intros Hisics Hb. unfold group_info.
  destruct (find _ isics) as [i'|] eqn:Hfind.
  - intros [= <-]. apply find_some in Hfind as [Hin _].
    rewrite Forall_forall in Hisics. by apply Hisics, list_elem_of_In.
  - destruct (slice_0_6 _) as [short|]; unfold_result; [|done].
    intros [= <-]. exact Hb.
Qed.

Lemma for_each_tycom isics bs : forall groups groups',
  Forall (fun i => fleet_tycom i = true) isics ->
  Forall (fun b => fleet_tycom b = true) bs ->
  for_each (group_boat isics) bs groups = Ok groups' ->
  Forall (fun kg : string * group => fleet_tycom (info kg.2) = true) groups ->
  Forall (fun kg : string * group => fleet_tycom (info kg.2) = true) groups'.
Proof.
  intros groups groups' Hisics Hbs. revert groups groups'.
  induction Hbs as [|b bs Hb _ IH]; intros groups groups'; cbn [for_each].
  - by intros [= <-].
  - destruct (group_boat isics groups b) as [g1|] eqn:Hstep; unfold_result; [|done].
    intros Hrest Hg. apply (IH _ _ Hrest). revert Hstep. unfold group_boat.
    destruct (own _ groups) as [g|] eqn:Hown.
    + intros [= <-].
      apply (Forall_assign (fun g => fleet_tycom (info g) = true)); [done|].
      apply own_Some_elem in Hown. rewrite Forall_forall in Hg.
      by apply (Hg _ Hown).
    + destruct (inherited _); [done|].
      destruct (group_info isics b) as [i|] eqn:Hi; unfold_result; [|done].
      intros [= <-].
      apply (Forall_assign (fun g => fleet_tycom (info g) = true)); [done|].
      by apply (group_info_tycom isics b).
Qed.

(** X15.  [aggregateByISIC] counts no boat twice, and loses none when every
    boat and every entry of the registry is of TYCOM 'CSL' or 'CSP': the boat
    counts of the groups returned then add up to the number of boats. The
    groups of any other TYCOM are dropped. *)
Theorem aggregateByISIC_counts_every_boat boats isics csl csp :
  aggregateByISIC boats isics = Ok (csl, csp) ->
  (sum_list_with boatCount (csl ++ csp) <= length boats)%nat
  /\ (forallb fleet_tycom boats = true -> forallb fleet_tycom isics = true ->
      sum_list_with boatCount (csl ++ csp) = length boats).
Proof.
  unfold aggregateByISIC.
  destruct (for_each (group_boat isics) boats []) as [groups|] eqn:Hgroups;
    unfold_result; [|done].
  intros [= <- <-].
  set (aggs := aggregate_group <$> Object_values groups).
  assert (sum_list_with boatCount aggs = length boats) as Hsum.
  { unfold aggs. rewrite sum_list_with_fmap, Object_values_Permutation.
    rewrite sum_list_with_fmap. apply for_each_held in Hgroups. exact Hgroups. }
  destruct (split_by_tycom aggs) as [Hle Heq]. rewrite Hsum in Hle, Heq.
  split; [exact Hle|]. intros Hboats Hisics. apply Heq.
  unfold aggs. apply Forall_fmap.
  rewrite Object_values_Permutation. apply Forall_fmap.
  eapply Forall_impl.
  - apply (for_each_tycom isics boats [] groups); [| |exact Hgroups|constructor].
    + apply Forall_forall. intros i Hi%list_elem_of_In.
      rewrite forallb_forall in Hisics. auto.
    + apply Forall_forall. intros b Hb%list_elem_of_In.
      rewrite forallb_forall in Hboats. auto.
  - intros [k g] Hg. exact Hg.
Qed.

Lemma counters_of_group bs :
  let a := fold_left add_boat bs no_sums in
  let risk b := prop b "riskLevel" in
  high a = fold_left (fun n b => tick (is_text "HIGH" (risk b)) n) bs O
  /\ med a = fold_left (fun n b => tick (negb (is_text "HIGH" (risk b))
                                         && is_text "MED" (risk b)) n) bs O
  /\ low a = fold_left (fun n b => tick (negb (is_text "HIGH" (risk b))
                                         && negb (is_text "MED" (risk b))
                                         && is_text "LOW" (risk b)) n) bs O
  /\ exempt a
     = fold_left (fun n b => tick (truthy (js_or (prop b "vramNiprScanExempt")
                                                 (prop b "vramSiprScanExempt"))) n) bs O.
Proof.
  cbn zeta. repeat split;
    lazymatch goal with
    | |- ?p (fold_left add_boat _ _) = fold_left ?g _ _ =>
        apply (fold_left_projection add_boat p g)
    end; by intros s b.
Qed.

(** X16.  Every group returned by [aggregateByISIC] holds a boat at least, and
    its counters never exceed its size: the three tier counters together,
    which add up to the size when every boat of the group carries a tier, and
    the scan-exempt counter. *)
Theorem group_counters_are_bounded fleet isics csl csp :
  aggregateByISIC fleet isics = Ok (csl, csp) ->
  forall a, a ∈ csl ++ csp ->
    (1 <= boatCount a)%nat
    /\ (highRiskCount a + medRiskCount a + lowRiskCount a <= boatCount a)%nat
    /\ (scanExemptCount a <= boatCount a)%nat
    /\ (forallb rated fleet = true ->
        (highRiskCount a + medRiskCount a + lowRiskCount a = boatCount a)%nat).
Proof.
  unfold aggregateByISIC.
  destruct (for_each (group_boat isics) fleet []) as [groups|] eqn:Hgroups;
    unfold_result; [|done].
  intros [= <- <-] a Ha.
  assert (a ∈ aggregate_group <$> Object_values groups) as Hagg.
  { apply elem_of_app in Ha as [Ha | Ha];
      by apply list_elem_of_filter in Ha as [_ Ha]. }
  apply list_elem_of_fmap in Hagg as (g & -> & Hg).
  apply elem_of_Object_values in Hg as [k Hg].
  destruct (for_each_grouped _ _ [] _ _ Hgroups grouped_nil) as (_ & Hboats & _).
  destruct (Hboats k g Hg) as [Hb Hne]. simpl in Hb.
  unfold aggregate_group.
  cbn [boatCount highRiskCount medRiskCount lowRiskCount scanExemptCount].
  destruct (counters_of_group (boats g)) as (-> & -> & -> & ->).
  rewrite !tick_count. cbn [Nat.add]. rewrite tier_counts.
  split. { destruct (boats g); [done | simpl; lia]. }
  split; [apply count_le|]. split; [apply count_le|].
  intros Hrated. apply count_all. rewrite Hb.
  apply forallb_forall. intros b Hin%list_elem_of_In%list_elem_of_filter.
  rewrite forallb_forall in Hrated. apply Hrated, list_elem_of_In. tauto.
Qed.

End GroupSizes.

(** Two boats of COMSUBRON 1, of TYCOM CSL: one group of two boats. *)
Lemma aggregateByISIC_counts_every_boat_witness :
  exists a,
    aggregateByISIC [ createHealthyBoat ∅;
                      createHealthyBoat {[ "boatName" := VStr "SSN-002" ]} ] []
    = Ok ([a], [])
    /\ sum_list_with boatCount ([a] ++ []) = 2%nat.
Proof.
  eexists. split; [vm_compute; reflexivity|].
  refine (proj2 (aggregateByISIC_counts_every_boat
                   [ createHealthyBoat ∅;
                     createHealthyBoat {[ "boatName" := VStr "SSN-002" ]} ] [] _ _ _) _ _);
    vm_compute; reflexivity.
Defined.

Lemma group_counters_are_bounded_witness :
  exists a,
    aggregateByISIC [ createHealthyBoat ∅;
                      createHealthyBoat {[ "riskLevel" := VStr "HIGH" ]} ] []
    = Ok ([a], [])
    /\ (1 <= boatCount a)%nat
    /\ (highRiskCount a + medRiskCount a + lowRiskCount a <= boatCount a)%nat.
Proof.
  eexists. split; [vm_compute; reflexivity|].
  refine (let H := group_counters_are_bounded
                     [ createHealthyBoat ∅;
                       createHealthyBoat {[ "riskLevel" := VStr "HIGH" ]} ] [] _ _ _ _ _
          in conj (proj1 H) (proj1 (proj2 H))).
  - vm_compute; reflexivity.
  - apply list_elem_of_here.
Defined.

(** ** [groupBoatsBy]: the buckets *)

Section Buckets.
Context `{Host} `{Text}.

Implicit Types groups : gmap string (list (gmap string value)).

Lemma for_each_bucket field boats : forall groups groups',
  for_each (bucket field) boats groups = Ok groups' ->
  forall k, groups' !! k = filled field k (groups !! k) boats.
Proof.
  induction boats as [|b boats IH]; intros groups groups'; cbn [for_each].
  - intros [= <-] k. unfold filled. rewrite filter_nil.
    destruct (groups !! k); [by rewrite app_nil_r | done].
  - destruct (bucket field groups b) as [g1|] eqn:Hb; unfold_result; [|done].
    intros Hrest k. rewrite (IH _ _ Hrest k). revert Hb. unfold bucket.
    cbv zeta. unfold filled. rewrite filter_cons.
    destruct (groups !! bucket_key field b) as [bs|] eqn:Hk.
    + intros [= <-]. destruct (decide (bucket_key field b = k)) as [<-|Hne].
      * rewrite lookup_insert_eq, Hk. by rewrite <- app_assoc.
      * by rewrite lookup_insert_ne.
    + destruct (inherited (bucket_key field b)); [done|]. intros [= <-].
      destruct (decide (bucket_key field b = k)) as [<-|Hne].
      * by rewrite lookup_insert_eq, Hk.
      * by rewrite lookup_insert_ne.
Qed.

(** X17.  [groupBoatsBy] partitions the boats: the bucket of a key lists, in
    their order, exactly the boats of that key, and a key that no boat has has
    no bucket. *)
Theorem groupBoatsBy_partitions boats field groups :
  groupBoatsBy boats field = Ok groups ->
  forall k,
    groups !! k = match filter (fun b => bucket_key field b = k) boats with
                  | [] => None
                  | bs => Some bs
                  end.
Proof.
  unfold groupBoatsBy. intros Hg k.
  rewrite (for_each_bucket _ _ _ _ Hg k). by rewrite lookup_empty.
Qed.

Lemma bucket_inherited field groups b :
  (forall k, inherited k = true -> groups !! k = None) ->
  match bucket field groups b with
  | Ok groups' =>
      inherited (bucket_key field b) = false
      /\ (forall k, inherited k = true -> groups' !! k = None)
  | Throw => inherited (bucket_key field b) = true
  end.
Proof.
  intros Hg. unfold bucket. cbv zeta.
  destruct (inherited (bucket_key field b)) eqn:Hk.
  - by rewrite (Hg _ Hk).
  - destruct (groups !! bucket_key field b); (split; [done|]);
      intros k Hin; rewrite lookup_insert_ne by congruence; auto.
Qed.

Lemma for_each_bucket_throws field boats : forall groups,
  (forall k, inherited k = true -> groups !! k = None) ->
  for_each (bucket field) boats groups = Throw
  <-> exists b, b ∈ boats /\ inherited (bucket_key field b) = true.
Proof.
  induction boats as [|b boats IH]; intros groups Hg; cbn [for_each].
  - split; [done|]. by intros (b & Hb%elem_of_nil & _).
  - pose proof (bucket_inherited field groups b Hg) as Hb.
    destruct (bucket field groups b) as [g1|]; unfold_result.
    + destruct Hb as [Hk Hg1]. rewrite (IH g1 Hg1). split.
      * intros (b0 & Hin & Hb0). exists b0. split; [by apply list_elem_of_further | done].
      * intros (b0 & [-> | Hin]%elem_of_cons & Hb0); [congruence|]. by exists b0.
    + split; [|done]. intros _. exists b. split; [apply list_elem_of_here | done].
Qed.

(** X18.  [groupBoatsBy] throws exactly when the key of some boat is the name
    of a property that the empty object inherits ("constructor", "toString",
    ...): the value found under that name has no [push]. *)
Theorem groupBoatsBy_throws_on_inherited_names boats field :
  groupBoatsBy boats field = Throw
  <-> exists b, b ∈ boats /\ inherited (bucket_key field b) = true.
Proof. apply for_each_bucket_throws. intros k _. apply lookup_empty. Qed.

End Buckets.

(** The buckets of the boats with falsy keys. *)
Lemma groupBoatsBy_partitions_witness :
  groupBoatsBy boatsWithFalsyKeys "k" = Ok bucketsOfFalsyKeys
  /\ bucketsOfFalsyKeys !! "0"
     = match filter (fun b => bucket_key "k" b = "0") boatsWithFalsyKeys with
       | [] => None
       | bs => Some bs
       end.
Proof.
  split; [reflexivity|].
  apply (groupBoatsBy_partitions boatsWithFalsyKeys "k"). reflexivity.
Defined.

(** ** [getCustomFields] *)

(** ** [getCustomFields] *)

Lemma keep_custom_returns type kept s :
  keep_custom type kept s
  = match is_custom type s with
    | Ok c => Ok (if c then kept ++ [s] else kept)
    | Throw => Throw
    end.
Proof. reflexivity. Qed.

(** For one of the three schema types the function is a filter. *)
Lemma for_each_keep_custom type names schema : forall kept,
  own type standardFields = Some names ->
  for_each (keep_custom type) schema kept
  = Ok (kept ++ List.filter
                  (fun s => negb (Array_includes names (prop s "field"))
                            && negb (strict_eq (prop s "visible") (VBool false)))
                  schema).
Proof.
  induction schema as [|s schema IH]; intros kept Htype; cbn [for_each List.filter].
  - by rewrite app_nil_r.
  - rewrite keep_custom_returns. unfold is_custom. rewrite Htype. unfold_result.
    rewrite IH by done.
    destruct (negb _ && negb _); [by rewrite <- app_assoc | done].
Qed.

Lemma filter_filter {A : Type} (p : A -> bool) (l : list A) :
  List.filter p (List.filter p l) = List.filter p l.
Proof.
  induction l as [|x l IH]; [done|]. simpl.
  destruct (p x) eqn:Hx; [|done]. simpl. by rewrite Hx, IH.
Qed.

Lemma filter_sublist {A : Type} (p : A -> bool) (l : list A) :
  List.filter p l `sublist_of` l.
Proof.
  induction l as [|x l IH]; simpl; [done|].
  destruct (p x); by constructor.
Qed.

(** X19.  For the schema types [vram], [ess] and [tam], [getCustomFields]
    returns the entries of the schema, in their order, that are not hidden
    ([visible] other than [false]) and whose field is not a standard one;
    applying it to its own result changes nothing. *)
Theorem getCustomFields_keeps_custom_fields schema type custom :
  own type standardFields <> None ->
  getCustomFields (Some schema) type = Ok custom ->
  custom `sublist_of` schema
  /\ (forall s, s ∈ schema ->
        s ∈ custom
        <-> strict_eq (prop s "visible") (VBool false) = false
            /\ forall names, own type standardFields = Some names ->
                 Array_includes names (prop s "field") = false)
  /\ getCustomFields (Some custom) type = Ok custom.
Proof.
  intros Htype. unfold getCustomFields.
  destruct (own type standardFields) as [names|] eqn:Hnames; [|done]. clear Htype.
  rewrite !(for_each_keep_custom type names) by done. cbn [app].
  intros [= <-]. split; [apply filter_sublist|]. split.
  - intros s Hs. rewrite list_elem_of_In, filter_In, <- list_elem_of_In.
    rewrite andb_true_iff, !negb_true_iff. split.
    + intros (_ & Hfield & Hvisible). split; [done|]. by intros ? [= <-].
    + intros (Hvisible & Hfield). split; [done|]. split; [by apply Hfield | done].
  - by rewrite filter_filter.
Qed.

(** X20.  Without a schema the answer is the empty list, whatever the type;
    with a schema and a type other than [vram], [ess] and [tam] the function
    throws as soon as the schema has an entry, and returns the empty list for
    the empty schema. *)
Theorem getCustomFields_of_unknown_type type :
  getCustomFields None type = Ok []
  /\ (own type standardFields = None ->
      getCustomFields (Some []) type = Ok []
      /\ forall s schema, getCustomFields (Some (s :: schema)) type = Throw).
Proof.
  split; [done|]. intros Htype. split; [done|]. intros s schema.
  unfold getCustomFields. cbn [for_each]. rewrite keep_custom_returns.
  unfold is_custom. by rewrite Htype.
Qed.

(** A VRAM schema with a standard field, a hidden field and a custom one. *)
Lemma getCustomFields_keeps_custom_fields_witness :
  own "vram" standardFields <> None
  /\ getCustomFields
       (Some [ {[ "field" := VStr "raVph" ]};
               {[ "field" := VStr "patchLevel"; "visible" := VBool false ]};
               {[ "field" := VStr "enclave" ]} ]) "vram"
     = Ok [ {[ "field" := VStr "enclave" ]} ]
  /\ getCustomFields (Some [ {[ "field" := VStr "enclave" ]} ]) "vram"
     = Ok [ {[ "field" := VStr "enclave" ]} ].
Proof.
  split; [discriminate|]. split; [reflexivity|].
  refine (proj2 (proj2 (getCustomFields_keeps_custom_fields
                          [ {[ "field" := VStr "raVph" ]};
                            {[ "field" := VStr "patchLevel"; "visible" := VBool false ]};
                            {[ "field" := VStr "enclave" ]} ] "vram" _ _ _)));
    [discriminate | reflexivity].
Defined.

(** ** [parseNumber], [parsePercent], [fmtPct] *)

Section Parsing.
Context `{Host} `{Text}.

Lemma null_if_NaN_cases n :
  null_if_NaN n = VNull \/ (n <> NaN /\ null_if_NaN n = VNum n).
Proof. destruct n; auto. Qed.

(** X21.  [parseNumber] and [parsePercent] never return NaN (nor [undefined],
    nor a text): the answer is [null] or a number other than NaN.
    [parseNumber] returns a number other than NaN as it is, so that parsing
    its own answer changes nothing. *)
Theorem parsers_never_return_NaN val :
  (parseNumber val = VNull \/ exists n, n <> NaN /\ parseNumber val = VNum n)
  /\ (parsePercent val = VNull \/ exists n, n <> NaN /\ parsePercent val = VNum n)
  /\ (forall n, n <> NaN -> parseNumber (VNum n) = VNum n)
  /\ parseNumber (parseNumber val) = parseNumber val.
Proof.
  assert (forall n, n <> NaN -> parseNumber (VNum n) = VNum n) as Hkeep.
  { intros n Hn. unfold parseNumber. cbn [null_or_undefined is_text orb].
    by destruct n. }
  assert (parseNumber val = VNull \/ exists n, n <> NaN /\ parseNumber val = VNum n)
    as Hnumber.
  { unfold parseNumber. destruct (_ || _); [by left|].
    destruct val as [| | |n| |];
      try (destruct (String.eqb _ "none");
           [ right; by exists (Fin 0)
           | match goal with
             | |- context [null_if_NaN ?x] =>
                 destruct (null_if_NaN_cases x) as [-> | [? ->]]; eauto
             end ]).
    destruct (null_if_NaN_cases n) as [-> | [? ->]]; eauto. }
  split; [exact Hnumber|]. split; [|split; [exact Hkeep|]].
  - unfold parsePercent. destruct (_ || _); [by left|].
    destruct (String.eqb _ "none"); [right; by exists (Fin 0)|].
    match goal with
    | |- context [null_if_NaN ?x] =>
        destruct (null_if_NaN_cases x) as [-> | [? ->]]; eauto
    end.
  - destruct Hnumber as [-> | (n & Hn & ->)]; [done | by apply Hkeep].
Qed.

(** X22.  [fmtPct] caps what it shows at 100.0%: every value that is 100 at
    least is shown as 100 is. Below 100 the text is the one [calculateRisk]
    puts in its reasons for the same number. *)
Theorem fmtPct_caps_at_100 :
  (forall v, num_lt (ToNumber v) (Fin 100) = Some false ->
     fmtPct v = fmtPct (vnum 100))
  /\ (forall n label, num_lt n (Fin 100) = Some true ->
        percent label (VNum n) = Ok (label +:+ fmtPct (VNum n))).
Proof.
  split.
  - intros v Hv. unfold fmtPct.
    destruct v as [| | | | |]; try done;
      cbn [null_or_undefined]; do 2 f_equal;
      change (ToNumber (vnum 100)) with (Fin 100);
      destruct (ToNumber _) as [| | |q]; try done;
      simpl in Hv |- *; injection Hv as Hq%Qltb_ge;
      apply Qle_bool_iff in Hq; by rewrite Hq.
  - intros n label Hn. unfold percent, fixed, fmtPct. unfold_result.
    cbn [null_or_undefined ToNumber]. do 3 f_equal.
    destruct n as [| | |q]; try done. simpl in Hn |- *.
    injection Hn as Hq%Qltb_lt.
    destruct (Qle_bool 100 q) eqn:Hle; [|done].
    apply Qle_bool_iff in Hle. lra.
Qed.

End Parsing.

(** ** [normalizeBoatName] *)

Lemma digits_of_digits d :
  all_chars is_digit d = true -> digits_of d = (d, EmptyString).
Proof.
  unfold all_chars. induction d as [|c d IH]; [done|].
  cbn [list_ascii_of_string forallb digits_of].
  intros [Hc Hd]%andb_true_iff. by rewrite Hc, (IH Hd).
Qed.

Lemma digits_of_chars s d rest :
  digits_of s = (d, rest) -> all_chars is_digit d = true.
Proof.
  revert d rest. induction s as [|c s IH]; intros d rest; cbn [digits_of].
  - by intros [= <- <-].
  - destruct (is_digit c) eqn:Hc; [|by intros [= <- <-]].
    destruct (digits_of s) as [d' rest'] eqn:Hs. intros [= <- <-].
    unfold all_chars. cbn [list_ascii_of_string forallb].
    rewrite Hc. exact (IH _ _ eq_refl).
Qed.

Lemma digit_is_no_space c : is_digit c = true -> space_char c = false.
Proof.
  unfold is_digit, space_char. cbv zeta.
  intros [H1 H2]%andb_true_iff.
  apply Nat.leb_le in H1. apply Nat.leb_le in H2.
  repeat apply orb_false_intro.
  - apply andb_false_iff. right. apply Nat.leb_gt. lia.
  - apply Nat.eqb_neq. lia.
  - apply Nat.eqb_neq. lia.
Qed.

Lemma skip_spaces_digits d :
  all_chars is_digit d = true -> skip_spaces d = d.
Proof.
  destruct d as [|c d]; [done|]. unfold all_chars.
  cbn [list_ascii_of_string forallb skip_spaces].
  intros [Hc _]%andb_true_iff. by rewrite (digit_is_no_space _ Hc).
Qed.

Lemma hull_at_groups w s type digits :
  hull_at w s = Some (type, digits) ->
  type ∈ hull_types /\ digits <> EmptyString /\ all_chars is_digit digits = true.
Proof.
  unfold hull_at. destruct w; [done|].
  set (found := match strip "SSN" s with
                | Some rest => Some ("SSN"%string, rest)
                | None => _ end).
  assert (forall t r, found = Some (t, r) -> t ∈ hull_types) as Htype.
  { intros t r. unfold found, hull_types.
    destruct (strip "SSN" s); [intros [= <- _]; set_solver|].
    destruct (strip "SSBN" s); [intros [= <- _]; set_solver|].
    destruct (strip "SSGN" s); [intros [= <- _]; set_solver|done]. }
  destruct found as [[t r]|]; [|done].
  specialize (Htype t r eq_refl). cbv zeta.
  destruct (digits_of _) as [d rest] eqn:Hd.
  destruct (String.eqb d "") eqn:He; [done|]. cbn [negb andb].
  destruct (match rest with String c _ => negb (word_char c) | EmptyString => true end);
    [|done].
  intros [= <- <-]. split; [done|]. split.
  - by apply String.eqb_neq.
  - exact (digits_of_chars _ _ _ Hd).
Qed.

Lemma find_hull_groups w s type digits :
  find_hull w s = Some (type, digits) ->
  type ∈ hull_types /\ digits <> EmptyString /\ all_chars is_digit digits = true.
Proof.
  revert w. induction s as [|c s IH]; intros w; cbn [find_hull].
  - destruct (hull_at w "") as [[t d]|] eqn:Hh; [|done].
    intros [= <- <-]. exact (hull_at_groups _ _ _ _ Hh).
  - destruct (hull_at w (String c s)) as [[t d]|] eqn:Hh.
    + intros [= <- <-]. exact (hull_at_groups _ _ _ _ Hh).
    + apply IH.
Qed.

Lemma hull_at_canonical type digits :
  type ∈ hull_types -> digits <> EmptyString -> all_chars is_digit digits = true ->
  hull_at false (type +:+ "-" +:+ digits) = Some (type, digits).
Proof.
  intros Ht Hne Hd.
  assert (hull_at false (type +:+ "-" +:+ digits)
          = let (d, rest) := digits_of (skip_spaces digits) in
            let at_boundary := match rest with
                               | String c _ => negb (word_char c)
                               | EmptyString => true
                               end in
            if negb (String.eqb d "") && at_boundary then Some (type, d) else None)
    as ->.
  { unfold hull_types in Ht.
    apply elem_of_cons in Ht as [->|Ht]; [reflexivity|].
    apply elem_of_cons in Ht as [->|Ht]; [reflexivity|].
    apply elem_of_cons in Ht as [->|Ht]; [reflexivity|].
    by apply elem_of_nil in Ht. }
  rewrite (skip_spaces_digits _ Hd), (digits_of_digits _ Hd). cbv zeta.
  apply String.eqb_neq in Hne. by rewrite Hne.
Qed.

Lemma find_hull_canonical type digits :
  type ∈ hull_types -> digits <> EmptyString -> all_chars is_digit digits = true ->
  find_hull false (type +:+ "-" +:+ digits) = Some (type, digits).
Proof.
  intros Ht Hne Hd.
  assert (forall s, find_hull false s
                    = match hull_at false s with
                      | Some groups => Some groups
                      | None => match s with
                                | String c s' => find_hull (word_char c) s'
                                | EmptyString => None
                                end
                      end) as -> by (by intros []).
  by rewrite (hull_at_canonical _ _ Ht Hne Hd).
Qed.

Section BoatNames.
Context `{Host} `{Text}.

(** X23.  What [normalizeBoatName] returns is the empty text, a canonical name
    (a hull type among SSN, SSBN and SSGN, a dash, and a number in digits), or
    the trimmed upper-case name when no hull number is found in it; and a
    canonical name that trimming and upper-casing leave alone is returned as
    it is. *)
Theorem normalizeBoatName_gives_canonical_names :
  (forall name,
     normalizeBoatName name = EmptyString
     \/ (exists type digits,
           normalizeBoatName name = type +:+ "-" +:+ digits
           /\ type ∈ hull_types /\ digits <> EmptyString
           /\ all_chars is_digit digits = true)
     \/ (normalizeBoatName name = trim (toUpperCase (ToString name))
         /\ find_hull false (trim (toUpperCase (ToString name))) = None))
  /\ (forall type digits,
        type ∈ hull_types -> digits <> EmptyString ->
        all_chars is_digit digits = true ->
        let canonical := type +:+ "-" +:+ digits in
        toUpperCase canonical = canonical -> trim canonical = canonical ->
        normalizeBoatName (VStr canonical) = canonical).
Proof.
  split.
  - intros name. unfold normalizeBoatName.
    destruct (null_or_undefined name || is_text "" name); [by left|].
    destruct (String.eqb (ToString name) "" || String.eqb (trim (ToString name)) "");
      [by left|].
    destruct (find_hull false _) as [[type digits]|] eqn:Hf.
    + right; left. exists type, digits. split; [done|].
      exact (find_hull_groups _ _ _ _ Hf).
    + right; right. done.
  - intros type digits Ht Hne Hd canonical Hup Htrim.
    assert (canonical <> EmptyString) as Hc.
    { unfold canonical, hull_types in *.
      apply elem_of_cons in Ht as [->|Ht]; [done|].
      apply elem_of_cons in Ht as [->|Ht]; [done|].
      apply elem_of_cons in Ht as [->|Ht]; [done|].
      by apply elem_of_nil in Ht. }
    apply String.eqb_neq in Hc.
    unfold normalizeBoatName.
    cbn [null_or_undefined is_text orb].
    assert (ToString (VStr canonical) = canonical) as -> by reflexivity.
    rewrite Htrim, Hup, Htrim, Hc. cbn [orb].
    unfold canonical at 1. by rewrite (find_hull_canonical _ _ Ht Hne Hd).
Qed.

End BoatNames.

Lemma normalizeBoatName_gives_canonical_names_witness :
  normalizeBoatName (VStr "uss texas (ssn 775)") = "SSN-775"%string
  /\ normalizeBoatName (VStr "SSN-775") = "SSN-775"%string.
Proof.
  split; [vm_compute; reflexivity|].
  refine (proj2 normalizeBoatName_gives_canonical_names "SSN"%string "775"%string _ _ _ _ _).
  - unfold hull_types. apply list_elem_of_here.
  - discriminate.
  - reflexivity.
  - vm_compute; reflexivity.
  - vm_compute; reflexivity.
Defined.

(** ** The hash of [calculateHash] *)

Lemma ToInt32_mod x : ToInt32 x mod 2 ^ 32 = x mod 2 ^ 32.
Proof.
  unfold ToInt32. rewrite Zminus_mod_idemp_l. f_equal. lia.
Qed.

Lemma ToInt32_congruent x y : x mod 2 ^ 32 = y mod 2 ^ 32 -> ToInt32 x = ToInt32 y.
Proof.
  intros Hxy. unfold ToInt32. f_equal.
  rewrite <- (Zplus_mod_idemp_l x), <- (Zplus_mod_idemp_l y). now rewrite Hxy.
Qed.

Lemma ToInt32_range x : - 2 ^ 31 <= ToInt32 x < 2 ^ 31.
Proof.
  unfold ToInt32. pose proof (Z.mod_pos_bound (x + 2 ^ 31) (2 ^ 32) eq_refl).
  change (2 ^ 32) with (2 ^ 31 + 2 ^ 31) in *. lia.
Qed.

Lemma ToInt32_small x : - 2 ^ 31 <= x < 2 ^ 31 -> ToInt32 x = x.
Proof.
  intros Hx. unfold ToInt32. rewrite Z.mod_small.
  - lia.
  - change (2 ^ 32) with (2 ^ 31 + 2 ^ 31). lia.
Qed.

Lemma ToInt32_idem x : ToInt32 (ToInt32 x) = ToInt32 x.
Proof. apply ToInt32_small, ToInt32_range. Qed.

Lemma hash_step_31 h c : hash_step h c = ToInt32 (31 * h + charCode c).
Proof.
  unfold hash_step, and32, shl32. cbv zeta. rewrite Z.land_diag, ToInt32_idem.
  apply ToInt32_congruent. rewrite Z.shiftl_mul_pow2 by lia.
  rewrite <- Zplus_mod_idemp_l, <- Zminus_mod_idemp_l, ToInt32_mod.
  rewrite <- Zmult_mod_idemp_l, ToInt32_mod, Zmult_mod_idemp_l.
  rewrite Zminus_mod_idemp_l, Zplus_mod_idemp_l. f_equal. change (2 ^ 5) with 32. lia.
Qed.

Lemma hash_step_congruent h h' c :
  ToInt32 h = ToInt32 h' -> ToInt32 (hash_step h c) = ToInt32 (31 * h' + charCode c).
Proof.
  intros Hh. rewrite hash_step_31, ToInt32_idem. apply ToInt32_congruent.
  assert (h mod 2 ^ 32 = h' mod 2 ^ 32) as Hm.
  { rewrite <- (ToInt32_mod h), Hh. apply ToInt32_mod. }
  rewrite <- (Zplus_mod_idemp_l (31 * h)), <- (Zmult_mod_idemp_r h), Hm.
  rewrite Zmult_mod_idemp_r, Zplus_mod_idemp_l. reflexivity.
Qed.

Lemma fold_left_step {A B : Type} (f : A -> B -> A) (x : B) (l : list B) (a : A) :
  fold_left f (x :: l) a = fold_left f l (f a x).
Proof. reflexivity. Qed.

Lemma hash_loop cs : forall h h',
  ToInt32 h = ToInt32 h' ->
  ToInt32 (fold_left hash_step cs h)
  = ToInt32 (fold_left (fun h c => 31 * h + charCode c) cs h').
Proof.
  induction cs as [|c cs IH]; intros h h' Hh.
  { exact Hh. }
  rewrite !fold_left_step. apply IH, hash_step_congruent, Hh.
Qed.

Lemma hash_loop_range cs : forall h,
  - 2 ^ 31 <= h < 2 ^ 31 -> - 2 ^ 31 <= fold_left hash_step cs h < 2 ^ 31.
Proof.
  induction cs as [|c cs IH]; intros h Hh; [exact Hh|]. rewrite fold_left_step.
  apply IH. rewrite hash_step_31. apply ToInt32_range.
Qed.

Lemma hash_of_range str : - 2 ^ 31 <= hash_of str < 2 ^ 31.
Proof.
  unfold hash_of. apply hash_loop_range. split; [discriminate | reflexivity].
Qed.

(** X24.  The number [calculateHash] prints is the absolute value of the
    polynomial hash of base 31 of the code units, reduced to a signed 32-bit
    integer (the hash of a Java string). *)
Theorem hash_is_polynomial_of_base_31 str :
  hash_of str = ToInt32 (poly31 str) /\ - 2 ^ 31 <= hash_of str < 2 ^ 31.
Proof.
  pose proof (hash_of_range str) as Hrange. split; [|exact Hrange].
  unfold hash_of, poly31 in *. rewrite <- (ToInt32_small _ Hrange). by apply hash_loop.
Qed.

(** ** The text of the hash *)

Lemma append_assoc (a b c : string) : (a +:+ b) +:+ c = a +:+ b +:+ c.
Proof.
  induction a as [|x a IH]; [done|].
  change (String x ((a +:+ b) +:+ c) = String x (a +:+ b +:+ c)). by rewrite IH.
Qed.

Lemma length_append (a b : string) :
  String.length (a +:+ b) = (String.length a + String.length b)%nat.
Proof.
  induction a as [|x a IH]; [done|].
  change (S (String.length (a +:+ b)) = S (String.length a + String.length b)).
  by rewrite IH.
Qed.

Lemma list_ascii_of_append (a b : string) :
  list_ascii_of_string (a +:+ b) = list_ascii_of_string a ++ list_ascii_of_string b.
Proof.
  induction a as [|x a IH]; [done|].
  change (x :: list_ascii_of_string (a +:+ b)
          = x :: (list_ascii_of_string a ++ list_ascii_of_string b)).
  by rewrite IH.
Qed.

Lemma hex_digit_spec d :
  0 <= d < 16 -> hex_char (hex_digit d) = true /\ hex_digit_value (hex_digit d) = d.
Proof.
  intros Hd.
  assert (d = 0 \/ d = 1 \/ d = 2 \/ d = 3 \/ d = 4 \/ d = 5 \/ d = 6 \/ d = 7
          \/ d = 8 \/ d = 9 \/ d = 10 \/ d = 11 \/ d = 12 \/ d = 13 \/ d = 14
          \/ d = 15) as Hcases by lia.
  repeat destruct Hcases as [-> | Hcases]; try subst d; by vm_compute.
Qed.

Lemma hex_go_spec fuel : forall n acc,
  0 <= n < 16 ^ Z.of_nat fuel ->
  exists p,
    hex_go fuel n acc = p +:+ acc
    /\ all_chars hex_char p = true
    /\ (String.length p <= fuel)%nat
    /\ (0 < n -> (1 <= String.length p)%nat
                  /\ 16 ^ (Z.of_nat (String.length p) - 1) <= n)
    /\ forall v, fold_left (fun v c => 16 * v + hex_digit_value c)
                   (list_ascii_of_string p) v
                 = v * 16 ^ Z.of_nat (String.length p) + n.
Proof.
  induction fuel as [|fuel IH]; intros n acc Hn.
  - exists "". simpl in *. repeat split; try done; try lia.
  - cbn [hex_go]. destruct (hex_digit_spec (n mod 16)) as [Hc Hv].
    { apply Z.mod_pos_bound. lia. }
    destruct (Z.eqb_spec (n / 16) 0) as [Hq|Hq].
    + exists (String (hex_digit (n mod 16)) "").
      assert (n mod 16 = n) as Hsmall.
      { rewrite (Z.div_mod n 16) at 2 by lia. lia. }
      split; [done|]. split; [unfold all_chars; simpl; by rewrite Hc|].
      split; [simpl; lia|]. split; [simpl; lia|].
      intros v. simpl. rewrite Hv. lia.
    + assert (0 <= n / 16 < 16 ^ Z.of_nat fuel) as Hdiv.
      { split; [apply Z.div_pos; lia|]. apply Z.div_lt_upper_bound; [lia|].
        rewrite Nat2Z.inj_succ, Z.pow_succ_r in Hn by lia. lia. }
      destruct (IH (n / 16) (String (hex_digit (n mod 16)) acc) Hdiv)
        as (p & -> & Hp & Hlen & Hlow & Hval).
      exists (p +:+ String (hex_digit (n mod 16)) "").
      assert (String.length (p +:+ String (hex_digit (n mod 16)) "")
              = S (String.length p)) as Hlength.
      { rewrite length_append. simpl. lia. }
      split; [by rewrite append_assoc|].
      split. { rewrite all_chars_app, Hp. unfold all_chars. simpl. by rewrite Hc. }
      split; [lia|]. split.
      * intros _. rewrite Hlength.
        assert (0 < n / 16) as Hpos by lia. destruct (Hlow Hpos) as [Hone Hpow].
        split; [lia|].
        replace (Z.of_nat (S (String.length p)) - 1)
          with (Z.succ (Z.of_nat (String.length p) - 1)) by lia.
        rewrite Z.pow_succ_r by lia.
        pose proof (Z.mul_div_le n 16). lia.
      * intros v. rewrite Hlength.
        rewrite list_ascii_of_append, fold_left_app.
        cbn [fold_left list_ascii_of_string]. rewrite Hval, Hv.
        rewrite Nat2Z.inj_succ, Z.pow_succ_r by lia.
        rewrite (Z.div_mod n 16) at 3 by lia. lia.
Qed.

Lemma append_empty (a : string) : a +:+ "" = a.
Proof.
  induction a as [|x a IH]; [done|]. change (String x (a +:+ "") = String x a).
  by rewrite IH.
Qed.

Lemma hex_char_no_colon c : hex_char c = true -> other_than ":" c = true.
Proof.
  intros Hc. unfold other_than. destruct (Ascii.eqb_spec c ":") as [->|]; [|done].
  by vm_compute in Hc.
Qed.

Lemma toString16_spec n :
  0 <= n ->
  all_chars hex_char (toString16 n) = true
  /\ (1 <= String.length (toString16 n))%nat
  /\ (forall k, 1 <= k -> n < 16 ^ k -> Z.of_nat (String.length (toString16 n)) <= k)
  /\ hex_value (toString16 n) = n.
Proof.
  intros Hn. destruct (Z.eq_dec n 0) as [->|Hpos].
  { repeat split; done. }
  unfold toString16.
  assert (n < 16 ^ Z.of_nat (S (Z.to_nat (Z.log2 n)))) as Hfuel.
  { rewrite Nat2Z.inj_succ, Z2Nat.id by apply Z.log2_nonneg.
    pose proof (Z.log2_spec n ltac:(lia)) as [_ Hlog].
    eapply Z.lt_le_trans; [exact Hlog|].
    apply Z.pow_le_mono_l. lia. }
  destruct (hex_go_spec _ n "" (conj Hn Hfuel)) as (p & -> & Hp & _ & Hlow & Hval).
  rewrite append_empty. destruct (Hlow ltac:(lia)) as [Hone Hpow].
  split; [done|]. split; [done|]. split.
  - intros k Hk Hlt.
    assert (Z.of_nat (String.length p) - 1 < k); [|lia].
    apply (Z.pow_lt_mono_r_iff 16); lia.
  - unfold hex_value. rewrite Hval. lia.
Qed.

Lemma calculateHash_chars str : all_chars hex_char (calculateHash str) = true.
Proof.
  unfold calculateHash.
  by destruct (toString16_spec (Z.abs (hash_of str)) ltac:(lia)) as (Hchars & _).
Qed.

Lemma calculateHash_no_colon str :
  all_chars (other_than ":") (calculateHash str) = true.
Proof.
  eapply all_chars_weaken; [|apply calculateHash_chars]. apply hex_char_no_colon.
Qed.

(** X25.  The text [calculateHash] returns is the number |h| written in base
    16: one to eight digits [0-9a-f], which denote |h|; in particular it holds
    no colon, so that it is the first piece of what [compressAndEncode]
    returns. *)
Theorem hash_text_is_hexadecimal str :
  all_chars hex_char (calculateHash str) = true
  /\ (1 <= String.length (calculateHash str) <= 8)%nat
  /\ hex_value (calculateHash str) = Z.abs (hash_of str)
  /\ all_chars (other_than ":") (calculateHash str) = true.
Proof.
  split; [apply calculateHash_chars|]. split; [|split; [|apply calculateHash_no_colon]].
  - unfold calculateHash. pose proof (hash_of_range str) as Hrange.
    destruct (toString16_spec (Z.abs (hash_of str)) ltac:(lia))
      as (_ & Hone & Hlen & _).
    split; [done|]. specialize (Hlen 8 ltac:(lia) ltac:(lia)). lia.
  - unfold calculateHash.
    by destruct (toString16_spec (Z.abs (hash_of str)) ltac:(lia)) as (_ & _ & _ & Hval).
Qed.

Section Framing.
Context {data : Type} `{Codec data}.

Lemma split_colon_plain s :
  all_chars (other_than ":") s = true -> split_colon s = [s].
Proof.
  unfold all_chars. induction s as [|c s IH]; [done|]. cbn [list_ascii_of_string forallb].
  intros [Hc Hs]%andb_prop. cbn [split_colon]. unfold other_than in Hc.
  apply negb_true_iff in Hc. rewrite Hc. by rewrite IH.
Qed.

Lemma split_colon_app h rest :
  all_chars (other_than ":") h = true ->
  split_colon (h +:+ ":" +:+ rest) = h :: split_colon rest.
Proof.
  unfold all_chars. induction h as [|c h IH]; [done|].
  cbn [list_ascii_of_string forallb]. intros [Hc Hs]%andb_prop.
  change (String c h +:+ ":" +:+ rest) with (String c (h +:+ ":" +:+ rest)).
  cbn [split_colon]. unfold other_than in Hc. apply negb_true_iff in Hc.
  rewrite Hc. by rewrite IH.
Qed.

(** X26.  What [compressAndEncode] returns is decoded as valid: when the
    engine turns the data into the text [json], the text into Base64, and the
    Base64 back into the text, [decodeAndDecompress] finds the two pieces
    again, parses the text and reports [valid: true]. *)
Theorem encoded_data_decodes_as_valid d json b64 d' :
  JSON_stringify d = Ok (Some json) ->
  base64_of_text json = Ok b64 ->
  all_chars (other_than ":") b64 = true ->
  text_of_base64 b64 = Ok json ->
  JSON_parse json = Ok d' ->
  compressAndEncode d = Ok (calculateHash json +:+ ":" +:+ b64)
  /\ decodeAndDecompress (calculateHash json +:+ ":" +:+ b64)
     = Ok {| decoded_data := d'; valid := true |}.
Proof.
  intros Hjson Hb64 Hplain Htext Hparse. split.
  - unfold compressAndEncode. rewrite Hjson. unfold_result. by rewrite Hb64.
  - unfold decodeAndDecompress.
    pose proof (calculateHash_no_colon json) as Hhash.
    rewrite (split_colon_app _ _ Hhash), (split_colon_plain _ Hplain).
    rewrite Htext. unfold_result. rewrite Hparse. by rewrite String.eqb_refl.
Qed.

(** X27.  A text without a colon has no second piece, and
    [decodeAndDecompress] throws; whatever follows a second colon is not read;
    and the flag [valid] tells whether the first piece is the hash of the text
    that the second piece decodes to. *)
Theorem decoding_reads_two_pieces :
  (forall str, all_chars (other_than ":") str = true ->
     decodeAndDecompress str = Throw)
  /\ (forall hash b64 rest,
        all_chars (other_than ":") hash = true ->
        all_chars (other_than ":") b64 = true ->
        decodeAndDecompress (hash +:+ ":" +:+ b64 +:+ ":" +:+ rest)
        = decodeAndDecompress (hash +:+ ":" +:+ b64))
  /\ (forall hash b64 json d,
        all_chars (other_than ":") hash = true ->
        all_chars (other_than ":") b64 = true ->
        text_of_base64 b64 = Ok json -> JSON_parse json = Ok d ->
        decodeAndDecompress (hash +:+ ":" +:+ b64)
        = Ok {| decoded_data := d;
                valid := String.eqb (calculateHash json) hash |}).
Proof.
  split; [|split].
  - intros str Hstr. unfold decodeAndDecompress. by rewrite split_colon_plain.
  - intros hash b64 rest Hhash Hb64. unfold decodeAndDecompress.
    rewrite !(split_colon_app _ _ Hhash), (split_colon_app _ _ Hb64).
    by rewrite (split_colon_plain _ Hb64).
  - intros hash b64 json d Hhash Hb64 Htext Hparse. unfold decodeAndDecompress.
    rewrite (split_colon_app _ _ Hhash), (split_colon_plain _ Hb64).
    rewrite Htext. unfold_result. by rewrite Hparse.
Qed.

End Framing.

(** The text ["USS Example"], its hash and its Base64 form. *)
Lemma encoded_data_decodes_as_valid_witness :
  compressAndEncode (VStr "USS Example") = Ok "4ac2387b:IlVTUyBFeGFtcGxlIg=="
  /\ decodeAndDecompress "4ac2387b:IlVTUyBFeGFtcGxlIg=="
     = Ok {| decoded_data := VStr "USS Example"; valid := true |}.
Proof.
  apply (encoded_data_decodes_as_valid (VStr "USS Example")
           (ExampleCodec.quote +:+ "USS Example" +:+ ExampleCodec.quote)
           "IlVTUyBFeGFtcGxlIg==" (VStr "USS Example"));
    vm_compute; reflexivity.
Defined.

(** ** [formatLegendText] *)

Lemma replace_placeholders_step f c rest key :
  replace_placeholders f (String c rest) key
  = let afresh :=
      if Ascii.eqb c "{" then replace_placeholders f rest (Some "")
      else r ← replace_placeholders f rest None; Ok (String c r) in
    match key with
    | None => afresh
    | Some k =>
        if word_char c then replace_placeholders f rest (Some (k +:+ String c ""))
        else if Ascii.eqb c "}" && negb (String.eqb k "")
             then v ← f k; r ← replace_placeholders f rest None; Ok (v +:+ r)
             else r ← afresh; Ok ("{" +:+ k +:+ r)
    end.
Proof. reflexivity. Qed.

Lemma placeholders_step c rest key :
  placeholders (String c rest) key
  = let afresh :=
      if Ascii.eqb c "{" then placeholders rest (Some "")
      else placeholders rest None in
    match key with
    | None => afresh
    | Some k =>
        if word_char c then placeholders rest (Some (k +:+ String c ""))
        else if Ascii.eqb c "}" && negb (String.eqb k "")
             then k :: placeholders rest None
             else afresh
    end.
Proof. reflexivity. Qed.

(** Replacing every match by itself gives the text back. *)
Lemma replace_placeholders_unknown f text : forall key,
  (forall k, k ∈ placeholders text key -> f k = Ok ("{" +:+ k +:+ "}")) ->
  replace_placeholders f text key = Ok (pending key +:+ text).
Proof.
  induction text as [|c rest IH]; intros key Hf.
  - simpl. by rewrite append_empty.
  - rewrite replace_placeholders_step. rewrite placeholders_step in Hf. cbv zeta in *.
    assert ((forall k, k ∈ (if Ascii.eqb c "{" then placeholders rest (Some "")
                            else placeholders rest None) ->
                       f k = Ok ("{" +:+ k +:+ "}")) ->
            (if Ascii.eqb c "{" then replace_placeholders f rest (Some "")
             else r ← replace_placeholders f rest None; Ok (String c r))
            = Ok (String c rest)) as Hafresh.
    { intros Hk. destruct (Ascii.eqb_spec c "{") as [->|Hc].
      - by rewrite (IH (Some "") Hk).
      - by rewrite (IH None Hk). }
    destruct key as [k|]; [|by apply Hafresh].
    destruct (word_char c).
    + rewrite (IH _ Hf). cbn [pending]. f_equal.
      change ("{" +:+ k +:+ String c "") with (String "{" (k +:+ String c "")).
      change ("{" +:+ k) with (String "{" k).
      change (String "{" (k +:+ String c "") +:+ rest)
        with (String "{" ((k +:+ String c "") +:+ rest)).
      change (String "{" k +:+ String c rest) with (String "{" (k +:+ String c rest)).
      by rewrite append_assoc.
    + destruct (Ascii.eqb_spec c "}") as [->|Hc]; cbn [andb].
      * destruct (String.eqb k ""); cbn [negb].
        -- rewrite (Hafresh Hf). done.
        -- rewrite (Hf k) by apply list_elem_of_here. unfold_result.
           rewrite (IH None) by (intros; apply Hf; by apply list_elem_of_further).
           cbn [pending]. f_equal.
           change ("" +:+ rest) with rest.
           change ("{" +:+ k +:+ "}") with (String "{" (k +:+ "}")).
           change ("{" +:+ k) with (String "{" k).
           change (String "{" (k +:+ "}") +:+ rest)
             with (String "{" ((k +:+ "}") +:+ rest)).
           by rewrite append_assoc.
      * by rewrite (Hafresh Hf).
Qed.

Lemma placeholders_none text :
  all_chars (other_than "{") text = true -> placeholders text None = [].
Proof.
  unfold all_chars. induction text as [|c rest IH]; [done|].
  cbn [list_ascii_of_string forallb]. intros [Hc Hrest]%andb_prop.
  rewrite placeholders_step. cbv zeta. unfold other_than in Hc.
  apply negb_true_iff in Hc. rewrite Hc. auto.
Qed.

(** A callback that throws makes the first match throw. *)
Lemma replace_placeholders_throws f text : forall key,
  (forall k, f k = Throw) -> placeholders text key <> [] ->
  replace_placeholders f text key = Throw.
Proof.
  induction text as [|c rest IH]; intros key Hf; [done|].
  rewrite replace_placeholders_step, placeholders_step. cbv zeta.
  assert ((if Ascii.eqb c "{" then placeholders rest (Some "")
           else placeholders rest None) <> [] ->
          (if Ascii.eqb c "{" then replace_placeholders f rest (Some "")
           else r ← replace_placeholders f rest None; Ok (String c r))
          = Throw) as Hafresh.
  { destruct (Ascii.eqb c "{"); intros Hne; by rewrite IH. }
  destruct key as [k|]; [|done].
  destruct (word_char c); [by apply IH|].
  destruct (Ascii.eqb c "}" && negb (String.eqb k "")).
  - intros _. by rewrite Hf.
  - intros Hne. by rewrite Hafresh.
Qed.

Section LegendTextFacts.
Context `{Host} `{Text}.

(** X28.  [formatLegendText] leaves a text as it is when none of its
    placeholders is defined (neither in the thresholds nor in
    [Object.prototype]); a text without an opening brace is returned as it is
    whatever the thresholds are, even [null]; with a placeholder and
    thresholds that are [null] or [undefined] the function throws. *)
Theorem formatLegendText_keeps_unknown_placeholders :
  (forall s t,
     (forall k, k ∈ placeholders s None ->
                prop t k = VUndef /\ inherited k = false) ->
     formatLegendText (VStr s) (CObj t) = Ok s)
  /\ (forall s thresholds,
        all_chars (other_than "{") s = true ->
        formatLegendText (VStr s) thresholds = Ok s)
  /\ (forall s,
        placeholders s None <> [] ->
        formatLegendText (VStr s) CNull = Throw
        /\ formatLegendText (VStr s) CUndef = Throw).
Proof.
  assert (forall s thresholds,
            (forall k, k ∈ placeholders s None ->
                       placeholder_text thresholds k = Ok ("{" +:+ k +:+ "}")) ->
            formatLegendText (VStr s) thresholds = Ok s) as Hkeep.
  { intros s thresholds Hk. unfold formatLegendText. cbn [truthy].
    destruct (String.eqb_spec s "") as [->|Hs]; [done|]. cbn [negb].
    by rewrite (replace_placeholders_unknown _ _ None Hk). }
  split; [|split].
  - intros s t Hk. apply Hkeep. intros k Hin. destruct (Hk k Hin) as [Hprop Hown].
    unfold placeholder_text. unfold prop in Hprop.
    destruct (t !! k) as [v|]; simpl in Hprop; [by subst v | by rewrite Hown].
  - intros s thresholds Hs. apply Hkeep. rewrite (placeholders_none s Hs).
    by intros k ?%elem_of_nil.
  - intros s Hs. unfold formatLegendText. cbn [truthy].
    destruct (String.eqb_spec s "") as [->|Hne]; [done|]. cbn [negb].
    split; by apply replace_placeholders_throws.
Qed.

End LegendTextFacts.

(** A text without an opening brace is copied. *)
Lemma replace_placeholders_plain f a text :
  all_chars (other_than "{") a = true ->
  replace_placeholders f (a +:+ text) None
  = r ← replace_placeholders f text None; Ok (a +:+ r).
Proof.
  unfold all_chars. induction a as [|c a IH].
  - intros _. change ("" +:+ text) with text.
    by destruct (replace_placeholders f text None).
  - cbn [list_ascii_of_string forallb]. intros [Hc Ha]%andb_prop.
    change (String c a +:+ text) with (String c (a +:+ text)).
    rewrite replace_placeholders_step. cbv zeta. unfold other_than in Hc.
    apply negb_true_iff in Hc. rewrite Hc, (IH Ha).
    by destruct (replace_placeholders f text None).
Qed.

(** The word characters after a brace are read as the key. *)
Lemma replace_placeholders_key f k : forall k0 text,
  all_chars word_char k = true -> k0 +:+ k <> "" ->
  replace_placeholders f (k +:+ "}" +:+ text) (Some k0)
  = v ← f (k0 +:+ k); r ← replace_placeholders f text None; Ok (v +:+ r).
Proof.
  unfold all_chars. induction k as [|c k IH]; intros k0 text Hk Hne.
  - change ("" +:+ "}" +:+ text) with (String "}" text).
    rewrite replace_placeholders_step. cbv zeta. rewrite append_empty in *.
    change (word_char "}") with false. change (Ascii.eqb "}" "}") with true.
    apply String.eqb_neq in Hne. by rewrite Hne.
  - cbn [list_ascii_of_string forallb] in Hk. apply andb_prop in Hk as [Hc Hk].
    change (String c k +:+ "}" +:+ text) with (String c (k +:+ "}" +:+ text)).
    rewrite replace_placeholders_step. cbv zeta. rewrite Hc.
    rewrite (IH (k0 +:+ String c "") text Hk).
    + rewrite append_assoc. done.
    + rewrite append_assoc. by destruct k0.
Qed.

Section Replacing.
Context `{Host} `{Text}.

(** X29.  A placeholder whose key holds a value is replaced by the value,
    written as a string; the text before it, if it has no brace, is kept, and
    the text after it is formatted in the same way. *)
Theorem formatLegendText_replaces_defined_placeholders a k b t v :
  all_chars (other_than "{") a = true ->
  all_chars word_char k = true -> k <> "" ->
  t !! k = Some v -> v <> VUndef ->
  formatLegendText (VStr (a +:+ "{" +:+ k +:+ "}" +:+ b)) (CObj t)
  = r ← formatLegendText (VStr b) (CObj t); Ok (a +:+ ToString v +:+ r).
Proof.
  intros Ha Hk Hne Hv Hdef. unfold formatLegendText. cbn [truthy].
  assert (String.eqb (a +:+ "{" +:+ k +:+ "}" +:+ b) "" = false) as ->.
  { apply String.eqb_neq. by destruct a. }
  cbn [negb]. rewrite (replace_placeholders_plain _ a _ Ha).
  change ("{" +:+ k +:+ "}" +:+ b) with (String "{" (k +:+ "}" +:+ b)).
  rewrite replace_placeholders_step. cbv zeta. change (Ascii.eqb "{" "{") with true.
  rewrite (replace_placeholders_key _ k "" b Hk) by done.
  change ("" +:+ k) with k.
  assert (placeholder_text (CObj t) k = Ok (ToString v)) as ->.
  { unfold placeholder_text. rewrite Hv. by destruct v. }
  unfold_result.
  destruct (String.eqb_spec b "") as [->|Hb]; cbn [negb]; [done|].
  by destruct (replace_placeholders (placeholder_text (CObj t)) b None).
Qed.

End Replacing.

(** The threshold of the MED stage for VPH, in a sentence. *)
Lemma formatLegendText_replaces_defined_placeholders_witness :
  all_chars (other_than "{") "VPH above " = true
  /\ all_chars word_char "med_ra_vph" = true
  /\ defaultThresholds !! "med_ra_vph" = Some (vnum (7#2))
  /\ formatLegendText (VStr "VPH above {med_ra_vph} counts") (CObj defaultThresholds)
     = Ok "VPH above 3.5 counts".
Proof.
  split; [reflexivity|]. split; [reflexivity|]. split; [reflexivity|].
  etransitivity.
  - apply (formatLegendText_replaces_defined_placeholders
             "VPH above " "med_ra_vph" " counts" defaultThresholds (vnum (7#2)));
      [reflexivity | reflexivity | discriminate | reflexivity | discriminate].
  - vm_compute; reflexivity.
Defined.

(** ** The legend and the calculator *)

Lemma prefix_refl p : String.prefix p p = true.
Proof.
  induction p as [|c p IH]; [done|]. simpl.
  by destruct (Ascii.ascii_dec c c).
Qed.

Lemma includes_here p s : String.prefix p s = true -> includes p s = true.
Proof. intros Hp. destruct s; cbn [includes]; by rewrite Hp. Qed.

Lemma includes_append_l p a s : includes p s = true -> includes p (a +:+ s) = true.
Proof.
  intros Hs. induction a as [|c a IH]; [done|].
  change (String c a +:+ s) with (String c (a +:+ s)). cbn [includes].
  rewrite IH. apply orb_true_r.
Qed.

Lemma includes_append_r p s b : includes p s = true -> includes p (s +:+ b) = true.
Proof.
  induction s as [|c s IH].
  - cbn [includes]. rewrite orb_false_r. intros Hp.
    apply includes_here. by apply (prefix_append p "" b).
  - cbn [includes]. intros [Hp | Hs]%orb_prop.
    + apply includes_here. by apply prefix_append.
    + change (String c s +:+ b) with (String c (s +:+ b)). cbn [includes].
      rewrite (IH Hs). apply orb_true_r.
Qed.

(** A part of a joined text is included in it. *)
Lemma includes_join sep p parts : p ∈ parts -> includes p (join sep parts) = true.
Proof.
  induction parts as [|q parts IH]; [by intros ?%elem_of_nil|].
  intros Hp. destruct parts as [|q' parts].
  - apply list_elem_of_singleton in Hp as ->. apply includes_here, prefix_refl.
  - change (join sep (q :: q' :: parts)) with (q +:+ sep +:+ join sep (q' :: parts)).
    apply elem_of_cons in Hp as [-> | Hp].
    + apply includes_append_r, includes_here, prefix_refl.
    + by apply includes_append_l, includes_append_l, IH.
Qed.

Section LegendAndRisk.
Context `{Host}.

Lemma plain_text label v s : plain label v = Ok s -> exists x, s = label +:+ x.
Proof. intros [= <-]. by eexists. Qed.

Lemma percent_text label v s : percent label v = Ok s -> exists x, s = label +:+ x.
Proof.
  unfold percent. destruct (fixed v 1); [|done]. intros [= <-]. by eexists.
Qed.

Lemma ratio_text label v s : ratio label v = Ok s -> exists x, s = label +:+ x.
Proof.
  unfold ratio. destruct (fixed v 2); [|done]. intros [= <-]. by eexists.
Qed.

Lemma days_text label age s : days label age = Ok s -> exists x, s = label +:+ x.
Proof. destruct age; intros [= <-]; by eexists. Qed.

(** A reason that starts with one of the labels comes from a check that is
    guarded by [guard]. *)
Lemma guarded_reason (labels : list string) (guard : bool) cs hs s :
  Forall (fun c : check =>
            c.1 = true -> forall s, c.2 = Ok s ->
            existsb (fun l => String.prefix l s) labels = true -> guard = true) cs ->
  fired cs = Ok hs -> s ∈ hs ->
  existsb (fun l => String.prefix l s) labels = true -> guard = true.
Proof.
  intros Hcs Hf Hs Hl. destruct (fired_from_check _ _ _ Hf Hs) as (c & Hc & Hfire & Hr).
  rewrite Forall_forall in Hcs. by apply (Hcs c Hc Hfire s Hr).
Qed.

(** Finds the guard in the condition of the check, or a label that does not
    fit. *)
Ltac guarded_checks :=
  repeat apply Forall_cons_2; try apply Forall_nil_2; cbn [fst snd];
  intros Hfire s Hs Hlabel;
  try (apply andb_prop in Hfire as [Hfire _]; apply andb_prop in Hfire as [Hfire _];
       exact Hfire);
  try (apply andb_prop in Hfire as [Hfire _]; exact Hfire);
  exfalso;
  lazymatch type of Hs with
  | Ok _ = Ok _ => injection Hs as <-
  | plain _ _ = Ok _ => apply plain_text in Hs as [x ->]
  | percent _ _ = Ok _ => apply percent_text in Hs as [x ->]
  | ratio _ _ = Ok _ => apply ratio_text in Hs as [x ->]
  | days _ _ = Ok _ => apply days_text in Hs as [x ->]
  end;
  vm_compute in Hlabel; discriminate Hlabel.

Lemma high_true_policy_guard boat t l :
  Forall (fun c : check =>
            c.1 = true -> forall s, c.2 = Ok s ->
            existsb (fun l => String.prefix l s)
              ["NIPR True Policy: "; "SIPR True Policy: "] = true ->
            gt (js_or (prop t "high_ess_compliance") (vnum 0)) (vnum 0) = true)
         (highChecks boat t l).
Proof. unfold highChecks. guarded_checks. Qed.

Lemma high_raw_policy_guard boat t l :
  Forall (fun c : check =>
            c.1 = true -> forall s, c.2 = Ok s ->
            existsb (fun l => String.prefix l s)
              ["NIPR Raw Policy: "; "SIPR Raw Policy: "] = true ->
            gt (js_or (prop t "high_raw_policy_compliance") (vnum 0)) (vnum 0) = true)
         (highChecks boat t l).
Proof. unfold highChecks. guarded_checks. Qed.

Lemma med_true_policy_guard boat t l :
  Forall (fun c : check =>
            c.1 = true -> forall s, c.2 = Ok s ->
            existsb (fun l => String.prefix l s)
              ["NIPR True Policy: "; "SIPR True Policy: "] = true ->
            gt (js_or (prop t "med_true_policy_compliance") (vnum 0)) (vnum 0) = true)
         (medChecks boat t l).
Proof. unfold medChecks. guarded_checks. Qed.

Lemma med_raw_policy_guard boat t l :
  Forall (fun c : check =>
            c.1 = true -> forall s, c.2 = Ok s ->
            existsb (fun l => String.prefix l s)
              ["NIPR Raw Policy: "; "SIPR Raw Policy: "] = true ->
            gt (js_or (prop t "med_raw_policy_compliance") (vnum 0)) (vnum 0) = true)
         (medChecks boat t l).
Proof. unfold medChecks. guarded_checks. Qed.

(** The LOW stage writes its policy reasons without a space. *)
Lemma low_policy_labels boat t l :
  Forall (fun c : check =>
            c.1 = true -> forall s, c.2 = Ok s ->
            existsb (fun l => String.prefix l s)
              ["NIPR True Policy: "; "SIPR True Policy: ";
               "NIPR Raw Policy: "; "SIPR Raw Policy: "] = true ->
            False)
         (lowChecks boat t l).
Proof. unfold lowChecks. guarded_checks. Qed.

(** A policy reason of the HIGH stage does not mention VRAM data. *)
Lemma high_policy_reasons_excluded boat t l :
  Forall (fun c : check =>
            c.1 = true -> forall s, c.2 = Ok s ->
            existsb (fun l => String.prefix l s)
              ["NIPR True Policy: "; "SIPR True Policy: ";
               "NIPR Raw Policy: "; "SIPR Raw Policy: "] = true ->
            includes "VRAM data" s = false)
         (highChecks boat t l).
Proof.
  unfold highChecks.
  repeat apply Forall_cons_2; try apply Forall_nil_2; cbn [fst snd];
    intros Hfire s Hs Hlabel;
    try (refine (percent_excluded _ _ _ _ Hs); reflexivity);
    exfalso;
    lazymatch type of Hs with
    | Ok _ = Ok _ => injection Hs as <-
    | plain _ _ = Ok _ => apply plain_text in Hs as [x ->]
    | percent _ _ = Ok _ => apply percent_text in Hs as [x ->]
    | ratio _ _ = Ok _ => apply ratio_text in Hs as [x ->]
    | days _ _ = Ok _ => apply days_text in Hs as [x ->]
    end;
    vm_compute in Hlabel; discriminate Hlabel.
Qed.

Ltac listed :=
  repeat (apply elem_of_app; first [ left; by apply list_elem_of_here | right ]).

(** X30.  What the legend says of the policy triggers is true of the
    calculator: when [calculateRisk] returns HIGH with a reason on True Policy
    or on Raw Policy, the HIGH legend lists that criterion with its threshold,
    and likewise for MED and the MED legend. *)
Theorem legend_announces_policy_triggers boat t r reason :
  calculateRisk boat (CObj t) = Ok r -> reason ∈ reasons r ->
  let lists (text legend : string) := includes text legend = true in
  let legend := generateDynamicLegend (CObj t) in
  let true_policy :=
    String.prefix "NIPR True Policy: " reason || String.prefix "SIPR True Policy: " reason in
  let raw_policy :=
    String.prefix "NIPR Raw Policy: " reason || String.prefix "SIPR Raw Policy: " reason in
  (level r = HIGH ->
   (true_policy = true ->
    lists ("TruePolicy &lt;" +:+ ToString (prop t "high_ess_compliance") +:+ "%")
          (legend_high legend))
   /\ (raw_policy = true ->
       lists ("RawPolicy &lt;" +:+ ToString (prop t "high_raw_policy_compliance") +:+ "%")
             (legend_high legend)))
  /\ (level r = MED ->
      (true_policy = true ->
       lists ("TruePolicy &lt;" +:+ ToString (prop t "med_true_policy_compliance") +:+ "%")
             (legend_med legend))
      /\ (raw_policy = true ->
          lists ("RawPolicy &lt;" +:+ ToString (prop t "med_raw_policy_compliance") +:+ "%")
                (legend_med legend))).
Proof.
  rewrite calculateRisk_stages. unfold stages, config. cbv zeta.
  set (l := read_locals boat). intros Hr Hreason.
  assert (forall (P : string -> Prop) labels cs rs,
            Forall (fun c : check =>
                      c.1 = true -> forall s, c.2 = Ok s ->
                      existsb (fun l => String.prefix l s) labels = true -> P s) cs ->
            fired cs = Ok rs -> reason ∈ rs ->
            existsb (fun l => String.prefix l reason) labels = true -> P reason)
    as Horigin.
  { intros P labels cs rs Hcs Hf Hs Hl.
    destruct (fired_from_check _ _ _ Hf Hs) as (c & Hc & Hfire & Hc2).
    rewrite Forall_forall in Hcs. by apply (Hcs c Hc Hfire reason Hc2). }
  assert (forall a b, a || b = true -> a || (b || false) = true) as Htwo.
  { intros a b. by rewrite orb_false_r. }
  assert (forall a b c d, a || b = true \/ c || d = true ->
            a || (b || (c || (d || false))) = true) as Hfour.
  { intros [] [] [] []; simpl; tauto. }
  unfold generateDynamicLegend. cbn [legend_high legend_med].
  destruct (fired (highChecks boat t l)) as [hs|] eqn:Hhs; unfold_result; [|done].
  destruct (any_fires (highChecks boat t l)).
  - injection Hr as <-.
    apply reasons_exemptStage in Hreason as [Hin | (-> & _ & _ & Hmed)].
    + split.
      * intros _. split; intros Hlabel; apply includes_join; unfold highParts.
        -- rewrite (Horigin (fun _ => _ = true) _ _ _ (high_true_policy_guard boat t l)
                      Hhs Hin (Htwo _ _ Hlabel)).
           cbn [part_if]. listed.
        -- rewrite (Horigin (fun _ => _ = true) _ _ _ (high_raw_policy_guard boat t l)
                      Hhs Hin (Htwo _ _ Hlabel)).
           cbn [part_if]. listed.
      * intros Hlevel. rewrite level_exemptStage in Hlevel.
        destruct (truthy (isScanExempt boat) && noVramData l); [|done].
        destruct (forallb (includes "VRAM data") hs) eqn:Hall; [|done].
        rewrite forallb_forall in Hall.
        pose proof (Hall reason ltac:(by apply list_elem_of_In)) as Hvram.
        split; intros Hlabel; exfalso.
        -- pose proof (Horigin (fun s => includes "VRAM data" s = false) _ _ _
                         (high_policy_reasons_excluded boat t l) Hhs Hin
                         (Hfour _ _ (String.prefix "NIPR Raw Policy: " reason)
                                (String.prefix "SIPR Raw Policy: " reason)
                                (or_introl Hlabel))) as Hno.
           congruence.
        -- pose proof (Horigin (fun s => includes "VRAM data" s = false) _ _ _
                         (high_policy_reasons_excluded boat t l) Hhs Hin
                         (Hfour (String.prefix "NIPR True Policy: " reason)
                                (String.prefix "SIPR True Policy: " reason) _ _
                                (or_intror Hlabel))) as Hno.
           congruence.
    + rewrite Hmed. split; [done|]. intros _. split; intros Hlabel; by vm_compute in Hlabel.
  - destruct (fired (medChecks boat t l)) as [ms|] eqn:Hms; [|done].
    destruct (2 <=? length ms)%nat.
    + injection Hr as <-. cbn [level reasons] in *. split; [done|]. intros _.
      split; intros Hlabel; apply includes_append_l, includes_join; unfold medParts.
      * rewrite (Horigin (fun _ => _ = true) _ _ _ (med_true_policy_guard boat t l)
                   Hms Hreason (Htwo _ _ Hlabel)).
        cbn [part_if]. listed.
      * rewrite (Horigin (fun _ => _ = true) _ _ _ (med_raw_policy_guard boat t l)
                   Hms Hreason (Htwo _ _ Hlabel)).
        cbn [part_if]. listed.
    + destruct (any_fires (lowChecks boat t l)).
      * destruct (fired (lowChecks boat t l)) as [ls|] eqn:Hls; [|done].
        injection Hr as <-. cbn [level reasons] in *. split; [done|]. intros _.
        split; intros Hlabel; exfalso.
        -- apply (Horigin (fun _ => False) _ _ _ (low_policy_labels boat t l)
                    Hls Hreason
                    (Hfour _ _ (String.prefix "NIPR Raw Policy: " reason)
                           (String.prefix "SIPR Raw Policy: " reason)
                           (or_introl Hlabel))).
        -- apply (Horigin (fun _ => False) _ _ _ (low_policy_labels boat t l)
                    Hls Hreason
                    (Hfour (String.prefix "NIPR True Policy: " reason)
                           (String.prefix "SIPR True Policy: " reason) _ _
                           (or_intror Hlabel))).
      * injection Hr as <-. by apply elem_of_nil in Hreason.
Qed.

End LegendAndRisk.

(** A boat whose SIPR True Policy compliance is 80: HIGH under the
    defaults, for a criterion that the HIGH legend lists. *)
Lemma legend_announces_policy_triggers_witness :
  calculateRisk (createHealthyBoat {[ "essSiprTruePolicy" := vnum 80 ]})
    (CObj defaultThresholds)
  = Ok {| level := HIGH; reasons := ["SIPR True Policy: 80.0%"] |}
  /\ includes ("TruePolicy &lt;" +:+ ToString (prop defaultThresholds "high_ess_compliance")
               +:+ "%")
       (legend_high (generateDynamicLegend (CObj defaultThresholds))) = true.
Proof.
  split; [vm_compute; reflexivity|].
  refine (proj1 (proj1 (legend_announces_policy_triggers
                          (createHealthyBoat {[ "essSiprTruePolicy" := vnum 80 ]})
                          defaultThresholds
                          {| level := HIGH; reasons := ["SIPR True Policy: 80.0%"] |}
                          "SIPR True Policy: 80.0%" _ _) _) _).
  - vm_compute; reflexivity.
  - apply list_elem_of_here.
  - reflexivity.
  - vm_compute; reflexivity.
Defined.
